(** * OpenSCAD: built-in functions (func.cc) and the compile orchestrator
      (mainwin.cc)

    A shallow embedding of the parts of [src/func.cc] and [src/mainwin.cc]
    that the specification talks about, and the properties of the
    specification stated and proved (or refuted) on it.

    - [Double]    : IEEE-754 binary64 numbers (Rocq's primitive floats).
    - [Utf8]      : the glib UTF-8 helpers used by [search].
    - [Func]      : [Value], the diagnostics sink, and the built-ins
                    [rands], [min], [max], [lookup], [search].
    - [MoreBuiltins] : the other built-ins of [func.cc]: the numeric
                    functions, [len], [str], [chr], [concat], [norm],
                    [cross], [parent_module] and the type tests.
    - [MainWin]   : the GUI lock, the compile / reload state machine, the
                    preview CSG compilation and the progress callback.
    - [MainWinMore] : the editor's tabs, the recent files, the animation,
                    the view modes, the auto-reload timer and the export.
    - [DoubleFacts], [FuncSpec], [MainWinSpec] : the order of doubles, and
                    the properties of the built-ins and of the orchestrator.
    - [FuncProps], [MoreBuiltinsSpec], [MainWinProps], [MainWinMoreSpec] :
                    further properties of the code, read off the source. *)

From Stdlib Require Import ZArith List Bool Lia String Ascii Floats Sorted.
Import ListNotations.
Local Open Scope Z_scope.

(* ================================================================== *)
(** * Doubles *)
(* ================================================================== *)

Module Double.

(** C++ [double] is IEEE-754 binary64, which is what the kernel's primitive
    [float] implements; [<], [<=], [==] are [ltb], [leb], [eqb]. *)
Definition double := float.

Definition lt (x y : double) : bool := (x <? y)%float.
Definition le (x y : double) : bool := (x <=? y)%float.
Definition gt (x y : double) : bool := lt y x.
Definition ge (x y : double) : bool := le y x.
Definition eq (x y : double) : bool := (x =? y)%float.

(** [std::isnan], [std::isinf], [std::isfinite]. *)
Definition isnan (x : double) : bool := is_nan x.
Definition isinf (x : double) : bool := is_infinity x.
Definition isfinite (x : double) : bool := is_finite x.

(** [std::numeric_limits<double>::max()]. *)
Definition DBL_MAX : double := 0x1.fffffffffffffp+1023%float.

(** [double(j)] for an index [j] (exact below 2^53). *)
Definition of_nat (n : nat) : double := of_uint63 (Uint63.of_Z (Z.of_nat n)).

(** Truncation toward zero of a double, as the integer conversions of C++
    do on the values they are defined on. *)
Definition trunc (x : double) : Z :=
  match Prim2SF x with
  | S754_finite s m e =>
      let v := Z.shiftl (Zpos m) e in if s then - v else v
  | _ => 0
  end.

End Double.

(* ================================================================== *)
(** * UTF-8 helpers (glib) *)
(* ================================================================== *)

Module Utf8.

(** [func.cc] reads strings through glib ([g_utf8_strlen],
    [g_utf8_offset_to_pointer], [g_utf8_get_char], [g_utf8_strncpy]).  glib is
    an external library; the definitions below follow its reference
    implementation.  A C string is a sequence of bytes; a [const gchar *]
    into it is the suffix it points at. *)

Definition byte_of (c : ascii) : Z := Z.of_N (N_of_ascii c).

(** The byte a pointer points at (the terminating NUL at the end). *)
Definition deref (p : string) : Z :=
  match p with
  | EmptyString => 0
  | String c _ => byte_of c
  end.

Definition advance (p : string) : string :=
  match p with
  | EmptyString => EmptyString
  | String _ q => q
  end.

Fixpoint drop (n : nat) (p : string) : string :=
  match n with
  | O => p
  | S k => drop k (advance p)
  end.

(** glib's [g_utf8_skip] table, indexed by the first byte of a character. *)
Definition utf8_skip (b : Z) : nat :=
  if b <? 0xC0 then 1
  else if b <? 0xE0 then 2
  else if b <? 0xF0 then 3
  else if b <? 0xF8 then 4
  else if b <? 0xFC then 5
  else if b <? 0xFE then 6
  else 1.

Definition g_utf8_next_char (p : string) : string :=
  drop (utf8_skip (deref p)) p.

(** [g_utf8_offset_to_pointer (str, offset)] for a non-negative offset. *)
Fixpoint g_utf8_offset_to_pointer (str : string) (offset : nat) : string :=
  match offset with
  | O => str
  | S k => g_utf8_offset_to_pointer (g_utf8_next_char str) k
  end.

(** [g_utf8_strlen (p, max)] with [max] the byte length of the string, as
    [str_utf8_wrapper::get_utf8_strlen] calls it: characters are counted up
    to the first NUL byte, and a character cut off by the end of the string
    is not counted.  Every step consumes at least one byte, so the byte
    length is enough fuel. *)
Fixpoint utf8_strlen_from (fuel : nat) (p : string) : nat :=
  match fuel with
  | O => O
  | S f =>
      if deref p =? 0 then O
      else
        let k := utf8_skip (deref p) in
        if (k <=? String.length p)%nat
        then S (utf8_strlen_from f (drop k p))
        else O
  end.

Definition g_utf8_strlen (str : string) : nat :=
  utf8_strlen_from (String.length str) str.

(** glib's [UTF8_COMPUTE]: length and first-byte mask of a character. *)
Definition utf8_compute (c : Z) : option (nat * Z) :=
  if c <? 128 then Some (1%nat, 0x7f)
  else if Z.land c 0xe0 =? 0xc0 then Some (2%nat, 0x1f)
  else if Z.land c 0xf0 =? 0xe0 then Some (3%nat, 0x0f)
  else if Z.land c 0xf8 =? 0xf0 then Some (4%nat, 0x07)
  else if Z.land c 0xfc =? 0xf8 then Some (5%nat, 0x03)
  else if Z.land c 0xfe =? 0xfc then Some (6%nat, 0x01)
  else None.

(** [(gunichar) -1]. *)
Definition bad_unichar : Z := 0xFFFFFFFF.

(** glib's [UTF8_GET]: fold the continuation bytes into the result. *)
Fixpoint utf8_get (result : Z) (chars : string) (count : nat) : Z :=
  match count with
  | O => result
  | S k =>
      let b := deref chars in
      if Z.land b 0xc0 =? 0x80
      then utf8_get (Z.lor (Z.shiftl result 6) (Z.land b 0x3f)) (advance chars) k
      else bad_unichar
  end.

(** [g_utf8_get_char (p)]: the code point of the character at [p]. *)
Definition g_utf8_get_char (p : string) : Z :=
  let c := deref p in
  match utf8_compute c with
  | None => bad_unichar
  | Some (len, mask) => utf8_get (Z.land c mask) (advance p) (len - 1)
  end.

(** [g_utf8_strncpy (dest, src, 1)]: the bytes of the first character. *)
Definition g_utf8_first_char (p : string) : string :=
  if deref p =? 0 then EmptyString
  else String.substring 0 (utf8_skip (deref p)) p.

(** The code points of a string, by character offset. *)
Definition char_at (str : string) (i : nat) : Z :=
  g_utf8_get_char (g_utf8_offset_to_pointer str i).

Definition codepoints (str : string) : list Z :=
  map (char_at str) (seq 0 (g_utf8_strlen str)).

(** Byte strings for text outside ASCII. *)
Fixpoint of_bytes (l : list Z) : string :=
  match l with
  | [] => EmptyString
  | b :: l' => String (ascii_of_N (Z.to_N b)) (of_bytes l')
  end.

(** U+041B CYRILLIC CAPITAL LETTER EL and U+1F0A1 PLAYING CARD ACE OF SPADES,
    the characters of the examples in [func.cc]. *)
Definition cyr_el : string := of_bytes [0xD0; 0x9B].
Definition ace_of_spades : string := of_bytes [0xF0; 0x9F; 0x82; 0xA1].

End Utf8.

(* ================================================================== *)
(** * Built-in functions ([func.cc]) *)
(* ================================================================== *)

Module Func.

Import Double Utf8.

(** ** Values and diagnostics *)

(** [Value]: the variant of [Value::ValueType] the built-ins below
    inspect. *)
#[local] Set Warnings "-register-all".
Inductive Value : Type :=
  | UNDEFINED
  | BOOL (b : bool)
  | NUMBER (d : double)
  | STRING (s : string)
  | VECTOR (l : list Value).

(** [Value::toVectorPtr]: the elements of a vector, and the empty vector for
    any other type. *)
Definition toVectorPtr (v : Value) : list Value :=
  match v with
  | VECTOR l => l
  | _ => []
  end.

(** [v.type() == Value::ValueType::...]. *)
Definition is_number (v : Value) : bool :=
  match v with NUMBER _ => true | _ => false end.
Definition is_vector (v : Value) : bool :=
  match v with VECTOR _ => true | _ => false end.

(** [Value::toDouble]: the number, and 0 for any other type. *)
Definition toDouble (v : Value) : double :=
  match v with
  | NUMBER d => d
  | _ => 0%float
  end.

(** [Value::getDouble]. *)
Definition getDouble (v : Value) : option double :=
  match v with
  | NUMBER d => Some d
  | _ => None
  end.

(** Modelled from the spec: [Value::getVec2] ([value.cc] is not among the
    sources).  The table of [lookup] is "a table of (key,value) pairs": a
    vector of exactly two numbers yields its two doubles, anything else is
    refused. *)
Definition getVec2 (v : Value) : option (double * double) :=
  match v with
  | VECTOR [NUMBER x; NUMBER y] => Some (x, y)
  | _ => None
  end.

(** The messages [func.cc] sends to the diagnostics sink through [PRINT] and
    [PRINTB]; the source location every message ends with is left out. *)
Inductive Diagnostic : Type :=
  | argCnt_warning (name : string)      (* "WARNING: %s() number of parameters does not match" *)
  | argConvert_warning (name : string)  (* "WARNING: %s() parameter could not be converted" *)
  | rands_min_warning                   (* "WARNING: rands() range min cannot be infinite" *)
  | rands_max_warning                   (* "WARNING: rands() range max cannot be infinite" *)
  | rands_reset_warning (d : double)    (* "WARNING: resetting to %f" *)
  | rands_count_warning                 (* "WARNING: rands() cannot create an infinite number of results" *)
  | rands_count_reset_warning           (* "WARNING: resetting number of results to 1" *)
  | lookup_warning (v : Value)          (* "WARNING: lookup(%s, ...) first argument is not a number" *)
  | search_entry_warning (j : nat) (required : Z) (entry : Value)
                                        (* "WARNING: Invalid entry in search vector at index %d, ..." *)
  | search_notfound_warning (term : string).
                                        (* "  WARNING: search term not found: \"%s\"" *)

(** Modelled from the spec: [PRINT]/[PRINTB] ([printutils] is not among the
    sources).  "A single global sink receiving leveled text messages; the
    pipeline writes to this sink but does not read from it": a built-in
    returns its value together with the messages it wrote, in order. *)
Definition Result : Type := (Value * list Diagnostic)%type.

(** [evalctx->numArgs()] and [evalctx->getArgValue(i)] over the evaluated
    call arguments. *)
Definition numArgs (args : list Value) : Z := Z.of_nat (List.length args).
Definition getArgValue (args : list Value) (i : nat) : Value := nth i args UNDEFINED.

(** [boost_numeric_cast<size_t,double>] ([boost-utils.h] is not among the
    sources): the range-checked truncating conversion of boost. *)
Definition boost_numeric_cast (d : double) : nat :=
  let t := trunc d in
  if (0 <=? t) && (t <? 2 ^ 64) then Z.to_nat t else O.

(** [unsigned int] arithmetic. *)
Definition uint (z : Z) : Z := z mod 2 ^ 32.

(** What [func.cc] uses and this repository's sources do not contain. *)
Class Externals : Type := {
  (** [Value::operator==] and [Value::operator<] ([value.cc]). *)
  value_eq : Value -> Value -> bool;
  value_lt : Value -> Value -> bool;
  (** [Value::toString] on values that are not strings ([value.cc]). *)
  toString_other : Value -> string;
  (** [boost::mt19937], its [seed], and one draw of
      [boost::uniform_real<> (min, max)] from a generator. *)
  mt19937 : Type;
  mt19937_seed : Z -> mt19937;
  uniform_real : double -> double -> mt19937 -> double * mt19937;
  (** [hash_floating_point] ([linalg.cc]). *)
  hash_floating_point : double -> Z;
  (** [(unsigned int) d] of a [d] for which C++ leaves the conversion
      undefined: what the build makes of it. *)
  undefined_unsigned_int : double -> Z
}.

Section Builtins.

Context {ext : Externals}.

(** [(unsigned int) d]: the conversion truncates toward zero.  It is
    defined when [d] is finite and its truncation is in the range of
    [unsigned int]; otherwise C++ leaves it undefined, and the result is the
    [unsigned int] the build makes of it. *)
Definition to_unsigned_int (d : double) : Z :=
  let t := trunc d in
  if isfinite d && (0 <=? t) && (t <? 2 ^ 32) then t
  else uint (undefined_unsigned_int d).

Definition toString (v : Value) : string :=
  match v with
  | STRING s => s
  | _ => toString_other v
  end.

(** ** [rands] *)


(** Lines 119-123: an infinite or NaN [min] is reset. *)
Definition rands_min (min : double) : double * list Diagnostic :=
  if isinf min || isnan min then
    let min' := (- DBL_MAX / 2)%float in
    (min', [rands_min_warning; rands_reset_warning min'])
  else (min, []).

(** Lines 127-131: an infinite or NaN [max] is reset. *)
Definition rands_max (max : double) : double * list Diagnostic :=
  if isinf max || isnan max then
    let max' := (DBL_MAX / 2)%float in
    (max', [rands_max_warning; rands_reset_warning max'])
  else (max, []).


(** Lines 137-143: the number of results. *)
Definition rands_numresults (v2 : double) : nat * list Diagnostic :=
  let numresultsd := abs v2 in
  if isinf numresultsd || isnan numresultsd then
    (boost_numeric_cast 1%float, [rands_count_warning; rands_count_reset_warning])
  else (boost_numeric_cast numresultsd, []).



(** ** [min] and [max] *)

(** [std::min_element] / [std::max_element] over a non-empty range, from its
    first element: the first smallest (largest) element under [operator<]. *)
Fixpoint min_element (smallest : Value) (rest : list Value) : Value :=
  match rest with
  | [] => smallest
  | x :: rest' => min_element (if value_lt x smallest then x else smallest) rest'
  end.

Fixpoint max_element (largest : Value) (rest : list Value) : Value :=
  match rest with
  | [] => largest
  | x :: rest' => max_element (if value_lt largest x then x else largest) rest'
  end.

(** Lines 189-196: the loop over the arguments after the first; [None] is
    [goto quit]. *)
Fixpoint min_loop (val : double) (rest : list Value) : option double :=
  match rest with
  | [] => Some val
  | NUMBER x :: rest' => min_loop (if lt x val then x else val) rest'
  | _ :: _ => None
  end.

Fixpoint max_loop (val : double) (rest : list Value) : option double :=
  match rest with
  | [] => Some val
  | NUMBER x :: rest' => max_loop (if gt x val then x else val) rest'
  | _ :: _ => None
  end.

Definition builtin_min (args : list Value) : Result :=
  let n := numArgs args in
  if 1 <=? n then
    let v0 := getArgValue args 0 in
    match (if (n =? 1) && is_vector v0 then toVectorPtr v0 else []) with
    | x :: vec => (min_element x vec, [])
    | [] =>
      match v0 with
      | NUMBER val =>
          match min_loop val (tl args) with
          | Some val' => (NUMBER val', [])
          | None => (UNDEFINED, [argConvert_warning "min"])   (* goto quit *)
          end
      | _ => (UNDEFINED, [argConvert_warning "min"])          (* quit: *)
      end
    end
  else (UNDEFINED, [argCnt_warning "min"]).

Definition builtin_max (args : list Value) : Result :=
  let n := numArgs args in
  if 1 <=? n then
    let v0 := getArgValue args 0 in
    match (if (n =? 1) && is_vector v0 then toVectorPtr v0 else []) with
    | x :: vec => (max_element x vec, [])
    | [] =>
      match v0 with
      | NUMBER val =>
          match max_loop val (tl args) with
          | Some val' => (NUMBER val', [])
          | None => (UNDEFINED, [argConvert_warning "max"])   (* goto quit *)
          end
      | _ => (UNDEFINED, [argConvert_warning "max"])          (* quit: *)
      end
    end
  else (UNDEFINED, [argCnt_warning "max"]).

(** ** [lookup] *)

(** Lines 581-593: the scan over the entries after the first. *)
Fixpoint lookup_scan (p : double) (rest : list Value)
    (low_p low_v high_p high_v : double) : double * double * double * double :=
  match rest with
  | [] => (low_p, low_v, high_p, high_v)
  | e :: rest' =>
      match getVec2 e with
      | Some (this_p, this_v) =>
          let '(low_p, low_v) :=
            if le this_p p && (gt this_p low_p || gt low_p p)
            then (this_p, this_v) else (low_p, low_v) in
          let '(high_p, high_v) :=
            if ge this_p p && (lt this_p high_p || lt high_p p)
            then (this_p, this_v) else (high_p, high_v) in
          lookup_scan p rest' low_p low_v high_p high_v
      | None => lookup_scan p rest' low_p low_v high_p high_v
      end
  end.

(** Lines 598-599. *)
Definition lookup_interpolate (p low_p low_v high_p high_v : double) : double :=
  let f := ((p - low_p) / (high_p - low_p))%float in
  (high_v * f + low_v * (1 - f))%float.

Definition builtin_lookup (args : list Value) : Result :=
  if negb (numArgs args =? 2) then (UNDEFINED, [argCnt_warning "lookup"])
  else
    match getDouble (getArgValue args 0) with
    | None => (UNDEFINED, [lookup_warning (getArgValue args 0)])
    | Some p =>
      if negb (isfinite p) then (UNDEFINED, [lookup_warning (getArgValue args 0)])
      else
        match toVectorPtr (getArgValue args 1) with
        | [] => (UNDEFINED, [])                      (* Second must be a vector *)
        | vec0 :: rest =>
          if (List.length (toVectorPtr vec0) <? 2)%nat then (UNDEFINED, [])
          else
            match getVec2 vec0 with
            | None => (UNDEFINED, [])
            | Some (p0, v0) =>
                let '(low_p, low_v, high_p, high_v) := lookup_scan p rest p0 v0 p0 v0 in
                if le p low_p then (NUMBER high_v, [])
                else if ge p high_p then (NUMBER low_v, [])
                else (NUMBER (lookup_interpolate p low_p low_v high_p high_v), [])
            end
        end
    end.

(** ** [search] *)

(** The state of one pass of an inner loop: [matchCount], [resultvec] and
    [returnvec]. *)
Definition Scan : Type := (Z * list Value * list Value)%type.

(** Lines 664-678: the inner loop of the string/string overload, over the
    character offsets [js] of the table.  [ptr_ft] and [ptr_st] come from
    [g_utf8_offset_to_pointer], which never returns a null pointer. *)
Fixpoint search_str_scan (ptr_ft : string) (table : string)
    (num_returns_per_match : Z) (js : list nat)
    (matchCount : Z) (resultvec returnvec : list Value) : Scan :=
  match js with
  | [] => (matchCount, resultvec, returnvec)
  | j :: js' =>
      let ptr_st := g_utf8_offset_to_pointer table j in
      if g_utf8_get_char ptr_ft =? g_utf8_get_char ptr_st then
        let matchCount := uint (matchCount + 1) in
        if num_returns_per_match =? 1 then
          (matchCount, resultvec, returnvec ++ [NUMBER (of_nat j)])       (* break *)
        else
          let resultvec := resultvec ++ [NUMBER (of_nat j)] in
          if (1 <? num_returns_per_match) && (num_returns_per_match <=? matchCount)
          then (matchCount, resultvec, returnvec)                        (* break *)
          else search_str_scan ptr_ft table num_returns_per_match js'
                 matchCount resultvec returnvec
      else search_str_scan ptr_ft table num_returns_per_match js'
             matchCount resultvec returnvec
  end.

(** Lines 660-686: the outer loop, over the character offsets [offs] of [find].
    On [matchCount == 0] this overload only copies the character into a local
    buffer. *)
Fixpoint search_str_loop (find table : string) (num_returns_per_match : Z)
    (offs : list nat) (returnvec : list Value) : list Value :=
  match offs with
  | [] => returnvec
  | i :: offs' =>
      let ptr_ft := g_utf8_offset_to_pointer find i in
      let '(matchCount, resultvec, returnvec) :=
        search_str_scan ptr_ft table num_returns_per_match
          (seq 0 (g_utf8_strlen table)) 0 [] returnvec in
      let returnvec :=
        if (num_returns_per_match =? 0) || (1 <? num_returns_per_match)
        then returnvec ++ [VECTOR resultvec] else returnvec in
      search_str_loop find table num_returns_per_match offs' returnvec
  end.

(** [search (find, table, num_returns_per_match, loc, ctx)], string table. *)
Definition search_str (find table : string) (num_returns_per_match : Z)
    : list Value :=
  search_str_loop find table num_returns_per_match
    (seq 0 (g_utf8_strlen find)) [].

(** Lines 701-720: the inner loop of the string/rows overload over the rows
    from index [j]; [inr] is the early [return Value::VectorPtr()] on an
    entry with too few columns. *)
Fixpoint search_rows_scan (ptr_ft : string) (rows : list Value)
    (num_returns_per_match index_col_num : Z) (j : nat)
    (matchCount : Z) (resultvec returnvec : list Value)
    : Scan + Diagnostic :=
  match rows with
  | [] => inl (matchCount, resultvec, returnvec)
  | row :: rows' =>
      let entryVec := toVectorPtr row in
      if Z.of_nat (List.length entryVec) <=? index_col_num then
        inr (search_entry_warning j (index_col_num + 1) row)
      else
        let ptr_st :=
          g_utf8_offset_to_pointer
            (toString (nth (Z.to_nat index_col_num) entryVec UNDEFINED)) 0 in
        if g_utf8_get_char ptr_ft =? g_utf8_get_char ptr_st then
          let matchCount := uint (matchCount + 1) in
          if num_returns_per_match =? 1 then
            inl (matchCount, resultvec, returnvec ++ [NUMBER (of_nat j)])  (* break *)
          else
            let resultvec := resultvec ++ [NUMBER (of_nat j)] in
            if (1 <? num_returns_per_match) && (num_returns_per_match <=? matchCount)
            then inl (matchCount, resultvec, returnvec)                   (* break *)
            else search_rows_scan ptr_ft rows' num_returns_per_match index_col_num
                   (S j) matchCount resultvec returnvec
        else search_rows_scan ptr_ft rows' num_returns_per_match index_col_num
               (S j) matchCount resultvec returnvec
  end.

(** Lines 697-729: the outer loop, with the messages written so far. *)
Fixpoint search_rows_loop (find : string) (table : list Value)
    (num_returns_per_match index_col_num : Z) (offs : list nat)
    (returnvec : list Value) (log : list Diagnostic)
    : list Value * list Diagnostic :=
  match offs with
  | [] => (returnvec, log)
  | i :: offs' =>
      let ptr_ft := g_utf8_offset_to_pointer find i in
      match search_rows_scan ptr_ft table num_returns_per_match index_col_num
              O 0 [] returnvec with
      | inr w => ([], log ++ [w])
      | inl (matchCount, resultvec, returnvec) =>
          let log :=
            if matchCount =? 0
            then log ++ [search_notfound_warning (g_utf8_first_char ptr_ft)]
            else log in
          let returnvec :=
            if (num_returns_per_match =? 0) || (1 <? num_returns_per_match)
            then returnvec ++ [VECTOR resultvec] else returnvec in
          search_rows_loop find table num_returns_per_match index_col_num offs'
            returnvec log
      end
  end.

(** [search (find, table, num_returns_per_match, index_col_num, loc, ctx)],
    table of rows. *)
Definition search_rows (find : string) (table : list Value)
    (num_returns_per_match index_col_num : Z) : list Value * list Diagnostic :=
  search_rows_loop find table num_returns_per_match index_col_num
    (seq 0 (g_utf8_strlen find)) [] [].

(** Lines 752-754 and 779-781: whether a table element matches. *)
Definition search_matches (find_value search_element : Value)
    (index_col_num : Z) : bool :=
  ((index_col_num =? 0) && value_eq find_value search_element)
  || ((index_col_num <? Z.of_nat (List.length (toVectorPtr search_element)))
      && value_eq find_value
           (nth (Z.to_nat index_col_num) (toVectorPtr search_element) UNDEFINED)).

(** Lines 748-759: a number is searched for; one flat vector of indices. *)
Fixpoint search_number_scan (findThis : Value) (rest : list Value)
    (num_returns_per_match index_col_num : Z) (j : nat)
    (matchCount : Z) (returnvec : list Value) : list Value :=
  match rest with
  | [] => returnvec
  | search_element :: rest' =>
      if search_matches findThis search_element index_col_num then
        let returnvec := returnvec ++ [NUMBER (of_nat j)] in
        let matchCount := uint (matchCount + 1) in
        if negb (num_returns_per_match =? 0) && (num_returns_per_match <=? matchCount)
        then returnvec                                                   (* break *)
        else search_number_scan findThis rest' num_returns_per_match index_col_num
               (S j) matchCount returnvec
      else search_number_scan findThis rest' num_returns_per_match index_col_num
             (S j) matchCount returnvec
  end.

(** Lines 775-791: the inner loop when a vector of values is searched for. *)
Fixpoint search_vec_scan (find_value : Value) (rest : list Value)
    (num_returns_per_match index_col_num : Z) (j : nat)
    (matchCount : Z) (resultvec returnvec : list Value) : Scan :=
  match rest with
  | [] => (matchCount, resultvec, returnvec)
  | search_element :: rest' =>
      if search_matches find_value search_element index_col_num then
        let matchCount := uint (matchCount + 1) in
        if num_returns_per_match =? 1 then
          (matchCount, resultvec, returnvec ++ [NUMBER (of_nat j)])       (* break *)
        else
          let resultvec := resultvec ++ [NUMBER (of_nat j)] in
          if (1 <? num_returns_per_match) && (num_returns_per_match <=? matchCount)
          then (matchCount, resultvec, returnvec)                        (* break *)
          else search_vec_scan find_value rest' num_returns_per_match index_col_num
                 (S j) matchCount resultvec returnvec
      else search_vec_scan find_value rest' num_returns_per_match index_col_num
             (S j) matchCount resultvec returnvec
  end.

(** Lines 769-798: the outer loop over the values searched for. *)
Fixpoint search_vec_loop (findVec : list Value) (localTable : list Value)
    (num_returns_per_match index_col_num : Z) (returnvec : list Value)
    : list Value :=
  match findVec with
  | [] => returnvec
  | find_value :: findVec' =>
      let '(matchCount, resultvec, returnvec) :=
        search_vec_scan find_value localTable num_returns_per_match index_col_num
          O 0 [] returnvec in
      let returnvec :=
        if (num_returns_per_match =? 1) && (matchCount =? 0)
        then returnvec ++ [VECTOR resultvec] else returnvec in
      let returnvec :=
        if (num_returns_per_match =? 0) || (1 <? num_returns_per_match)
        then returnvec ++ [VECTOR resultvec] else returnvec in
      search_vec_loop findVec' localTable num_returns_per_match index_col_num
        returnvec
  end.

Definition builtin_search (args : list Value) : Result :=
  if numArgs args <? 2 then (UNDEFINED, [argCnt_warning "search"])
  else
    let findThis := getArgValue args 0 in
    let searchTable := getArgValue args 1 in
    let num_returns_per_match :=
      if 2 <? numArgs args
      then to_unsigned_int (toDouble (getArgValue args 2)) else 1 in
    let index_col_num :=
      if 3 <? numArgs args
      then to_unsigned_int (toDouble (getArgValue args 3)) else 0 in
    match findThis with
    | NUMBER _ =>
        (VECTOR (search_number_scan findThis (toVectorPtr searchTable)
                   num_returns_per_match index_col_num O 0 []), [])
    | STRING find =>
        match searchTable with
        | STRING table => (VECTOR (search_str find table num_returns_per_match), [])
        | _ =>
            let '(returnvec, log) :=
              search_rows find (toVectorPtr searchTable)
                num_returns_per_match index_col_num in
            (VECTOR returnvec, log)
        end
    | VECTOR findVec =>
        (VECTOR (search_vec_loop findVec (toVectorPtr searchTable)
                   num_returns_per_match index_col_num []), [])
    | _ => (UNDEFINED, [])
    end.

End Builtins.

End Func.

(* ================================================================== *)
(** * The other built-in functions of [func.cc] *)
(* ================================================================== *)

Module MoreBuiltins.

Import Double Utf8 Func.

(** The functions of [<cmath>] and of [degree_trig.h] that [func.cc] calls
    and the kernel's floats do not provide, and [Value::chrString]
    ([value.cc]).  [std::fabs] and [sqrt] are the kernel's [abs] and [sqrt]:
    both are exact operations of IEEE-754. *)
Class LibM : Type := {
  sin_degrees : double -> double;
  cos_degrees : double -> double;
  tan_degrees : double -> double;
  asin_degrees : double -> double;
  acos_degrees : double -> double;
  atan_degrees : double -> double;
  atan2_degrees : double -> double -> double;
  pow : double -> double -> double;
  round : double -> double;
  ceil : double -> double;
  floor : double -> double;
  exp : double -> double;
  log : double -> double;
  chrString : Value -> string
}.

(** [int (size)] of a [size_t], and [double (i)] of an [int]. *)
Definition int_of_size (n : nat) : Z :=
  let z := Z.of_nat n mod 2 ^ 32 in
  if z <? 2 ^ 31 then z else z - 2 ^ 32.

Definition double_of_int (z : Z) : double :=
  if z <? 0 then (- of_uint63 (Uint63.of_Z (- z)))%float
  else of_uint63 (Uint63.of_Z z).

(** [(int) d] of a double: defined when the truncated value fits an [int]. *)
Definition int_of_double (d : double) : option Z :=
  if isfinite d && (- 2 ^ 31 <=? trunc d) && (trunc d <? 2 ^ 31)
  then Some (trunc d) else None.

(** The messages of the built-ins below that are not the two of
    [print_argCnt_warning] and [print_argConvert_warning]; the source
    location every message ends with is left out. *)
Inductive Message : Type :=
  | diagnostic (d : Diagnostic)
  | norm_arguments_warning        (* "WARNING: Incorrect arguments to norm()" *)
  | cross_count_warning           (* "WARNING: Invalid number of parameters for cross()" *)
  | cross_type_warning            (* "WARNING: Invalid type of parameters for cross()" *)
  | cross_size_warning            (* "WARNING: Invalid vector size of parameter for cross()" *)
  | cross_value_warning           (* "WARNING: Invalid value in parameter vector for cross()" *)
  | cross_nan_warning             (* "WARNING: Invalid value (NaN) in parameter vector for cross()" *)
  | cross_inf_warning             (* "WARNING: Invalid value (INF) in parameter vector for cross()" *)
  | parent_module_negative_warning (n : Z)
                                  (* "WARNING: Negative parent module index (%d) not allowed" *)
  | parent_module_stack_warning (n : Z).
                                  (* "WARNING: Parent module index (%d) greater than the number
                                     of modules on the stack" *)

Section Builtins.

Context {ext : Externals} {libm : LibM}.

(** ** Functions of one or two numbers *)

Definition builtin_abs (args : list Value) : Result :=
  if numArgs args =? 1 then
    match getArgValue args 0 with
    | NUMBER d => (NUMBER (abs d), [])
    | _ => (UNDEFINED, [argConvert_warning "abs"])
    end
  else (UNDEFINED, [argCnt_warning "abs"]).

Definition builtin_sign (args : list Value) : Result :=
  if numArgs args =? 1 then
    match getArgValue args 0 with
    | NUMBER x =>
        (NUMBER (if lt x 0%float then (-1)%float
                 else if gt x 0%float then 1%float else 0%float), [])
    | _ => (UNDEFINED, [argConvert_warning "sign"])
    end
  else (UNDEFINED, [argCnt_warning "sign"]).






Definition builtin_log (args : list Value) : Result :=
  let n := numArgs args in
  if (n =? 1) || (n =? 2) then
    match getArgValue args 0 with
    | NUMBER v0 =>
        if 1 <? n then
          match getArgValue args 1 with
          | NUMBER v1 => (NUMBER (log v1 / log v0)%float, [])   (* x = y; y = v1 *)
          | _ => (UNDEFINED, [argConvert_warning "log"])         (* goto quit *)
          end
        else (NUMBER (log v0 / log 10%float)%float, [])
    | _ => (UNDEFINED, [argConvert_warning "log"])               (* quit: *)
    end
  else (UNDEFINED, [argCnt_warning "log"]).

(** ** [len], [str], [chr], [concat] *)

Definition builtin_length (args : list Value) : Result :=
  if numArgs args =? 1 then
    match getArgValue args 0 with
    | VECTOR l => (NUMBER (double_of_int (int_of_size (List.length l))), [])
    | STRING s => (NUMBER (of_nat (g_utf8_strlen s)), [])
    | _ => (UNDEFINED, [argConvert_warning "len"])
    end
  else (UNDEFINED, [argCnt_warning "len"]).

(** The loop of [builtin_str]: [stream << ...toString ()]. *)
Fixpoint str_stream (args : list Value) (stream : string) : string :=
  match args with
  | [] => stream
  | v :: args' => str_stream args' (stream ++ toString v)
  end.

Definition builtin_str (args : list Value) : Result :=
  (STRING (str_stream args EmptyString), []).

Fixpoint chr_stream (args : list Value) (stream : string) : string :=
  match args with
  | [] => stream
  | v :: args' => chr_stream args' (stream ++ chrString v)
  end.

Definition builtin_chr (args : list Value) : Result :=
  (STRING (chr_stream args EmptyString), []).

(** The loop of [builtin_concat]: the elements of a vector are appended one
    by one, any other value as it is. *)
Fixpoint concat_loop (args : list Value) (result : list Value) : list Value :=
  match args with
  | [] => result
  | VECTOR l :: args' => concat_loop args' (result ++ l)
  | val :: args' => concat_loop args' (result ++ [val])
  end.

Definition builtin_concat (args : list Value) : Result :=
  (VECTOR (concat_loop args []), []).

(** ** [norm] and [cross] *)





(** ** [parent_module] *)


(** ** The type tests *)

Definition builtin_is_list (args : list Value) : Result :=
  if numArgs args =? 1 then
    match getArgValue args 0 with
    | VECTOR _ => (BOOL true, [])
    | _ => (BOOL false, [])
    end
  else (UNDEFINED, [argCnt_warning "is_list"]).

Definition builtin_is_num (args : list Value) : Result :=
  if numArgs args =? 1 then
    match getArgValue args 0 with
    | NUMBER d => (BOOL (negb (isnan d)), [])
    | _ => (BOOL false, [])
    end
  else (UNDEFINED, [argCnt_warning "is_num"]).

Definition builtin_is_bool (args : list Value) : Result :=
  if numArgs args =? 1 then
    match getArgValue args 0 with
    | BOOL _ => (BOOL true, [])
    | _ => (BOOL false, [])
    end
  else (UNDEFINED, [argCnt_warning "is_bool"]).

Definition builtin_is_string (args : list Value) : Result :=
  if numArgs args =? 1 then
    match getArgValue args 0 with
    | STRING _ => (BOOL true, [])
    | _ => (BOOL false, [])
    end
  else (UNDEFINED, [argCnt_warning "is_string"]).

End Builtins.

End MoreBuiltins.

(* ================================================================== *)
(** * The compile orchestrator ([mainwin.cc]) *)
(* ================================================================== *)

Module MainWin.

Import Double.

(** ** Collaborators *)

(** The node, term and product types and the operations on them that
    [mainwin.cc] calls and this repository's sources do not contain. *)
Class Collaborators : Type := {
  AbstractNode : Type;
  CSGNode : Type;
  CSGProducts : Type;
  (** [new CSGProducts ()], [CSGProducts::import], [CSGProducts::size]. *)
  new_CSGProducts : CSGProducts;
  CSGProducts_import : CSGProducts -> option CSGNode -> CSGProducts;
  CSGProducts_size : CSGProducts -> Z;
  (** [CSGTreeNormalizer (limit).normalize (term)]; [None] is the null
      pointer. *)
  CSGTreeNormalizer_normalize : Z -> CSGNode -> option CSGNode
}.

Inductive Exception : Type :=
  | ProgressCancelException
  | HardWarningException.

(** The values of [afterCompileSlot]. *)
Inductive Slot : Type :=
  | slot_compileEnded
  | slot_csgRender
  | slot_csgReloadRender
  | slot_cgalRender.

(** What [PRINT] and [PRINTB] are called with. *)
Inductive Message : Type :=
  | text (s : string)
  | used_file_cache_size (n : Z)       (* "Used file cache size: %d files" *)
  | GeometryCache_print                (* [GeometryCache::instance ()->print ()] *)
  | CGALCache_print                    (* [CGALCache::instance ()->print ()] *)
  | compiling_highlights (n : Z)       (* "Compiling highlights (%d CSG Trees)..." *)
  | compiling_background (n : Z)       (* "Compiling background (%d CSG Trees)..." *)
  | normalized_tree_warning (n : Z)    (* "UI-WARNING: Normalized tree has %d elements!" *)
  | normalized_tree_elements (n : Z)   (* "Normalized CSG tree has %d elements" *)
  | total_rendering_time (s : Z).      (* "Total rendering time: ..." *)

Record ProgressWidget : Type := {
  value : Z;
  wasCanceled : bool
}.

Section Window.

Context {collab : Collaborators}.

(** What [OpenCSGRenderer] and [ThrownTogetherRenderer] are built from. *)
Record Renderer : Type := {
  renderer_root_products : option CSGProducts;
  renderer_highlights_products : option CSGProducts;
  renderer_background_products : option CSGProducts
}.

(** ** The window *)

(** The members of [MainWindow] (and the globals of [mainwin.cc]) that the
    compile cycle reads and writes. *)
Record MainWindow : Type := {
  gui_locked : Z;   (* [GuiLocker::gui_locked] *)
  preview_requested : bool;   (* the [static bool] of [actionRenderPreview] *)
  autoReloadTimer : bool;   (* whether the timer is running *)
  waitAfterReloadTimer : bool;   (* whether the single-shot timer is armed *)
  (* pending [QTimer::singleShot (0, this, SLOT (actionRenderPreview ()))] *)
  singleShot_actionRenderPreview : nat;
  afterCompileSlot : Slot;
  procevents : bool;
  preview : option bool;   (* [$preview] in [top_ctx] *)
  output_handler : bool;   (* [setCurrentOutput] / [clearCurrentOutput] *)
  console : list Message;   (* what [PRINT] has written to the sink *)
  hardwarnings : bool;   (* [OpenSCAD::hardwarnings] *)
  parsed_module : bool;   (* non-null *)
  root_module : bool;   (* non-null *)
  includes_mtime : Z;
  deps_mtime : Z;
  parser_error_pos : Z;
  last_parser_error_pos : Z;
  last_compiled_doc_size : Z;
  absolute_root_node : option AbstractNode;
  root_node : option AbstractNode;
  csgRoot : option CSGNode;
  normalizedRoot : option CSGNode;
  root_products : option CSGProducts;
  highlights_products : option CSGProducts;
  background_products : option CSGProducts;
  opencsgRenderer : option Renderer;
  thrownTogetherRenderer : option Renderer;
  progresswidget : option ProgressWidget;
  (* the time [progressThrottle->start ()] was last called, in ms *)
  progressThrottle : Z;
  cgalworker_started : bool   (* [cgalworker->start (tree)] was called *)
}.

(** Field updates. *)
Definition set_gui_locked (v : Z) (w : MainWindow) : MainWindow :=
  let '(Build_MainWindow x0 x1 x2 x3 x4 x5 x6 x7 x8 x9 x10 x11 x12 x13 x14 x15
      x16 x17 x18 x19 x20 x21 x22 x23 x24 x25 x26 x27 x28 x29) := w in
  Build_MainWindow v x1 x2 x3 x4 x5 x6 x7 x8 x9 x10 x11 x12 x13 x14 x15 x16
    x17 x18 x19 x20 x21 x22 x23 x24 x25 x26 x27 x28 x29.

Definition set_preview_requested (v : bool) (w : MainWindow) : MainWindow :=
  let '(Build_MainWindow x0 x1 x2 x3 x4 x5 x6 x7 x8 x9 x10 x11 x12 x13 x14 x15
      x16 x17 x18 x19 x20 x21 x22 x23 x24 x25 x26 x27 x28 x29) := w in
  Build_MainWindow x0 v x2 x3 x4 x5 x6 x7 x8 x9 x10 x11 x12 x13 x14 x15 x16
    x17 x18 x19 x20 x21 x22 x23 x24 x25 x26 x27 x28 x29.

Definition set_autoReloadTimer (v : bool) (w : MainWindow) : MainWindow :=
  let '(Build_MainWindow x0 x1 x2 x3 x4 x5 x6 x7 x8 x9 x10 x11 x12 x13 x14 x15
      x16 x17 x18 x19 x20 x21 x22 x23 x24 x25 x26 x27 x28 x29) := w in
  Build_MainWindow x0 x1 v x3 x4 x5 x6 x7 x8 x9 x10 x11 x12 x13 x14 x15 x16
    x17 x18 x19 x20 x21 x22 x23 x24 x25 x26 x27 x28 x29.

Definition set_waitAfterReloadTimer (v : bool) (w : MainWindow) : MainWindow :=
  let '(Build_MainWindow x0 x1 x2 x3 x4 x5 x6 x7 x8 x9 x10 x11 x12 x13 x14 x15
      x16 x17 x18 x19 x20 x21 x22 x23 x24 x25 x26 x27 x28 x29) := w in
  Build_MainWindow x0 x1 x2 v x4 x5 x6 x7 x8 x9 x10 x11 x12 x13 x14 x15 x16
    x17 x18 x19 x20 x21 x22 x23 x24 x25 x26 x27 x28 x29.

Definition set_singleShot_actionRenderPreview (v : nat) (w : MainWindow) : MainWindow :=
  let '(Build_MainWindow x0 x1 x2 x3 x4 x5 x6 x7 x8 x9 x10 x11 x12 x13 x14 x15
      x16 x17 x18 x19 x20 x21 x22 x23 x24 x25 x26 x27 x28 x29) := w in
  Build_MainWindow x0 x1 x2 x3 v x5 x6 x7 x8 x9 x10 x11 x12 x13 x14 x15 x16
    x17 x18 x19 x20 x21 x22 x23 x24 x25 x26 x27 x28 x29.

Definition set_afterCompileSlot (v : Slot) (w : MainWindow) : MainWindow :=
  let '(Build_MainWindow x0 x1 x2 x3 x4 x5 x6 x7 x8 x9 x10 x11 x12 x13 x14 x15
      x16 x17 x18 x19 x20 x21 x22 x23 x24 x25 x26 x27 x28 x29) := w in
  Build_MainWindow x0 x1 x2 x3 x4 v x6 x7 x8 x9 x10 x11 x12 x13 x14 x15 x16
    x17 x18 x19 x20 x21 x22 x23 x24 x25 x26 x27 x28 x29.

Definition set_procevents (v : bool) (w : MainWindow) : MainWindow :=
  let '(Build_MainWindow x0 x1 x2 x3 x4 x5 x6 x7 x8 x9 x10 x11 x12 x13 x14 x15
      x16 x17 x18 x19 x20 x21 x22 x23 x24 x25 x26 x27 x28 x29) := w in
  Build_MainWindow x0 x1 x2 x3 x4 x5 v x7 x8 x9 x10 x11 x12 x13 x14 x15 x16
    x17 x18 x19 x20 x21 x22 x23 x24 x25 x26 x27 x28 x29.

Definition set_preview (v : option bool) (w : MainWindow) : MainWindow :=
  let '(Build_MainWindow x0 x1 x2 x3 x4 x5 x6 x7 x8 x9 x10 x11 x12 x13 x14 x15
      x16 x17 x18 x19 x20 x21 x22 x23 x24 x25 x26 x27 x28 x29) := w in
  Build_MainWindow x0 x1 x2 x3 x4 x5 x6 v x8 x9 x10 x11 x12 x13 x14 x15 x16
    x17 x18 x19 x20 x21 x22 x23 x24 x25 x26 x27 x28 x29.

Definition set_output_handler (v : bool) (w : MainWindow) : MainWindow :=
  let '(Build_MainWindow x0 x1 x2 x3 x4 x5 x6 x7 x8 x9 x10 x11 x12 x13 x14 x15
      x16 x17 x18 x19 x20 x21 x22 x23 x24 x25 x26 x27 x28 x29) := w in
  Build_MainWindow x0 x1 x2 x3 x4 x5 x6 x7 v x9 x10 x11 x12 x13 x14 x15 x16
    x17 x18 x19 x20 x21 x22 x23 x24 x25 x26 x27 x28 x29.

Definition set_console (v : list Message) (w : MainWindow) : MainWindow :=
  let '(Build_MainWindow x0 x1 x2 x3 x4 x5 x6 x7 x8 x9 x10 x11 x12 x13 x14 x15
      x16 x17 x18 x19 x20 x21 x22 x23 x24 x25 x26 x27 x28 x29) := w in
  Build_MainWindow x0 x1 x2 x3 x4 x5 x6 x7 x8 v x10 x11 x12 x13 x14 x15 x16
    x17 x18 x19 x20 x21 x22 x23 x24 x25 x26 x27 x28 x29.

Definition set_hardwarnings (v : bool) (w : MainWindow) : MainWindow :=
  let '(Build_MainWindow x0 x1 x2 x3 x4 x5 x6 x7 x8 x9 x10 x11 x12 x13 x14 x15
      x16 x17 x18 x19 x20 x21 x22 x23 x24 x25 x26 x27 x28 x29) := w in
  Build_MainWindow x0 x1 x2 x3 x4 x5 x6 x7 x8 x9 v x11 x12 x13 x14 x15 x16 x17
    x18 x19 x20 x21 x22 x23 x24 x25 x26 x27 x28 x29.

Definition set_parsed_module (v : bool) (w : MainWindow) : MainWindow :=
  let '(Build_MainWindow x0 x1 x2 x3 x4 x5 x6 x7 x8 x9 x10 x11 x12 x13 x14 x15
      x16 x17 x18 x19 x20 x21 x22 x23 x24 x25 x26 x27 x28 x29) := w in
  Build_MainWindow x0 x1 x2 x3 x4 x5 x6 x7 x8 x9 x10 v x12 x13 x14 x15 x16 x17
    x18 x19 x20 x21 x22 x23 x24 x25 x26 x27 x28 x29.

Definition set_root_module (v : bool) (w : MainWindow) : MainWindow :=
  let '(Build_MainWindow x0 x1 x2 x3 x4 x5 x6 x7 x8 x9 x10 x11 x12 x13 x14 x15
      x16 x17 x18 x19 x20 x21 x22 x23 x24 x25 x26 x27 x28 x29) := w in
  Build_MainWindow x0 x1 x2 x3 x4 x5 x6 x7 x8 x9 x10 x11 v x13 x14 x15 x16 x17
    x18 x19 x20 x21 x22 x23 x24 x25 x26 x27 x28 x29.

Definition set_includes_mtime (v : Z) (w : MainWindow) : MainWindow :=
  let '(Build_MainWindow x0 x1 x2 x3 x4 x5 x6 x7 x8 x9 x10 x11 x12 x13 x14 x15
      x16 x17 x18 x19 x20 x21 x22 x23 x24 x25 x26 x27 x28 x29) := w in
  Build_MainWindow x0 x1 x2 x3 x4 x5 x6 x7 x8 x9 x10 x11 x12 v x14 x15 x16 x17
    x18 x19 x20 x21 x22 x23 x24 x25 x26 x27 x28 x29.

Definition set_deps_mtime (v : Z) (w : MainWindow) : MainWindow :=
  let '(Build_MainWindow x0 x1 x2 x3 x4 x5 x6 x7 x8 x9 x10 x11 x12 x13 x14 x15
      x16 x17 x18 x19 x20 x21 x22 x23 x24 x25 x26 x27 x28 x29) := w in
  Build_MainWindow x0 x1 x2 x3 x4 x5 x6 x7 x8 x9 x10 x11 x12 x13 v x15 x16 x17
    x18 x19 x20 x21 x22 x23 x24 x25 x26 x27 x28 x29.

Definition set_parser_error_pos (v : Z) (w : MainWindow) : MainWindow :=
  let '(Build_MainWindow x0 x1 x2 x3 x4 x5 x6 x7 x8 x9 x10 x11 x12 x13 x14 x15
      x16 x17 x18 x19 x20 x21 x22 x23 x24 x25 x26 x27 x28 x29) := w in
  Build_MainWindow x0 x1 x2 x3 x4 x5 x6 x7 x8 x9 x10 x11 x12 x13 x14 v x16 x17
    x18 x19 x20 x21 x22 x23 x24 x25 x26 x27 x28 x29.

Definition set_last_parser_error_pos (v : Z) (w : MainWindow) : MainWindow :=
  let '(Build_MainWindow x0 x1 x2 x3 x4 x5 x6 x7 x8 x9 x10 x11 x12 x13 x14 x15
      x16 x17 x18 x19 x20 x21 x22 x23 x24 x25 x26 x27 x28 x29) := w in
  Build_MainWindow x0 x1 x2 x3 x4 x5 x6 x7 x8 x9 x10 x11 x12 x13 x14 x15 v x17
    x18 x19 x20 x21 x22 x23 x24 x25 x26 x27 x28 x29.

Definition set_last_compiled_doc_size (v : Z) (w : MainWindow) : MainWindow :=
  let '(Build_MainWindow x0 x1 x2 x3 x4 x5 x6 x7 x8 x9 x10 x11 x12 x13 x14 x15
      x16 x17 x18 x19 x20 x21 x22 x23 x24 x25 x26 x27 x28 x29) := w in
  Build_MainWindow x0 x1 x2 x3 x4 x5 x6 x7 x8 x9 x10 x11 x12 x13 x14 x15 x16 v
    x18 x19 x20 x21 x22 x23 x24 x25 x26 x27 x28 x29.

Definition set_absolute_root_node (v : option AbstractNode) (w : MainWindow) : MainWindow :=
  let '(Build_MainWindow x0 x1 x2 x3 x4 x5 x6 x7 x8 x9 x10 x11 x12 x13 x14 x15
      x16 x17 x18 x19 x20 x21 x22 x23 x24 x25 x26 x27 x28 x29) := w in
  Build_MainWindow x0 x1 x2 x3 x4 x5 x6 x7 x8 x9 x10 x11 x12 x13 x14 x15 x16
    x17 v x19 x20 x21 x22 x23 x24 x25 x26 x27 x28 x29.

Definition set_root_node (v : option AbstractNode) (w : MainWindow) : MainWindow :=
  let '(Build_MainWindow x0 x1 x2 x3 x4 x5 x6 x7 x8 x9 x10 x11 x12 x13 x14 x15
      x16 x17 x18 x19 x20 x21 x22 x23 x24 x25 x26 x27 x28 x29) := w in
  Build_MainWindow x0 x1 x2 x3 x4 x5 x6 x7 x8 x9 x10 x11 x12 x13 x14 x15 x16
    x17 x18 v x20 x21 x22 x23 x24 x25 x26 x27 x28 x29.

Definition set_csgRoot (v : option CSGNode) (w : MainWindow) : MainWindow :=
  let '(Build_MainWindow x0 x1 x2 x3 x4 x5 x6 x7 x8 x9 x10 x11 x12 x13 x14 x15
      x16 x17 x18 x19 x20 x21 x22 x23 x24 x25 x26 x27 x28 x29) := w in
  Build_MainWindow x0 x1 x2 x3 x4 x5 x6 x7 x8 x9 x10 x11 x12 x13 x14 x15 x16
    x17 x18 x19 v x21 x22 x23 x24 x25 x26 x27 x28 x29.

Definition set_normalizedRoot (v : option CSGNode) (w : MainWindow) : MainWindow :=
  let '(Build_MainWindow x0 x1 x2 x3 x4 x5 x6 x7 x8 x9 x10 x11 x12 x13 x14 x15
      x16 x17 x18 x19 x20 x21 x22 x23 x24 x25 x26 x27 x28 x29) := w in
  Build_MainWindow x0 x1 x2 x3 x4 x5 x6 x7 x8 x9 x10 x11 x12 x13 x14 x15 x16
    x17 x18 x19 x20 v x22 x23 x24 x25 x26 x27 x28 x29.

Definition set_root_products (v : option CSGProducts) (w : MainWindow) : MainWindow :=
  let '(Build_MainWindow x0 x1 x2 x3 x4 x5 x6 x7 x8 x9 x10 x11 x12 x13 x14 x15
      x16 x17 x18 x19 x20 x21 x22 x23 x24 x25 x26 x27 x28 x29) := w in
  Build_MainWindow x0 x1 x2 x3 x4 x5 x6 x7 x8 x9 x10 x11 x12 x13 x14 x15 x16
    x17 x18 x19 x20 x21 v x23 x24 x25 x26 x27 x28 x29.

Definition set_highlights_products (v : option CSGProducts) (w : MainWindow) : MainWindow :=
  let '(Build_MainWindow x0 x1 x2 x3 x4 x5 x6 x7 x8 x9 x10 x11 x12 x13 x14 x15
      x16 x17 x18 x19 x20 x21 x22 x23 x24 x25 x26 x27 x28 x29) := w in
  Build_MainWindow x0 x1 x2 x3 x4 x5 x6 x7 x8 x9 x10 x11 x12 x13 x14 x15 x16
    x17 x18 x19 x20 x21 x22 v x24 x25 x26 x27 x28 x29.

Definition set_background_products (v : option CSGProducts) (w : MainWindow) : MainWindow :=
  let '(Build_MainWindow x0 x1 x2 x3 x4 x5 x6 x7 x8 x9 x10 x11 x12 x13 x14 x15
      x16 x17 x18 x19 x20 x21 x22 x23 x24 x25 x26 x27 x28 x29) := w in
  Build_MainWindow x0 x1 x2 x3 x4 x5 x6 x7 x8 x9 x10 x11 x12 x13 x14 x15 x16
    x17 x18 x19 x20 x21 x22 x23 v x25 x26 x27 x28 x29.

Definition set_opencsgRenderer (v : option Renderer) (w : MainWindow) : MainWindow :=
  let '(Build_MainWindow x0 x1 x2 x3 x4 x5 x6 x7 x8 x9 x10 x11 x12 x13 x14 x15
      x16 x17 x18 x19 x20 x21 x22 x23 x24 x25 x26 x27 x28 x29) := w in
  Build_MainWindow x0 x1 x2 x3 x4 x5 x6 x7 x8 x9 x10 x11 x12 x13 x14 x15 x16
    x17 x18 x19 x20 x21 x22 x23 x24 v x26 x27 x28 x29.

Definition set_thrownTogetherRenderer (v : option Renderer) (w : MainWindow) : MainWindow :=
  let '(Build_MainWindow x0 x1 x2 x3 x4 x5 x6 x7 x8 x9 x10 x11 x12 x13 x14 x15
      x16 x17 x18 x19 x20 x21 x22 x23 x24 x25 x26 x27 x28 x29) := w in
  Build_MainWindow x0 x1 x2 x3 x4 x5 x6 x7 x8 x9 x10 x11 x12 x13 x14 x15 x16
    x17 x18 x19 x20 x21 x22 x23 x24 x25 v x27 x28 x29.

Definition set_progresswidget (v : option ProgressWidget) (w : MainWindow) : MainWindow :=
  let '(Build_MainWindow x0 x1 x2 x3 x4 x5 x6 x7 x8 x9 x10 x11 x12 x13 x14 x15
      x16 x17 x18 x19 x20 x21 x22 x23 x24 x25 x26 x27 x28 x29) := w in
  Build_MainWindow x0 x1 x2 x3 x4 x5 x6 x7 x8 x9 x10 x11 x12 x13 x14 x15 x16
    x17 x18 x19 x20 x21 x22 x23 x24 x25 x26 v x28 x29.

Definition set_progressThrottle (v : Z) (w : MainWindow) : MainWindow :=
  let '(Build_MainWindow x0 x1 x2 x3 x4 x5 x6 x7 x8 x9 x10 x11 x12 x13 x14 x15
      x16 x17 x18 x19 x20 x21 x22 x23 x24 x25 x26 x27 x28 x29) := w in
  Build_MainWindow x0 x1 x2 x3 x4 x5 x6 x7 x8 x9 x10 x11 x12 x13 x14 x15 x16
    x17 x18 x19 x20 x21 x22 x23 x24 x25 x26 x27 v x29.

Definition set_cgalworker_started (v : bool) (w : MainWindow) : MainWindow :=
  let '(Build_MainWindow x0 x1 x2 x3 x4 x5 x6 x7 x8 x9 x10 x11 x12 x13 x14 x15
      x16 x17 x18 x19 x20 x21 x22 x23 x24 x25 x26 x27 x28 x29) := w in
  Build_MainWindow x0 x1 x2 x3 x4 x5 x6 x7 x8 x9 x10 x11 x12 x13 x14 x15 x16
    x17 x18 x19 x20 x21 x22 x23 x24 x25 x26 x27 x28 v.


(** What one run of [csgrenderer.buildCSGTree] on the root node does.  It
    calls the progress callback installed by [progress_report_prep], at the
    times and with the marks of [progress_calls], in this order and for as
    long as no call throws; [progress_report_count] is the global counter
    the callback reads.  If no call throws, it returns the root term
    (possibly null) or is unwound by an exception raised in the evaluation.
    Either way the evaluator has collected highlight and background
    terms. *)
Record BuildResult : Type := {
  progress_report_count : Z;
  progress_calls : list (Z * Z);
  build_root : option CSGNode + Exception;
  highlight_terms : list CSGNode;
  background_terms : list CSGNode
}.

(** What [root_module->instantiateWithFileContext] does. *)
Inductive Instantiation : Type :=
  | instantiated (absolute_root : option AbstractNode)
  | instantiation_throws.            (* a [HardWarningException] *)

(** The settings, the answers of the editor, the parser, the module cache
    and the evaluators, and the events Qt dispatches, as one call of an entry
    point meets them. *)
Record Env : Type := {
  (* [Preferences::inst ()->getValue (...)] *)
  enableHardwarnings : bool;
  openCSGLimit : Z;                          (* [.toUInt ()]: below 2^32 *)
  (* widgets *)
  designActionAutoReload_isChecked : bool;
  viewActionAnimate_isChecked : bool;
  (* the editor and the file *)
  fileChangedOnDisk : bool;
  checkEditorModified : bool;
  current_doc_size : Z;
  (* [parsed_module->includesChanged ()] *)
  includesChanged : Z;
  (* [parse (parsed_module, ...)]: its result, whether it left a module in
     [parsed_module], and the parser's [parser_error_pos] *)
  parse_ok : bool;
  parse_module : bool;
  parse_error_pos : Z;
  (* [root_module->handleDependencies ()] and what follows it *)
  handleDependencies : Z;
  would_have_thrown : bool;
  hasIncludes : bool;
  usesLibraries : bool;
  ModuleCache_size : Z;
  (* instantiation and CSG evaluation *)
  instantiateWithFileContext : Instantiation;
  find_root_tag : AbstractNode -> option AbstractNode;
  buildCSGTree : AbstractNode -> BuildResult;
  renderingTime_elapsed : Z;
  (* [QApplication::processEvents ()]: the pending events are dispatched *)
  QApplication_processEvents : MainWindow -> MainWindow
}.

(** Modelled from the spec: [PRINT] ([printutils] is not among the sources).
    "A single global sink receiving leveled text messages {plain info,
    [WARNING:], [ERROR:], UI-scoped warning/error variants, [TRACE:]}; the
    pipeline writes to this sink but does not read from it."  "Hard-warning
    escalation: when a global treat-warnings-as-fatal policy is enabled, any
    warning during a pass is latched and [...] converted into a
    pass-aborting condition that unwinds to the Orchestrator's abort
    handling."  In [mainwin.cc] the policy is [OpenSCAD::hardwarnings], and
    the comments of [compile] say that [PRINT] causes the exception unless
    [no_exceptions_for_warnings ()] turned that off, in which case
    [would_have_thrown ()] tells of it afterwards. *)

(** The sink. *)
Definition write_message (msg : Message) (w : MainWindow) : MainWindow :=
  set_console (console w ++ [msg]) w.

(** The messages of the level [WARNING:]. *)
Definition is_warning (msg : Message) : bool :=
  match msg with
  | text s => String.prefix "WARNING" s
  | _ => false
  end.

(** [PRINT (msg)] with the exceptions on: the message is written, and a
    warning under hard warnings then throws [HardWarningException], which is
    the result [inr], with the window as the exception leaves it. *)
Definition PRINT (msg : Message) (w : MainWindow) : MainWindow + MainWindow :=
  let w := write_message msg w in
  if is_warning msg && hardwarnings w then inr w else inl w.

(** A statement of a [try] block after a statement that may throw. *)
Definition and_then (r : MainWindow + MainWindow)
    (k : MainWindow -> MainWindow + MainWindow) : MainWindow + MainWindow :=
  match r with
  | inl w => k w
  | inr w => inr w
  end.

(** [PRINT] of a message that is no warning: the message is written and
    nothing is thrown. *)
Class NoWarning (msg : Message) : Prop :=
  no_warning : is_warning msg = false.

#[local] Hint Extern 0 (NoWarning _) => exact Logic.eq_refl : typeclass_instances.

Definition PRINT_returns (msg : Message) {H : NoWarning msg} (w : MainWindow)
    : MainWindow :=
  write_message msg w.

(** [unsigned int] and [int] arithmetic. *)
Definition uint (z : Z) : Z := z mod 2 ^ 32.

(** Modelled from the spec: [GuiLocker] (its header is not among the
    sources; [mainwin.cc] defines the counter [GuiLocker::gui_locked]).  "A
    single in-flight-compile token must be held to run any compile/render
    cycle." *)
Definition GuiLocker_isLocked (w : MainWindow) : bool := 0 <? gui_locked w.
Definition GuiLocker_lock (w : MainWindow) : MainWindow :=
  set_gui_locked (uint (gui_locked w + 1)) w.
Definition GuiLocker_unlock (w : MainWindow) : MainWindow :=
  set_gui_locked (uint (gui_locked w - 1)) w.

(** [MainWindow::processEvents]. *)
Definition processEvents (env : Env) (w : MainWindow) : MainWindow :=
  if procevents w then QApplication_processEvents env w else w.

(** [MainWindow::setCurrentOutput], [MainWindow::clearCurrentOutput]. *)
Definition setCurrentOutput (w : MainWindow) : MainWindow := set_output_handler true w.
Definition clearCurrentOutput (w : MainWindow) : MainWindow := set_output_handler false w.

(** ** The progress callback *)

Definition MIN_TIMEOUT : Z := 200.

(** [QElapsedTimer::hasExpired (timeout)] at the time [now]: more than
    [timeout] milliseconds have passed since [start ()]. *)
Definition hasExpired (now : Z) (w : MainWindow) (timeout : Z) : bool :=
  timeout <? now - progressThrottle w.

(** [int] to [double], and [static_cast<int>] of a double. *)
Definition double_of_int (z : Z) : double :=
  if z <? 0 then (- of_uint63 (Uint63.of_Z (- z)))%float
  else of_uint63 (Uint63.of_Z z).
Definition int_of_double (d : double) : Z := trunc d.

(** [MainWindow::report_func (node, vp, mark)], called at the time [now]
    with the global [progress_report_count]; the window [vp] points at is the
    window itself.  The result says whether [ProgressCancelException] is
    thrown.  The queued [setValue] runs when the events are processed. *)
Definition report_func (env : Env) (now progress_report_count mark : Z)
    (w : MainWindow) : MainWindow * option Exception :=
  if hasExpired now w MIN_TIMEOUT then
    let w := set_progressThrottle now w in
    match progresswidget w with
    | None => (w, None)
    | Some pw =>
        let v := int_of_double
                   ((double_of_int mark * 1000) / double_of_int progress_report_count)%float in
        let permille := if v <? 1000 then v else 999 in
        let w :=
          if value pw <? permille then
            let w := set_progresswidget
                       (Some {| value := permille; wasCanceled := wasCanceled pw |}) w in
            QApplication_processEvents env w
          else w in
        match progresswidget w with
        | Some pw' =>
            if wasCanceled pw' then (w, Some ProgressCancelException) else (w, None)
        | None => (w, None)
        end
    end
  else (w, None).

(** One evaluation run: the callbacks [(now, mark)] in the order the
    evaluator makes them, up to the first one that throws. *)
Fixpoint report_run (env : Env) (progress_report_count : Z)
    (calls : list (Z * Z)) (w : MainWindow) : MainWindow * option Exception :=
  match calls with
  | [] => (w, None)
  | (now, mark) :: calls' =>
      match report_func env now progress_report_count mark w with
      | (w', Some e) => (w', Some e)
      | (w', None) => report_run env progress_report_count calls' w'
      end
  end.

(** ** The end of a pass *)

(** [MainWindow::exceptionCleanup]. *)
Definition exceptionCleanup (env : Env) (w : MainWindow) : MainWindow :=
  let w := PRINT_returns (text "Execution aborted") w in
  let w := PRINT_returns (text " ") w in
  let w := GuiLocker_unlock w in
  if designActionAutoReload_isChecked env then set_autoReloadTimer true w else w.

(** [MainWindow::compileEnded]. *)
Definition compileEnded (env : Env) (w : MainWindow) : MainWindow :=
  let w := clearCurrentOutput w in
  let w := GuiLocker_unlock w in
  if designActionAutoReload_isChecked env then set_autoReloadTimer true w else w.

(** ** Instantiation *)

(** [MainWindow::instantiateRoot]; [inr] when the instantiation throws.  The
    renderer of the view is reset with the two renderers. *)
Definition instantiateRoot (env : Env) (w : MainWindow) : MainWindow + MainWindow :=
  let w := set_opencsgRenderer None w in
  let w := set_thrownTogetherRenderer None w in
  let w := set_absolute_root_node None w in
  let w := set_csgRoot None w in
  let w := set_normalizedRoot None w in
  let w := set_root_products None w in
  let w := set_root_node None w in
  let finish (w : MainWindow) : MainWindow :=
    match root_node w with
    | Some _ => w
    | None =>
        let w :=
          if parser_error_pos w <? 0
          then PRINT_returns (text "ERROR: Compilation failed! (no top level object found)") w
          else PRINT_returns (text "ERROR: Compilation failed!") w in
        let w := PRINT_returns (text " ") w in
        processEvents env w
    end in
  if root_module w then
    let w := PRINT_returns (text "Compiling design (CSG Tree generation)...") w in
    let w := processEvents env w in
    match instantiateWithFileContext env with
    | instantiation_throws => inr w
    | instantiated absolute_root =>
        let w := set_absolute_root_node absolute_root w in
        let w :=
          match absolute_root with
          | Some a =>
              match find_root_tag env a with
              | Some r => set_root_node (Some r) w
              | None => set_root_node (Some a) w
              end
          | None => w
          end in
        inl (finish w)
    end
  else inl (finish w).

(** ** Preview: CSG products *)

(** Line 1187: [2 * ...toUInt ()] is a product of an [int] and an
    [unsigned int], computed in [unsigned int], and then widened to
    [size_t]. *)
Definition normalizelimit (env : Env) : Z := uint (2 * openCSGLimit env).

(** Lines 1209-1212 and 1224-1227: every term is normalized and imported. *)
Fixpoint import_terms (limit : Z) (terms : list CSGNode) (products : CSGProducts)
    : CSGProducts :=
  match terms with
  | [] => products
  | t :: terms' =>
      let nterm := CSGTreeNormalizer_normalize limit t in
      import_terms limit terms' (CSGProducts_import products nterm)
  end.

(** Lines 1164-1181 of [MainWindow::compileCSG]: the evaluation, in its
    [try] block with the two handlers.  The callbacks of the run are those
    of [report_func]; a [ProgressCancelException] thrown by one of them
    unwinds [buildCSGTree], so that [csgRoot] is not assigned. *)
Definition compileCSG_evaluate (env : Env) (root : AbstractNode) (w : MainWindow)
    : MainWindow + MainWindow :=
  let w := processEvents env w in
  let built := buildCSGTree env root in
  let '(w, thrown) :=
    report_run env (progress_report_count built) (progress_calls built) w in
  let evaluated :=
    match thrown with
    | Some e => inr e
    | None => build_root built
    end in
  match evaluated with
  | inl term =>
      let w := set_csgRoot term w in
      match and_then (PRINT GeometryCache_print w)
              (fun w => and_then (PRINT CGALCache_print w)
              (fun w => inl (processEvents env w))) with
      | inl w => inl w
      | inr w =>
          PRINT (text "CSG generation cancelled due to hardwarning being enabled.") w
      end
  | inr ProgressCancelException =>
      PRINT (text "CSG generation cancelled.") w
  | inr HardWarningException =>
      PRINT (text "CSG generation cancelled due to hardwarning being enabled.") w
  end.

(** Lines 1185-1255 of [MainWindow::compileCSG]: the normalization, the
    highlights, the background and the renderers, from the terms the
    evaluator [built] has collected. *)
Definition compileCSG_products (env : Env) (built : BuildResult) (w : MainWindow)
    : MainWindow + MainWindow :=
  let limit := normalizelimit env in
  and_then
    match csgRoot w with
    | Some term =>
        let w := set_normalizedRoot (CSGTreeNormalizer_normalize limit term) w in
        match normalizedRoot w with
        | Some _ =>
            inl (set_root_products
                   (Some (CSGProducts_import new_CSGProducts (normalizedRoot w))) w)
        | None =>
            let w := set_root_products None w in
            and_then
              (PRINT (text "WARNING: CSG normalization resulted in an empty tree") w)
              (fun w => inl (processEvents env w))
        end
    | None => inl w
    end
  (fun w =>
  and_then
    (if 0 <? Z.of_nat (List.length (highlight_terms built)) then
       and_then
         (PRINT (compiling_highlights (Z.of_nat (List.length (highlight_terms built)))) w)
         (fun w =>
            let w := processEvents env w in
            inl (set_highlights_products
                   (Some (import_terms limit (highlight_terms built) new_CSGProducts)) w))
     else inl (set_highlights_products None w))
  (fun w =>
  and_then
    (if 0 <? Z.of_nat (List.length (background_terms built)) then
       and_then
         (PRINT (compiling_background (Z.of_nat (List.length (background_terms built)))) w)
         (fun w =>
            let w := processEvents env w in
            inl (set_background_products
                   (Some (import_terms limit (background_terms built) new_CSGProducts)) w))
     else inl (set_background_products None w))
  (fun w =>
  let renderer :=
    {| renderer_root_products := root_products w;
       renderer_highlights_products := highlights_products w;
       renderer_background_products := background_products w |} in
  and_then
    match root_products w with
    | Some products =>
        if openCSGLimit env <? CSGProducts_size products then
          and_then (PRINT (normalized_tree_warning (CSGProducts_size products)) w)
            (fun w => PRINT (text "UI-WARNING: OpenCSG rendering has been disabled.") w)
        else
          and_then (PRINT (normalized_tree_elements (CSGProducts_size products)) w)
            (fun w => inl (set_opencsgRenderer (Some renderer) w))
    | None =>
        and_then (PRINT (normalized_tree_elements 0) w)
          (fun w => inl (set_opencsgRenderer (Some renderer) w))
    end
  (fun w =>
  let w := set_thrownTogetherRenderer (Some renderer) w in
  and_then (PRINT (text "Compile and preview finished.") w)
  (fun w =>
  and_then (PRINT (total_rendering_time (renderingTime_elapsed env / 1000)) w)
  (fun w => inl (processEvents env w))))))).

(** Lines 1146-1255 of [MainWindow::compileCSG]: the body of the outer
    [try]. *)
Definition compileCSG_try (env : Env) (root : AbstractNode) (w : MainWindow)
    : MainWindow + MainWindow :=
  and_then (PRINT (text "Compiling design (CSG Products generation)...") w)
  (fun w =>
  let w := processEvents env w in
  (* Main CSG evaluation *)
  let w := set_progresswidget (Some {| value := 0; wasCanceled := false |}) w in
  (* [progress_report_prep (this->root_node, report_func, this)] *)
  and_then (compileCSG_evaluate env root w)
  (fun w =>
  (* [progress_report_fin (); updateStatusBar (nullptr);] *)
  let w := set_progresswidget None w in
  and_then (PRINT (text "Compiling design (CSG Products normalization)...") w)
  (fun w =>
  let w := processEvents env w in
  compileCSG_products env (buildCSGTree env root) w))).

(** [MainWindow::compileCSG], built with [ENABLE_CGAL] and [ENABLE_OPENCSG]:
    a [HardWarningException] that leaves the body is handled by
    [exceptionCleanup]. *)
Definition compileCSG (env : Env) (w : MainWindow) : MainWindow :=
  let w := set_hardwarnings (enableHardwarnings env) w in
  match root_node w with
  | None => w                                      (* [assert (this->root_node)] *)
  | Some root =>
      match compileCSG_try env root w with
      | inl w => w
      | inr w => exceptionCleanup env w
      end
  end.

(** [MainWindow::csgRender] and [MainWindow::csgReloadRender]; the switch of
    the view mode and the dump of animation frames are left to the view. *)
Definition csgRender (env : Env) (w : MainWindow) : MainWindow :=
  let w := match root_node w with Some _ => compileCSG env w | None => w end in
  compileEnded env w.

Definition csgReloadRender (env : Env) (w : MainWindow) : MainWindow :=
  let w := match root_node w with Some _ => compileCSG env w | None => w end in
  compileEnded env w.

(** [MainWindow::cgalRender]: the worker is started and the pass goes on in
    [actionRenderDone]. *)
Definition cgalRender (env : Env) (w : MainWindow) : MainWindow :=
  if negb (root_module w) || negb (match root_node w with Some _ => true | None => false end)
  then compileEnded env w
  else
    let w := PRINT_returns (text "Rendering Polygon Mesh using CGAL...") w in
    let w := set_progresswidget (Some {| value := 0; wasCanceled := false |}) w in
    set_cgalworker_started true w.

(** [QMetaObject::invokeMethod (this, callslot)]. *)
Definition invokeMethod (env : Env) (callslot : Slot) (w : MainWindow) : MainWindow :=
  match callslot with
  | slot_compileEnded => compileEnded env w
  | slot_csgRender => csgRender env w
  | slot_csgReloadRender => csgReloadRender env w
  | slot_cgalRender => cgalRender env w
  end.

(** ** Compilation *)

(** [MainWindow::compileDone]. *)
Definition compileDone (env : Env) (didchange : bool) (w : MainWindow) : MainWindow :=
  let w := set_hardwarnings (enableHardwarnings env) w in
  if didchange then
    match instantiateRoot env w with
    | inr w => exceptionCleanup env w
    | inl w =>
        let callslot := afterCompileSlot w in
        let w := set_procevents false w in
        invokeMethod env callslot w
    end
  else
    let w := set_procevents false w in
    invokeMethod env slot_compileEnded w.

(** [MainWindow::parseTopLevelDocument]. *)
Definition parseTopLevelDocument (env : Env) (w : MainWindow) : MainWindow :=
  let w := set_last_compiled_doc_size (current_doc_size env) w in
  let w := set_parsed_module (parse_module env) w in
  let w := set_parser_error_pos (parse_error_pos env) w in
  set_root_module (parse_ok env && parse_module env) w.

(** How the body of [compile] is left. *)
Inductive CompileExit : Type :=
  | exit_compileDone (didchange : bool)   (* line 983 *)
  | exit_waitAfterReload                  (* line 979: [return] with the timer armed *)
  | exit_exception.                       (* line 972: [throw HardWarningException] *)

(** Lines 900-981 of [MainWindow::compile (reload, forcedone,
    rebuildParameterWidget)]: the body of the [try] block up to its exit. *)
Definition compile_body (env : Env) (reload forcedone : bool) (w : MainWindow)
    : MainWindow * CompileExit :=
  let w := set_hardwarnings (enableHardwarnings env) w in
  let shouldcompiletoplevel :=
    if reload then
      if fileChangedOnDisk env && checkEditorModified env then true
      else negb (current_doc_size env =? 0) && (last_compiled_doc_size w =? 0)
    else true in
  let '(w, shouldcompiletoplevel) :=
    if parsed_module w then
      let mtime := includesChanged env in
      if includes_mtime w <? mtime
      then (set_includes_mtime mtime w, true)
      else (w, shouldcompiletoplevel)
    else (w, shouldcompiletoplevel) in
  let '(w, didcompile) :=
    if shouldcompiletoplevel
    then (parseTopLevelDocument env w, true)
    else (w, false) in
  let w :=
    if didcompile && negb (parser_error_pos w =? last_parser_error_pos w)
    then set_last_parser_error_pos (parser_error_pos w) w
    else w in
  let '(w, didcompile) :=
    if root_module w then
      let mtime := handleDependencies env in
      if deps_mtime w <? mtime then
        let w := set_deps_mtime mtime w in
        let w := PRINT_returns (used_file_cache_size (ModuleCache_size env)) w in
        (w, true)
      else (w, didcompile)
    else (w, didcompile) in
  if would_have_thrown env then (w, exit_exception)
  else if reload && didcompile && root_module w
          && (hasIncludes env || usesLibraries env) then
    let w := set_waitAfterReloadTimer true w in
    let w := set_procevents false w in
    (w, exit_waitAfterReload)
  else (w, exit_compileDone (didcompile || forcedone)).

(** [MainWindow::compile]. *)
Definition compile (env : Env) (reload forcedone : bool) (w : MainWindow)
    : MainWindow :=
  match compile_body env reload forcedone w with
  | (w, exit_compileDone didchange) => compileDone env didchange w
  | (w, exit_waitAfterReload) => w
  | (w, exit_exception) => exceptionCleanup env w
  end.





(** ** Entry points *)

(** [MainWindow::actionReloadRenderPreview]. *)
Definition actionReloadRenderPreview (env : Env) (w : MainWindow) : MainWindow :=
  if GuiLocker_isLocked w then w
  else
    let w := GuiLocker_lock w in
    let w := set_autoReloadTimer false w in
    let w := setCurrentOutput w in
    let w := set_afterCompileSlot slot_csgReloadRender w in
    let w := set_procevents true w in
    let w := set_preview (Some true) w in
    compile env true false w.

(** Lines 1797-1807 of [MainWindow::actionRenderPreview]: the pass of a
    request that found the GUI unlocked, up to the return of [compile]. *)
Definition actionRenderPreview_pass (env : Env) (w : MainWindow) : MainWindow :=
  let w := GuiLocker_lock w in
  let w := set_autoReloadTimer false w in
  let w := set_preview_requested false w in
  let w := setCurrentOutput w in
  let w := PRINT_returns (text "Parsing design (AST generation)...") w in
  let w := processEvents env w in
  let w := set_afterCompileSlot slot_csgRender w in
  let w := set_procevents (negb (viewActionAnimate_isChecked env)) w in
  let w := set_preview (Some true) w in
  compile env false false w.

(** [MainWindow::actionRenderPreview]. *)
Definition actionRenderPreview (env : Env) (w : MainWindow) : MainWindow :=
  let w := set_preview_requested true w in
  if GuiLocker_isLocked w then w
  else
    let w := actionRenderPreview_pass env w in
    if preview_requested w then
      (* if the action was called when the gui was locked, we must request it
         one more time *)
      set_singleShot_actionRenderPreview (singleShot_actionRenderPreview w + 1) w
    else w.

(** [MainWindow::actionRender]. *)
Definition actionRender (env : Env) (w : MainWindow) : MainWindow :=
  if GuiLocker_isLocked w then w
  else
    let w := GuiLocker_lock w in
    let w := set_autoReloadTimer false w in
    let w := setCurrentOutput w in
    let w := PRINT_returns (text "Parsing design (AST generation)...") w in
    let w := processEvents env w in
    let w := set_afterCompileSlot slot_cgalRender w in
    let w := set_procevents true w in
    let w := set_preview (Some false) w in
    compile env false false w.

End Window.

End MainWin.

(* ================================================================== *)
(** * The editor, the animation, the view and the export ([mainwin.cc]) *)
(* ================================================================== *)

Module MainWinMore.

Import Double MainWin.

(** ** Tabs to spaces *)

(** A [QString]: its code units. *)
Definition QString : Type := list Z.

Definition tab : Z := 9.
Definition newline : Z := 10.
Definition space : Z := 32.

(** The loop of [MainWindow::convertTabsToSpaces] over the characters of the
    text, with the counter [cnt] and the text [converted] so far.  The inner
    loop appends [cnt] spaces and leaves [cnt] at 0 when it was positive. *)
Fixpoint convertTabsToSpaces_loop (text : QString) (cnt : Z) (converted : QString)
    : QString :=
  match text with
  | [] => converted
  | c :: text' =>
      let '(converted, cnt) :=
        if c =? tab
        then (converted ++ repeat space (Z.to_nat cnt), Z.min cnt 0)
        else (converted ++ [c], cnt) in
      let cnt := if (cnt <=? 0) || (c =? newline) then 5 else cnt in
      convertTabsToSpaces_loop text' (cnt - 1) converted
  end.

(** [MainWindow::convertTabsToSpaces]: the text the editor is set to. *)
Definition convertTabsToSpaces (text : QString) : QString :=
  convertTabsToSpaces_loop text 4 [].

(** ** The recent files *)

(** [QStringList::removeAll]. *)
Definition removeAll (x : string) (files : list string) : list string :=
  filter (fun f => negb (String.eqb f x)) files.

(** [while (files.size () > maxRecentFiles) files.removeLast ()]: there are
    no more rounds than the list has elements. *)
Fixpoint removeLast_while (rounds : nat) (maxRecentFiles : Z) (files : list string)
    : list string :=
  match rounds with
  | O => files
  | S k =>
      if maxRecentFiles <? Z.of_nat (List.length files)
      then removeLast_while k maxRecentFiles (removelast files)
      else files
  end.

(** [MainWindow::updateRecentFiles]: the list stored under "recentFileList",
    from the list read there; [maxRecentFiles] is [UIUtils::maxRecentFiles]
    and [infoFileName] the absolute path of the editor's file. *)
Definition updateRecentFiles (maxRecentFiles : Z) (infoFileName : string)
    (files : list string) : list string :=
  let files := removeAll infoFileName files in
  let files := infoFileName :: files in
  removeLast_while (List.length files) maxRecentFiles files.

(** ** The animation *)

(** What the animation takes from [QString]. *)
Class QStrings : Type := {
  (* [QString::number (d, 'f', 5)]: the number with five digits after the
     point *)
  QString_number_f5 : double -> string;
  (* [QString::toDouble (&ok)]: [None] when it leaves [ok] false *)
  QString_toDouble : string -> option double
}.

(** The members of [MainWindow] and the widgets the animation reads and
    writes. *)
Record Animation : Type := {
  anim_step : Z;
  anim_numsteps : Z;
  anim_tval : double;
  anim_dumping : bool;
  anim_dump_start_step : Z;
  e_dump_isChecked : bool;
  animate_timer_isActive : bool;
  (* the frames saved, the oldest first: [frame%1.png] of a step *)
  frames : list Z;
  (* the text of [e_tval] *)
  e_tval_text : string;
  (* how often [actionRenderPreview (true)] was emitted *)
  previews_emitted : Z
}.

(** [int] remainder: [%] truncates toward zero. *)
Definition int_rem (a b : Z) : Z := Z.rem a b.

(** Lines 830-838 of [MainWindow::updatedAnimTval]: the value taken from the
    text of [e_tval], [None] when the text is no number; the function goes on
    with [actionRenderPreview]. *)
Definition updatedAnimTval (t : option double) : double :=
  match t with
  | Some t =>
      if lt t 0%float then 0%float
      else if gt t 1%float then 1%float else t
  | None => 0%float
  end.

Section Animate.

Context {qstrings : QStrings}.

(** [MainWindow::updatedAnimTval], the slot of [e_tval]'s [textChanged]
    (line 281): [anim_tval] is taken from the text and
    [actionRenderPreview (true)] emitted. *)
Definition e_tval_textChanged (a : Animation) : Animation :=
  {| anim_step := anim_step a;
     anim_numsteps := anim_numsteps a;
     anim_tval := updatedAnimTval (QString_toDouble (e_tval_text a));
     anim_dumping := anim_dumping a;
     anim_dump_start_step := anim_dump_start_step a;
     e_dump_isChecked := e_dump_isChecked a;
     animate_timer_isActive := animate_timer_isActive a;
     frames := frames a;
     e_tval_text := e_tval_text a;
     previews_emitted := previews_emitted a + 1 |}.

(** [e_tval->setText (txt)]: a [QLineEdit] signals [textChanged] when the
    text is another one than it had. *)
Definition e_tval_setText (txt : string) (a : Animation) : Animation :=
  if String.eqb txt (e_tval_text a) then a
  else
    e_tval_textChanged
      {| anim_step := anim_step a;
         anim_numsteps := anim_numsteps a;
         anim_tval := anim_tval a;
         anim_dumping := anim_dumping a;
         anim_dump_start_step := anim_dump_start_step a;
         e_dump_isChecked := e_dump_isChecked a;
         animate_timer_isActive := animate_timer_isActive a;
         frames := frames a;
         e_tval_text := txt;
         previews_emitted := previews_emitted a |}.

(** Lines 883-890 of [MainWindow::updateTVal]: the step and the value of
    the next frame. *)
Definition updateTVal_next (a : Animation) : Animation :=
  if 1 <? anim_numsteps a then
    let step := int_rem (anim_step a + 1) (anim_numsteps a) in
    {| anim_step := step;
       anim_numsteps := anim_numsteps a;
       anim_tval := (1 * double_of_int step / double_of_int (anim_numsteps a))%float;
       anim_dumping := anim_dumping a;
       anim_dump_start_step := anim_dump_start_step a;
       e_dump_isChecked := e_dump_isChecked a;
       animate_timer_isActive := animate_timer_isActive a;
       frames := frames a;
       e_tval_text := e_tval_text a;
       previews_emitted := previews_emitted a |}
  else if 0 <? anim_numsteps a then
    {| anim_step := 0;
       anim_numsteps := anim_numsteps a;
       anim_tval := 0%float;
       anim_dumping := anim_dumping a;
       anim_dump_start_step := anim_dump_start_step a;
       e_dump_isChecked := e_dump_isChecked a;
       animate_timer_isActive := animate_timer_isActive a;
       frames := frames a;
       e_tval_text := e_tval_text a;
       previews_emitted := previews_emitted a |}
  else a.

(** [MainWindow::updateTVal], called by [animate_timer]; [childHasFocus] is
    whether the parameter widget is shown with the focus in it.  The value
    is then written to [e_tval] with five digits, whose change of text runs
    [updatedAnimTval]. *)
Definition updateTVal (childHasFocus : bool) (a : Animation) : Animation :=
  if anim_numsteps a =? 0 then a
  else if childHasFocus then a
  else
    let a := updateTVal_next a in
    e_tval_setText (QString_number_f5 (anim_tval a)) a.

End Animate.

(** Lines 1832-1847 of [MainWindow::csgRender]: the dump of the frame that
    was rendered. *)
Definition csgRender_dump (a : Animation) : Animation :=
  if e_dump_isChecked a && animate_timer_isActive a then
    if anim_dumping a && (anim_dump_start_step a =? anim_step a) then
      {| anim_step := anim_step a;
         anim_numsteps := anim_numsteps a;
         anim_tval := anim_tval a;
         anim_dumping := false;
         anim_dump_start_step := anim_dump_start_step a;
         e_dump_isChecked := false;
         animate_timer_isActive := animate_timer_isActive a;
         frames := frames a;
         e_tval_text := e_tval_text a;
         previews_emitted := previews_emitted a |}
    else
      {| anim_step := anim_step a;
         anim_numsteps := anim_numsteps a;
         anim_tval := anim_tval a;
         anim_dumping := true;
         anim_dump_start_step :=
           if anim_dumping a then anim_dump_start_step a else anim_step a;
         e_dump_isChecked := e_dump_isChecked a;
         animate_timer_isActive := animate_timer_isActive a;
         frames := frames a ++ [anim_step a];
         e_tval_text := e_tval_text a;
         previews_emitted := previews_emitted a |}
  else a.

(** ** The rendering time *)

(** Lines 1256 and 2059: the hours, minutes and seconds that [compileCSG]
    and [actionRenderDone] print of the seconds [s] elapsed, [(s / (60*60))],
    [((s / 60) % 60)] and [(s % 60)]. *)
Definition rendering_time (s : Z) : Z * Z * Z :=
  (Z.quot s (60 * 60), Z.rem (Z.quot s 60) 60, Z.rem s 60).

(** ** The view modes *)

Section View.

Context {collab : Collaborators}.

(** What [qglview->setRenderer] is called with. *)
Inductive Shown : Type :=
  | shown_opencsg (r : Renderer)
  | shown_thrown_together (r : Renderer)
  | shown_cgal.

(** The checkable actions of the view menu and the renderer of the view;
    [None] is the null pointer. *)
Record View : Type := {
  viewActionPreview : bool;
  viewActionSurfaces : bool;
  viewActionWireframe : bool;
  viewActionThrownTogether : bool;
  showFaces : bool;
  renderer : option Shown
}.

(** [MainWindow::viewModeActionsUncheck]. *)
Definition viewModeActionsUncheck (v : View) : View :=
  {| viewActionPreview := false;
     viewActionSurfaces := false;
     viewActionWireframe := false;
     viewActionThrownTogether := false;
     showFaces := showFaces v;
     renderer := renderer v |}.

(** [MainWindow::viewModeThrownTogether]. *)
Definition viewModeThrownTogether (w : MainWindow) (v : View) : View :=
  let v := viewModeActionsUncheck v in
  {| viewActionPreview := viewActionPreview v;
     viewActionSurfaces := viewActionSurfaces v;
     viewActionWireframe := viewActionWireframe v;
     viewActionThrownTogether := true;
     showFaces := showFaces v;
     renderer := option_map shown_thrown_together (thrownTogetherRenderer w) |}.

(** [MainWindow::viewModePreview]. *)
Definition viewModePreview (hasOpenCSGSupport : bool) (w : MainWindow) (v : View)
    : View :=
  if hasOpenCSGSupport then
    let v := viewModeActionsUncheck v in
    {| viewActionPreview := true;
       viewActionSurfaces := viewActionSurfaces v;
       viewActionWireframe := viewActionWireframe v;
       viewActionThrownTogether := viewActionThrownTogether v;
       showFaces := showFaces v;
       renderer :=
         match opencsgRenderer w with
         | Some r => Some (shown_opencsg r)
         | None => option_map shown_thrown_together (thrownTogetherRenderer w)
         end |}
  else viewModeThrownTogether w v.

(** [MainWindow::viewModeSurface] and [MainWindow::viewModeWireframe];
    [cgalRenderer] tells whether there is a CGAL renderer. *)
Definition viewModeSurface (cgalRenderer : bool) (v : View) : View :=
  let v := viewModeActionsUncheck v in
  {| viewActionPreview := viewActionPreview v;
     viewActionSurfaces := true;
     viewActionWireframe := viewActionWireframe v;
     viewActionThrownTogether := viewActionThrownTogether v;
     showFaces := true;
     renderer := if cgalRenderer then Some shown_cgal else None |}.

Definition viewModeWireframe (cgalRenderer : bool) (v : View) : View :=
  let v := viewModeActionsUncheck v in
  {| viewActionPreview := viewActionPreview v;
     viewActionSurfaces := viewActionSurfaces v;
     viewActionWireframe := true;
     viewActionThrownTogether := viewActionThrownTogether v;
     showFaces := false;
     renderer := if cgalRenderer then Some shown_cgal else None |}.

(** Lines 1820-1830 of [MainWindow::csgRender] (and the same lines of
    [csgReloadRender]): the view goes to a mode without CGAL. *)
Definition csgRender_view (hasOpenCSGSupport : bool) (w : MainWindow) (v : View)
    : View :=
  if viewActionThrownTogether v then viewModeThrownTogether w v
  else viewModePreview hasOpenCSGSupport w v.

End View.

(** ** Reloading *)

Section Reload.

Context {collab : Collaborators}.

(** [MainWindow::checkAutoReload], called by [autoReloadTimer];
    [filepath_isEmpty] is [activeEditor->filepath.isEmpty ()]. *)
Definition checkAutoReload (env : Env) (filepath_isEmpty : bool) (w : MainWindow)
    : MainWindow :=
  if negb filepath_isEmpty then actionReloadRenderPreview env w else w.

End Reload.

(** ** Export *)

(** What [canExport] asks of the geometry. *)
Record Geometry : Type := {
  getDimension : Z;
  isEmpty : bool;
  (* a [CGAL_Nef_polyhedron] whose [p3] is not simple *)
  nef_not_simple : bool
}.

(** The answers of the user to the dialogs of an export. *)
Record ExportDialogs : Type := {
  (* "Do you really want to export the previous content?" *)
  export_previous_content : bool;
  (* "Do you really want to export the another tab's content?" *)
  export_other_tab : bool;
  (* [QFileDialog::getSaveFileName]: empty when the dialog is cancelled *)
  getSaveFileName : string -> string
}.

Inductive ExportMessage : Type :=
  | nothing_to_export        (* "ERROR: Nothing to export! Try rendering first (press F6)." *)
  | not_a_dD_object (dim : Z)  (* "UI-ERROR: Current top level object is not a %dD object." *)
  | object_is_empty          (* "UI-ERROR: Current top level object is empty." *)
  | may_need_repair          (* "UI-WARNING: Object may not be a valid 2-manifold ..." *)
  | file_exported (type_name filename : string).   (* [fileExportedMessage] *)

(** The state an export reads and writes. *)
Record Exporter : Type := {
  export_gui_locked : Z;
  export_output_handler : bool;
  root_geom : option Geometry;
  contentsRendered : bool;            (* [activeEditor->contentsRendered] *)
  renderedEditor_is_active : bool;    (* [renderedEditor == activeEditor] *)
  export_paths : string -> option string;
  export_console : list ExportMessage;
  (* the calls of [exportFileByName]: the geometry and the file name *)
  exported : list (Geometry * string)
}.

Definition export_PRINT (m : ExportMessage) (x : Exporter) : Exporter :=
  {| export_gui_locked := export_gui_locked x;
     export_output_handler := export_output_handler x;
     root_geom := root_geom x;
     contentsRendered := contentsRendered x;
     renderedEditor_is_active := renderedEditor_is_active x;
     export_paths := export_paths x;
     export_console := export_console x ++ [m];
     exported := exported x |}.

Definition export_set_output (b : bool) (x : Exporter) : Exporter :=
  {| export_gui_locked := export_gui_locked x;
     export_output_handler := b;
     root_geom := root_geom x;
     contentsRendered := contentsRendered x;
     renderedEditor_is_active := renderedEditor_is_active x;
     export_paths := export_paths x;
     export_console := export_console x;
     exported := exported x |}.

Definition export_set_locked (n : Z) (x : Exporter) : Exporter :=
  {| export_gui_locked := n;
     export_output_handler := export_output_handler x;
     root_geom := root_geom x;
     contentsRendered := contentsRendered x;
     renderedEditor_is_active := renderedEditor_is_active x;
     export_paths := export_paths x;
     export_console := export_console x;
     exported := exported x |}.

(** [MainWindow::canExport (dim)]. *)
Definition canExport (dialogs : ExportDialogs) (dim : Z) (x : Exporter)
    : Exporter * bool :=
  match root_geom x with
  | None =>
      (export_set_output false (export_PRINT nothing_to_export x), false)
  | Some geom =>
      if negb (contentsRendered x) && negb (export_previous_content dialogs)
      then (x, false)
      else if negb (renderedEditor_is_active x) && negb (export_other_tab dialogs)
      then (x, false)
      else if negb (getDimension geom =? dim)
      then (export_set_output false (export_PRINT (not_a_dD_object dim) x), false)
      else if isEmpty geom
      then (export_set_output false (export_PRINT object_is_empty x), false)
      else if nef_not_simple geom
      then (export_PRINT may_need_repair x, true)
      else (x, true)
  end.

(** The file of the active editor, as [exportPath] reads it: [filepath] is
    empty for a document that has no file. *)
Record EditorFile : Type := {
  filepath : string;
  absolutePath : string;          (* [QFileInfo (filepath).absolutePath ()] *)
  completeBaseName : string       (* [QFileInfo (filepath).completeBaseName ()] *)
}.

(** [MainWindow::exportPath (suffix)]; [userDocumentsPath] is
    [PlatformUtils::userDocumentsPath ()]. *)
Definition exportPath (userDocumentsPath : string) (editor : EditorFile)
    (suffix : string) (x : Exporter) : string :=
  match export_paths x suffix with
  | Some path => path
  | None =>
      if String.eqb (filepath editor) EmptyString
      then (userDocumentsPath ++ "/Untitled" ++ suffix)%string
      else (absolutePath editor ++ "/" ++ completeBaseName editor ++ suffix)%string
  end.

(** [MainWindow::actionExport (format, type_name, suffix, dim)], with
    [ENABLE_CGAL].  The [GuiLocker] object takes the lock where it is
    declared and gives it back wherever the function is left. *)
Definition actionExport (dialogs : ExportDialogs) (userDocumentsPath : string)
    (editor : EditorFile) (type_name suffix : string) (dim : Z) (x : Exporter)
    : Exporter :=
  if 0 <? export_gui_locked x then x
  else
    let x := export_set_locked (MainWin.uint (export_gui_locked x + 1)) x in
    let x := export_set_output true x in
    let '(x, ok) := canExport dialogs dim x in
    let x :=
      if negb ok then x
      else
        let exportFilename :=
          getSaveFileName dialogs (exportPath userDocumentsPath editor suffix x) in
        if String.eqb exportFilename EmptyString then export_set_output false x
        else
          match root_geom x with
          | None => x
          | Some geom =>
              let x :=
                {| export_gui_locked := export_gui_locked x;
                   export_output_handler := export_output_handler x;
                   root_geom := root_geom x;
                   contentsRendered := contentsRendered x;
                   renderedEditor_is_active := renderedEditor_is_active x;
                   export_paths :=
                     fun s => if String.eqb s suffix then Some exportFilename
                              else export_paths x s;
                   export_console := export_console x;
                   exported := exported x ++ [(geom, exportFilename)] |} in
              let x := export_PRINT (file_exported type_name exportFilename) x in
              export_set_output false x
          end in
    export_set_locked (MainWin.uint (export_gui_locked x - 1)) x.

End MainWinMore.

(* ================================================================== *)
(** * Facts about doubles *)
(* ================================================================== *)

Module DoubleFacts.

Import Double.

(** ** The order on the specification floats *)

Ltac sf_cases :=
  repeat match goal with
  | |- context [Pos.compare_cont Eq ?a ?b] =>
      change (Pos.compare_cont Eq a b) with (Pos.compare a b);
      destruct (Pos.compare_spec a b)
  | |- context [Z.compare ?a ?b] => destruct (Z.compare_spec a b)
  | H : context [Pos.compare_cont Eq ?a ?b] |- _ =>
      change (Pos.compare_cont Eq a b) with (Pos.compare a b) in H;
      destruct (Pos.compare_spec a b)
  | H : context [Z.compare ?a ?b] |- _ => destruct (Z.compare_spec a b)
  end;
  simpl in *; subst; try discriminate; try reflexivity; try lia.

Ltac sf_destruct x y z :=
  destruct x as [[]|[]| |[] ? ?], y as [[]|[]| |[] ? ?], z as [[]|[]| |[] ? ?].

Lemma SFcompare_refl x : x <> S754_nan -> SFcompare x x = Some Eq.
Proof.
  destruct x as [[]|[]| |[] m e]; simpl; intros H; try congruence;
    rewrite Z.compare_refl;
    change (Pos.compare_cont Eq m m) with (Pos.compare m m);
    rewrite Pos.compare_refl; reflexivity.
Qed.

Lemma SFcompare_sym x y :
  SFcompare y x = option_map CompOpp (SFcompare x y).
Proof.
  destruct x as [[]|[]| |[] mx ex], y as [[]|[]| |[] my ey]; simpl;
    try reflexivity; f_equal; sf_cases.
Qed.

Lemma SFcompare_trans c x y z :
  SFcompare x y = Some c -> SFcompare y z = Some c -> SFcompare x z = Some c.
Proof.
  sf_destruct x y z; simpl; intros H1 H2;
    try discriminate; try assumption; try congruence;
    injection H1 as H1; injection H2 as H2; f_equal; subst c;
    revert H2; sf_cases.
Qed.

Lemma SFcompare_Eq_l c x y z :
  SFcompare x y = Some Eq -> SFcompare y z = Some c -> SFcompare x z = Some c.
Proof.
  sf_destruct x y z; simpl; intros H1 H2;
    try discriminate; try assumption; try congruence;
    injection H1 as H1; injection H2 as H2; f_equal; subst c;
    revert H1; sf_cases.
Qed.

Lemma SFcompare_Eq_r c x y z :
  SFcompare x y = Some c -> SFcompare y z = Some Eq -> SFcompare x z = Some c.
Proof.
  sf_destruct x y z; simpl; intros H1 H2;
    try discriminate; try assumption; try congruence;
    injection H1 as H1; injection H2 as H2; f_equal; subst c;
    revert H2; sf_cases.
Qed.

(** ** The order on doubles *)

Lemma isnan_spec x : isnan x = false <-> Prim2SF x <> S754_nan.
Proof.
  unfold isnan, is_nan. rewrite eqb_spec. unfold SFeqb. split.
  - intros H E. rewrite E in H. discriminate.
  - intros H. rewrite SFcompare_refl by assumption. reflexivity.
Qed.

Lemma isfinite_not_nan x : isfinite x = true -> isnan x = false.
Proof.
  unfold isfinite, is_finite, isnan. destruct (is_nan x); simpl; congruence.
Qed.

Lemma isfinite_not_inf x : isfinite x = true -> isinf x = false.
Proof.
  unfold isfinite, is_finite, isinf.
  destruct (is_nan x), (is_infinity x); simpl; congruence.
Qed.


Ltac to_spec :=
  unfold gt, ge in *; unfold lt, le, eq in *;
  rewrite ?ltb_spec, ?leb_spec, ?eqb_spec in *;
  unfold SFltb, SFleb, SFeqb in *.

Lemma le_refl x : isnan x = false -> le x x = true.
Proof.
  rewrite isnan_spec. intros H. to_spec. rewrite SFcompare_refl; auto.
Qed.

Lemma le_not_nan_l x y : le x y = true -> isnan x = false.
Proof.
  intros H. apply isnan_spec. intros E. to_spec. rewrite E in H. discriminate.
Qed.

Lemma le_not_nan_r x y : le x y = true -> isnan y = false.
Proof.
  intros H. apply isnan_spec. intros E. to_spec. rewrite E in H.
  destruct (Prim2SF x); discriminate.
Qed.

Lemma lt_le x y : lt x y = true -> le x y = true.
Proof.
  to_spec. destruct (SFcompare _ _) as [[]|]; congruence.
Qed.

Lemma lt_not_nan_l x y : lt x y = true -> isnan x = false.
Proof. intros H. eapply le_not_nan_l, lt_le, H. Qed.

Lemma lt_not_nan_r x y : lt x y = true -> isnan y = false.
Proof. intros H. eapply le_not_nan_r, lt_le, H. Qed.

Lemma eq_le x y : eq x y = true -> le x y = true.
Proof.
  to_spec. destruct (SFcompare _ _) as [[]|]; congruence.
Qed.

Lemma le_trans x y z : le x y = true -> le y z = true -> le x z = true.
Proof.
  to_spec.
  destruct (SFcompare (Prim2SF x) (Prim2SF y)) as [[]|] eqn:E1; try discriminate;
  destruct (SFcompare (Prim2SF y) (Prim2SF z)) as [[]|] eqn:E2; try discriminate;
  intros _ _.
  - rewrite (SFcompare_Eq_l _ _ _ _ E1 E2). reflexivity.
  - rewrite (SFcompare_Eq_l _ _ _ _ E1 E2). reflexivity.
  - rewrite (SFcompare_Eq_r _ _ _ _ E1 E2). reflexivity.
  - rewrite (SFcompare_trans _ _ _ _ E1 E2). reflexivity.
Qed.

Lemma le_lt_trans x y z : le x y = true -> lt y z = true -> lt x z = true.
Proof.
  to_spec.
  destruct (SFcompare (Prim2SF x) (Prim2SF y)) as [[]|] eqn:E1; try discriminate;
  destruct (SFcompare (Prim2SF y) (Prim2SF z)) as [[]|] eqn:E2; try discriminate;
  intros _ _.
  - rewrite (SFcompare_Eq_l _ _ _ _ E1 E2). reflexivity.
  - rewrite (SFcompare_trans _ _ _ _ E1 E2). reflexivity.
Qed.

Lemma lt_le_trans x y z : lt x y = true -> le y z = true -> lt x z = true.
Proof.
  to_spec.
  destruct (SFcompare (Prim2SF x) (Prim2SF y)) as [[]|] eqn:E1; try discriminate;
  destruct (SFcompare (Prim2SF y) (Prim2SF z)) as [[]|] eqn:E2; try discriminate;
  intros _ _.
  - rewrite (SFcompare_Eq_r _ _ _ _ E1 E2). reflexivity.
  - rewrite (SFcompare_trans _ _ _ _ E1 E2). reflexivity.
Qed.

(** Two doubles that are not NaN are comparable. *)
Lemma not_lt_le x y :
  isnan x = false -> isnan y = false -> lt x y = false -> le y x = true.
Proof.
  rewrite !isnan_spec. intros Hx Hy. to_spec.
  rewrite (SFcompare_sym (Prim2SF x) (Prim2SF y)).
  destruct (Prim2SF x) as [[]|[]| |[] ? ?], (Prim2SF y) as [[]|[]| |[] ? ?];
    try congruence; simpl; try reflexivity; try discriminate; sf_cases.
Qed.

Lemma not_le_lt x y :
  isnan x = false -> isnan y = false -> le x y = false -> lt y x = true.
Proof.
  rewrite !isnan_spec. intros Hx Hy. to_spec.
  rewrite (SFcompare_sym (Prim2SF x) (Prim2SF y)).
  destruct (Prim2SF x) as [[]|[]| |[] ? ?], (Prim2SF y) as [[]|[]| |[] ? ?];
    try congruence; simpl; try reflexivity; try discriminate; sf_cases.
Qed.

Lemma lt_not_le x y : lt x y = true -> le y x = false.
Proof.
  to_spec. rewrite (SFcompare_sym (Prim2SF x) (Prim2SF y)).
  destruct (SFcompare _ _) as [[]|]; simpl; congruence.
Qed.

Lemma le_not_lt x y : le x y = true -> lt y x = false.
Proof.
  to_spec. rewrite (SFcompare_sym (Prim2SF x) (Prim2SF y)).
  destruct (SFcompare _ _) as [[]|]; simpl; congruence.
Qed.

Lemma le_antisym x y : le x y = true -> le y x = true -> eq x y = true.
Proof.
  to_spec. rewrite (SFcompare_sym (Prim2SF x) (Prim2SF y)).
  destruct (SFcompare _ _) as [[]|]; simpl; congruence.
Qed.

End DoubleFacts.

(* ================================================================== *)
(** * The built-in functions meet their specification *)
(* ================================================================== *)

Module FuncSpec.

Import Double DoubleFacts Utf8 Func.

(** An instance of the externals to run the built-ins on: values are compared
    by structure (doubles by [==]), and the generator is a counter. *)
Fixpoint value_eqb (a b : Value) {struct a} : bool :=
  match a, b with
  | UNDEFINED, UNDEFINED => true
  | BOOL x, BOOL y => Bool.eqb x y
  | NUMBER x, NUMBER y => eq x y
  | STRING x, STRING y => String.eqb x y
  | VECTOR l, VECTOR m =>
      (fix all2 (l m : list Value) {struct l} : bool :=
         match l, m with
         | [], [] => true
         | x :: l', y :: m' => value_eqb x y && all2 l' m'
         | _, _ => false
         end) l m
  | _, _ => false
  end.

Definition value_ltb (a b : Value) : bool :=
  match a, b with
  | NUMBER x, NUMBER y => lt x y
  | _, _ => false
  end.

#[local] Instance counter_externals : Externals := {|
  value_eq := value_eqb;
  value_lt := value_ltb;
  toString_other := fun _ => EmptyString;
  mt19937 := Z;
  mt19937_seed := fun seed => seed;
  uniform_real := fun min max s => (min, s + 1);
  hash_floating_point := fun _ => 0;
  undefined_unsigned_int := fun d => trunc d
|}.

Section Facts.

Context {ext : Externals}.

(** ** [min] and [max] *)



Lemma numArgs_cons v args : numArgs (v :: args) = numArgs args + 1.
Proof. unfold numArgs. simpl List.length. lia. Qed.

Lemma numArgs_nonneg args : 0 <= numArgs args.
Proof. unfold numArgs. lia. Qed.


(** ** [rands] *)



Lemma rands_min_id min : isfinite min = true -> rands_min min = (min, []).
Proof.
  intros H. unfold rands_min.
  rewrite (isfinite_not_inf _ H), (isfinite_not_nan _ H). reflexivity.
Qed.

Lemma rands_max_id max : isfinite max = true -> rands_max max = (max, []).
Proof.
  intros H. unfold rands_max.
  rewrite (isfinite_not_inf _ H), (isfinite_not_nan _ H). reflexivity.
Qed.








(** The number of results is the count that was asked for, for the counts up
    to a thousand. *)
Lemma rands_numresults_exact :
  forallb (fun n => Nat.eqb (fst (rands_numresults (of_nat n))) n) (seq 0 1001) = true.
Proof. vm_compute. reflexivity. Qed.

(** ** [lookup] *)

(** A table of pairs of numbers, as a [Value]. *)
Definition entry (e : double * double) : Value :=
  VECTOR [NUMBER (fst e); NUMBER (snd e)].

Definition table_of (entries : list (double * double)) : Value :=
  VECTOR (map entry entries).

(** [k] is the greatest key of the table that is at most [p]; [k] is the
    least key of the table that is at least [p]. *)
Definition floor_key (p : double) (entries : list (double * double)) (k : double) : Prop :=
  (exists v, In (k, v) entries)
  /\ le k p = true
  /\ forall k' v', In (k', v') entries -> le k' p = true -> le k' k = true.

Definition ceil_key (p : double) (entries : list (double * double)) (k : double) : Prop :=
  (exists v, In (k, v) entries)
  /\ le p k = true
  /\ forall k' v', In (k', v') entries -> le p k' = true -> le k k' = true.

(** What the specification says of [lookup (p, table)] on the non-empty
    table [e0 :: rest]:
    - when [p] lies strictly between two keys (and is no key itself), the
      result is the linear interpolation between an entry with the greatest
      key below [p] and an entry with the least key above [p];
    - when no key is at or below [p], the result is the value of an entry
      with the least key; when no key is at or above [p], the value of an
      entry with the greatest key. *)
Definition lookup_spec (p : double) (e0 : double * double)
    (rest : list (double * double)) : Prop :=
  let entries := e0 :: rest in
  let result := builtin_lookup [NUMBER p; table_of entries] in
  ((exists k v, In (k, v) entries /\ lt k p = true) ->
   (exists k v, In (k, v) entries /\ lt p k = true) ->
   (forall k v, In (k, v) entries -> eq k p = false) ->
   exists lo hi,
     In lo entries /\ In hi entries
     /\ floor_key p entries (fst lo) /\ ceil_key p entries (fst hi)
     /\ result = (NUMBER (lookup_interpolate p (fst lo) (snd lo) (fst hi) (snd hi)), []))
  /\ ((forall k v, In (k, v) entries -> le k p = false) ->
      exists hi,
        In hi entries /\ ceil_key p entries (fst hi)
        /\ result = (NUMBER (snd hi), []))
  /\ ((forall k v, In (k, v) entries -> le p k = false) ->
      exists lo,
        In lo entries /\ floor_key p entries (fst lo)
        /\ result = (NUMBER (snd lo), [])).

(** The invariant of the scan, for the lower and the upper bracket: the
    bracket is the tightest one among the entries seen, or no entry seen so
    far is on that side of [p] and the bracket still is the first entry. *)
Definition low_inv (p : double) (seen : list (double * double)) (low_p : double) : Prop :=
  (le low_p p = true
   /\ forall k v, In (k, v) seen -> le k p = true -> le k low_p = true)
  \/ (lt p low_p = true /\ forall k v, In (k, v) seen -> le k p = false).

Definition high_inv (p : double) (seen : list (double * double)) (high_p : double) : Prop :=
  (le p high_p = true
   /\ forall k v, In (k, v) seen -> le p k = true -> le high_p k = true)
  \/ (lt high_p p = true /\ forall k v, In (k, v) seen -> le p k = false).

Lemma low_inv_init p k0 v0 :
  isnan p = false -> isnan k0 = false -> low_inv p [(k0, v0)] k0.
Proof.
  intros Hp Hk. destruct (le k0 p) eqn:E.
  - left. split; [assumption|]. intros k v [H|[]] _. inversion H; subst.
    apply le_refl, Hk.
  - right. split; [apply not_le_lt; assumption|].
    intros k v [H|[]]. inversion H; subst. assumption.
Qed.

Lemma high_inv_init p k0 v0 :
  isnan p = false -> isnan k0 = false -> high_inv p [(k0, v0)] k0.
Proof.
  intros Hp Hk. destruct (le p k0) eqn:E.
  - left. split; [assumption|]. intros k v [H|[]] _. inversion H; subst.
    apply le_refl, Hk.
  - right. split; [apply not_le_lt; assumption|].
    intros k v [H|[]]. inversion H; subst. assumption.
Qed.

Lemma low_inv_step p seen low_p low_v this_p this_v :
  low_inv p seen low_p -> In (low_p, low_v) seen ->
  let low' := if le this_p p && (gt this_p low_p || gt low_p p)
              then (this_p, this_v) else (low_p, low_v) in
  low_inv p (seen ++ [(this_p, this_v)]) (fst low')
  /\ In low' (seen ++ [(this_p, this_v)]).
Proof.
  intros Hinv Hin. unfold gt.
  destruct (le this_p p) eqn:Etp; cbn [andb].
  - destruct Hinv as [[Hle Hmax]|[Hlt Hnone]].
    + rewrite (le_not_lt _ _ Hle), orb_false_r.
      destruct (lt low_p this_p) eqn:Elt; cbn [fst]; split.
      * left. split; [assumption|]. intros k v Hk Hkp.
        apply in_app_or in Hk. destruct Hk as [Hk|[Hk|[]]].
        -- apply lt_le. eapply le_lt_trans; [apply (Hmax k v Hk Hkp)|exact Elt].
        -- inversion Hk; subst. apply le_refl. eapply le_not_nan_l, Etp.
      * apply in_or_app. right. left. reflexivity.
      * left. split; [assumption|]. intros k v Hk Hkp.
        apply in_app_or in Hk. destruct Hk as [Hk|[Hk|[]]].
        -- apply (Hmax k v Hk Hkp).
        -- inversion Hk; subst. apply not_lt_le; try assumption.
           ++ eapply le_not_nan_l, Hle.
           ++ eapply le_not_nan_l, Etp.
      * apply in_or_app. left. assumption.
    + rewrite Hlt, orb_true_r. cbn [fst]. split.
      * left. split; [assumption|]. intros k v Hk Hkp.
        apply in_app_or in Hk. destruct Hk as [Hk|[Hk|[]]].
        -- rewrite (Hnone k v Hk) in Hkp. discriminate.
        -- inversion Hk; subst. apply le_refl. eapply le_not_nan_l, Etp.
      * apply in_or_app. right. left. reflexivity.
  - cbn [fst]. split.
    + destruct Hinv as [[Hle Hmax]|[Hlt Hnone]].
      * left. split; [assumption|]. intros k v Hk Hkp.
        apply in_app_or in Hk. destruct Hk as [Hk|[Hk|[]]].
        -- apply (Hmax k v Hk Hkp).
        -- inversion Hk; subst. congruence.
      * right. split; [assumption|]. intros k v Hk.
        apply in_app_or in Hk. destruct Hk as [Hk|[Hk|[]]].
        -- apply (Hnone k v Hk).
        -- inversion Hk; subst. assumption.
    + apply in_or_app. left. assumption.
Qed.

Lemma high_inv_step p seen high_p high_v this_p this_v :
  high_inv p seen high_p -> In (high_p, high_v) seen ->
  let high' := if ge this_p p && (lt this_p high_p || lt high_p p)
               then (this_p, this_v) else (high_p, high_v) in
  high_inv p (seen ++ [(this_p, this_v)]) (fst high')
  /\ In high' (seen ++ [(this_p, this_v)]).
Proof.
  intros Hinv Hin. unfold ge.
  destruct (le p this_p) eqn:Etp; cbn [andb].
  - destruct Hinv as [[Hle Hmin]|[Hlt Hnone]].
    + rewrite (le_not_lt _ _ Hle), orb_false_r.
      destruct (lt this_p high_p) eqn:Elt; cbn [fst]; split.
      * left. split; [assumption|]. intros k v Hk Hkp.
        apply in_app_or in Hk. destruct Hk as [Hk|[Hk|[]]].
        -- apply lt_le. eapply lt_le_trans; [exact Elt|apply (Hmin k v Hk Hkp)].
        -- inversion Hk; subst. apply le_refl. eapply le_not_nan_r, Etp.
      * apply in_or_app. right. left. reflexivity.
      * left. split; [assumption|]. intros k v Hk Hkp.
        apply in_app_or in Hk. destruct Hk as [Hk|[Hk|[]]].
        -- apply (Hmin k v Hk Hkp).
        -- inversion Hk; subst. apply not_lt_le; try assumption.
           ++ eapply le_not_nan_r, Etp.
           ++ eapply le_not_nan_r, Hle.
      * apply in_or_app. left. assumption.
    + rewrite Hlt, orb_true_r. cbn [fst]. split.
      * left. split; [assumption|]. intros k v Hk Hkp.
        apply in_app_or in Hk. destruct Hk as [Hk|[Hk|[]]].
        -- rewrite (Hnone k v Hk) in Hkp. discriminate.
        -- inversion Hk; subst. apply le_refl. eapply le_not_nan_r, Etp.
      * apply in_or_app. right. left. reflexivity.
  - cbn [fst]. split.
    + destruct Hinv as [[Hle Hmin]|[Hlt Hnone]].
      * left. split; [assumption|]. intros k v Hk Hkp.
        apply in_app_or in Hk. destruct Hk as [Hk|[Hk|[]]].
        -- apply (Hmin k v Hk Hkp).
        -- inversion Hk; subst. congruence.
      * right. split; [assumption|]. intros k v Hk.
        apply in_app_or in Hk. destruct Hk as [Hk|[Hk|[]]].
        -- apply (Hnone k v Hk).
        -- inversion Hk; subst. assumption.
    + apply in_or_app. left. assumption.
Qed.

Lemma lookup_scan_inv p rest : forall seen low_p low_v high_p high_v,
  low_inv p seen low_p -> In (low_p, low_v) seen ->
  high_inv p seen high_p -> In (high_p, high_v) seen ->
  match lookup_scan p (map entry rest) low_p low_v high_p high_v with
  | (low_p', low_v', high_p', high_v') =>
      low_inv p (seen ++ rest) low_p' /\ In (low_p', low_v') (seen ++ rest)
      /\ high_inv p (seen ++ rest) high_p' /\ In (high_p', high_v') (seen ++ rest)
  end.
Proof.
  induction rest as [|[this_p this_v] rest IH]; intros seen low_p low_v high_p high_v Hl Hlin Hh Hhin.
  - cbn. rewrite app_nil_r. auto.
  - cbn [map lookup_scan entry getVec2 fst snd].
    pose proof (low_inv_step p seen low_p low_v this_p this_v Hl Hlin) as Hls.
    pose proof (high_inv_step p seen high_p high_v this_p this_v Hh Hhin) as Hhs.
    cbv zeta in Hls, Hhs.
    destruct (if le this_p p && (gt this_p low_p || gt low_p p)
              then (this_p, this_v) else (low_p, low_v)) as [lp' lv'].
    destruct (if ge this_p p && (lt this_p high_p || lt high_p p)
              then (this_p, this_v) else (high_p, high_v)) as [hp' hv'].
    cbn [fst] in Hls, Hhs. destruct Hls as [Hl' Hlin'], Hhs as [Hh' Hhin'].
    specialize (IH (seen ++ [(this_p, this_v)]) lp' lv' hp' hv' Hl' Hlin' Hh' Hhin').
    rewrite <- app_assoc in IH. exact IH.
Qed.

Lemma builtin_lookup_unfold p e0 rest :
  isfinite p = true ->
  builtin_lookup [NUMBER p; table_of (e0 :: rest)] =
  match lookup_scan p (map entry rest) (fst e0) (snd e0) (fst e0) (snd e0) with
  | (low_p, low_v, high_p, high_v) =>
      if le p low_p then (NUMBER high_v, [])
      else if ge p high_p then (NUMBER low_v, [])
      else (NUMBER (lookup_interpolate p low_p low_v high_p high_v), [])
  end.
Proof.
  intros Hp. unfold builtin_lookup, table_of.
  cbn -[lookup_scan isfinite le ge lookup_interpolate]. rewrite Hp.
  cbn -[lookup_scan le ge lookup_interpolate]. reflexivity.
Qed.

(** The amended claim C5. *)
Lemma lookup_meets_spec p e0 rest :
  isfinite p = true -> isnan (fst e0) = false -> lookup_spec p e0 rest.
Proof.
  intros Hfin Hk0. pose proof (isfinite_not_nan _ Hfin) as Hp.
  unfold lookup_spec. cbv zeta. rewrite (builtin_lookup_unfold _ _ _ Hfin).
  destruct e0 as [k0 v0]. cbn [fst snd] in *.
  pose proof (lookup_scan_inv p rest [(k0, v0)] k0 v0 k0 v0
                (low_inv_init p k0 v0 Hp Hk0) (or_introl Logic.eq_refl)
                (high_inv_init p k0 v0 Hp Hk0) (or_introl Logic.eq_refl)) as Hinv.
  destruct (lookup_scan p (map entry rest) k0 v0 k0 v0) as [[[low_p low_v] high_p] high_v].
  cbn [app] in Hinv. destruct Hinv as (Hl & Hlin & Hh & Hhin).
  set (entries := (k0, v0) :: rest) in *.
  split; [|split].
  - (* between two keys *)
    intros (kb & vb & Hb & Hbp) (ka & va & Ha & Hap) Hne.
    pose proof (lt_le _ _ Hbp) as Hbp'. pose proof (lt_le _ _ Hap) as Hap'.
    destruct Hl as [[Hle Hmax]|[_ Hnone]];
      [|rewrite (Hnone kb vb Hb) in Hbp'; discriminate].
    destruct Hh as [[Hge Hmin]|[_ Hnone]];
      [|rewrite (Hnone ka va Ha) in Hap'; discriminate].
    destruct (le p low_p) eqn:E1.
    { pose proof (le_antisym _ _ Hle E1) as Heq.
      rewrite (Hne low_p low_v Hlin) in Heq. discriminate. }
    unfold ge. destruct (le high_p p) eqn:E2.
    { pose proof (le_antisym _ _ E2 Hge) as Heq.
      rewrite (Hne high_p high_v Hhin) in Heq. discriminate. }
    exists (low_p, low_v), (high_p, high_v). cbn [fst snd].
    repeat split; try assumption.
    + exists low_v. assumption.
    + exists high_v. assumption.
  - (* below every key *)
    intros Hnone.
    destruct Hl as [[Hle _]|[Hlt _]];
      [rewrite (Hnone low_p low_v Hlin) in Hle; discriminate|].
    rewrite (lt_le _ _ Hlt).
    destruct Hh as [[Hge Hmin]|[Hgt _]].
    + exists (high_p, high_v). cbn [fst snd]. repeat split; try assumption.
      exists high_v. assumption.
    + pose proof (Hnone high_p high_v Hhin) as H1.
      rewrite (lt_le _ _ Hgt) in H1. discriminate.
  - (* above every key *)
    intros Hnone.
    destruct Hh as [[Hge _]|[Hgt _]];
      [rewrite (Hnone high_p high_v Hhin) in Hge; discriminate|].
    destruct Hl as [[Hle Hmax]|[Hlt _]].
    + rewrite (Hnone low_p low_v Hlin). unfold ge. rewrite (lt_le _ _ Hgt).
      exists (low_p, low_v). cbn [fst snd]. repeat split; try assumption.
      exists low_v. assumption.
    + pose proof (Hnone low_p low_v Hlin) as H1.
      rewrite (lt_le _ _ Hlt) in H1. discriminate.
Qed.

(** C5 (amended).  For a finite [p] and a table of pairs of numbers whose
    first key is not NaN: when [p] lies strictly between two keys the result
    of [lookup (p, table)] is the linear interpolation between the tightest
    bracketing pair of entries, and when [p] lies outside the range of the
    keys it is the value at the nearest endpoint key; and
    [lookup (5, [[0, 0], [10, 10]])] is [5]. *)
Theorem C5_lookup_interpolates (p : double) (e0 : double * double)
    (rest : list (double * double)) :
  isfinite p = true -> isnan (fst e0) = false ->
  lookup_spec p e0 rest
  /\ builtin_lookup
       [NUMBER 5%float; table_of [(0%float, 0%float); (10%float, 10%float)]]
     = (NUMBER 5%float, []).
Proof.
  intros Hp Hk. split; [apply lookup_meets_spec; assumption|reflexivity].
Qed.

(** ** [search] *)

(** The three inner loops of [search] walk the table once, with the same
    bookkeeping; [scan_hits] is that walk over the table positions, each
    with the outcome of the comparison made there. *)
Fixpoint scan_hits (num_returns_per_match : Z) (hits : list (nat * bool))
    (matchCount : Z) (resultvec returnvec : list Value) : Scan :=
  match hits with
  | [] => (matchCount, resultvec, returnvec)
  | (j, hit) :: hits' =>
      if hit then
        let matchCount := uint (matchCount + 1) in
        if num_returns_per_match =? 1 then
          (matchCount, resultvec, returnvec ++ [NUMBER (of_nat j)])
        else
          let resultvec := resultvec ++ [NUMBER (of_nat j)] in
          if (1 <? num_returns_per_match) && (num_returns_per_match <=? matchCount)
          then (matchCount, resultvec, returnvec)
          else scan_hits num_returns_per_match hits' matchCount resultvec returnvec
      else scan_hits num_returns_per_match hits' matchCount resultvec returnvec
  end.

(** The positions from [s] on, with the outcomes [l]. *)
Definition numbered (s : nat) (l : list bool) : list (nat * bool) :=
  combine (seq s (List.length l)) l.

(** The positions, from [s] on, at which the outcome is a match. *)
Fixpoint hit_indices_from (s : nat) (l : list bool) : list nat :=
  match l with
  | [] => []
  | h :: l' => (if h then [s] else []) ++ hit_indices_from (S s) l'
  end.

Definition indices (js : list nat) : list Value :=
  map (fun j => NUMBER (of_nat j)) js.

Lemma numbered_cons s h l : numbered s (h :: l) = (s, h) :: numbered (S s) l.
Proof. reflexivity. Qed.

Lemma search_str_scan_hits ptr_ft table num n : forall s matchCount resultvec returnvec,
  search_str_scan ptr_ft table num (seq s n) matchCount resultvec returnvec =
  scan_hits num
    (numbered s (map (fun j => g_utf8_get_char ptr_ft =? char_at table j) (seq s n)))
    matchCount resultvec returnvec.
Proof.
  induction n as [|n IH]; intros s mc rv ret; [reflexivity|].
  cbn [seq map]. rewrite numbered_cons. cbn [search_str_scan scan_hits].
  unfold char_at at 1.
  destruct (g_utf8_get_char ptr_ft =? _); rewrite ?IH; reflexivity.
Qed.


(** One match is asked for: the walk stops at the first match and appends
    its position to [returnvec]; without a match nothing changes. *)
Lemma scan_hits_one l : forall s matchCount resultvec returnvec,
  scan_hits 1 (numbered s l) matchCount resultvec returnvec =
  match hit_indices_from s l with
  | [] => (matchCount, resultvec, returnvec)
  | j :: _ => (uint (matchCount + 1), resultvec, returnvec ++ [NUMBER (of_nat j)])
  end.
Proof.
  induction l as [|h l IH]; intros s mc rv ret; [reflexivity|].
  rewrite numbered_cons. cbn [scan_hits hit_indices_from].
  destruct h; cbn [app Z.eqb Pos.eqb]; [reflexivity|apply IH].
Qed.

(** All matches are asked for. *)
Lemma scan_hits_all l : forall s matchCount resultvec returnvec,
  exists matchCount',
    scan_hits 0 (numbered s l) matchCount resultvec returnvec =
    (matchCount', resultvec ++ indices (hit_indices_from s l), returnvec).
Proof.
  induction l as [|h l IH]; intros s mc rv ret.
  - exists mc. cbn. rewrite app_nil_r. reflexivity.
  - rewrite numbered_cons. cbn [scan_hits hit_indices_from].
    destruct h; cbn [app Z.eqb Z.ltb Z.compare andb].
    + destruct (IH (S s) (uint (mc + 1)) (rv ++ [NUMBER (of_nat s)]) ret) as [mc' E].
      exists mc'. rewrite E. unfold indices. cbn [map]. rewrite <- app_assoc.
      reflexivity.
    + apply IH.
Qed.

(** At most [num] matches are asked for, [matchCount] of them found. *)
Lemma scan_hits_capped num l :
  1 < num < 2 ^ 32 ->
  forall s matchCount resultvec returnvec,
  0 <= matchCount < num ->
  exists matchCount',
    scan_hits num (numbered s l) matchCount resultvec returnvec =
    (matchCount',
     resultvec ++ indices (firstn (Z.to_nat (num - matchCount)) (hit_indices_from s l)),
     returnvec).
Proof.
  intros Hnum. induction l as [|h l IH]; intros s mc rv ret Hmc.
  - exists mc. cbn. rewrite firstn_nil. cbn. rewrite app_nil_r. reflexivity.
  - rewrite numbered_cons. cbn [scan_hits hit_indices_from].
    destruct h; cbn [app]; [|apply IH; assumption].
    assert (Hu : uint (mc + 1) = mc + 1).
    { unfold uint. apply Z.mod_small. lia. }
    rewrite Hu.
    replace (num =? 1) with false by (symmetry; apply Z.eqb_neq; lia).
    replace (1 <? num) with true by (symmetry; apply Z.ltb_lt; lia).
    cbn [andb].
    replace (Z.to_nat (num - mc)) with (S (Z.to_nat (num - (mc + 1)))) by lia.
    cbn [firstn]. unfold indices at 1. cbn [map].
    destruct (num <=? mc + 1) eqn:E.
    + apply Z.leb_le in E. exists (mc + 1).
      replace (Z.to_nat (num - (mc + 1))) with O by lia.
      cbn [firstn map]. reflexivity.
    + apply Z.leb_gt in E.
      destruct (IH (S s) (mc + 1) (rv ++ [NUMBER (of_nat s)]) ret) as [mc' E'];
        [lia|].
      exists mc'. rewrite E'. rewrite <- app_assoc. reflexivity.
Qed.

(** What one element of the search input contributes to the result, from
    the positions of its matches in the table: in mode 1 the first position
    alone, when there is one; in the other modes a vector of the positions,
    all of them (mode 0) or the first [num] of them. *)
Definition contribution (num : Z) (matches : list nat) : list Value :=
  if num =? 1 then
    match matches with
    | [] => []
    | j :: _ => [NUMBER (of_nat j)]
    end
  else if num =? 0 then [VECTOR (indices matches)]
  else [VECTOR (indices (firstn (Z.to_nat num) matches))].


Lemma scan_then_append num l returnvec :
  0 <= num < 2 ^ 32 ->
  match scan_hits num (numbered 0 l) 0 [] returnvec with
  | (matchCount, resultvec, returnvec') =>
      (if (num =? 0) || (1 <? num)
       then returnvec' ++ [VECTOR resultvec] else returnvec')
      = returnvec ++ contribution num (hit_indices_from 0 l)
      /\ ((num =? 1) && (matchCount =? 0) = true ->
          resultvec = [] /\ returnvec' = returnvec /\ hit_indices_from 0 l = [])
      /\ ((num =? 1) && (matchCount =? 0) = false ->
          num = 1 -> hit_indices_from 0 l <> [])
  end.
Proof.
  intros Hnum. unfold contribution.
  destruct (num =? 1) eqn:E1.
  - apply Z.eqb_eq in E1. subst num. rewrite scan_hits_one.
    destruct (hit_indices_from 0 l) as [|j js]; cbn.
    + rewrite app_nil_r. repeat split; auto; discriminate.
    + repeat split; auto; discriminate.
  - apply Z.eqb_neq in E1. cbn [andb].
    destruct (num =? 0) eqn:E0.
    + apply Z.eqb_eq in E0. subst num.
      destruct (scan_hits_all l 0 0 [] returnvec) as [mc' E]. rewrite E.
      cbn [orb app]. split; [reflexivity|]. split; [discriminate|]. intros _ H. lia.
    + apply Z.eqb_neq in E0.
      destruct (scan_hits_capped num l ltac:(lia) 0 0 [] returnvec ltac:(lia))
        as [mc' E].
      rewrite E. replace (1 <? num) with true by (symmetry; apply Z.ltb_lt; lia).
      rewrite Z.sub_0_r. cbn [orb app].
      split; [reflexivity|]. split; [discriminate|]. intros _ H. lia.
Qed.

(** The positions at which the code point [c] occurs in [cps]. *)
Definition match_indices (c : Z) (cps : list Z) : list nat :=
  hit_indices_from 0 (map (Z.eqb c) cps).

(** Search by code points, in the words of the specification: "returning,
    per element of the search input, either the first match index, all match
    indices up to a cap, or all match indices unbounded". *)
Definition search_codepoints (find table : list Z) (num : Z) : list Value :=
  flat_map (fun c => contribution num (match_indices c table)) find.

Lemma search_str_loop_codepoints find table num :
  0 <= num < 2 ^ 32 ->
  forall offs returnvec,
  search_str_loop find table num offs returnvec =
  returnvec ++ search_codepoints (map (char_at find) offs) (codepoints table) num.
Proof.
  intros Hnum. induction offs as [|i offs IH]; intros ret.
  - cbn. rewrite app_nil_r. reflexivity.
  - cbn [search_str_loop map]. unfold search_codepoints. cbn [flat_map].
    rewrite search_str_scan_hits.
    pose proof (scan_then_append num
      (map (fun j => g_utf8_get_char (g_utf8_offset_to_pointer find i) =? char_at table j)
           (seq 0 (g_utf8_strlen table))) ret Hnum) as H.
    destruct (scan_hits _ _ _ _ _) as [[mc rv] ret'].
    destruct H as [H _]. rewrite H, IH.
    unfold search_codepoints, match_indices, codepoints, char_at.
    rewrite map_map, <- app_assoc. reflexivity.
Qed.

(** The string/string overload compares code points, position by
    position. *)
Lemma search_str_codepoints find table num :
  0 <= num < 2 ^ 32 ->
  search_str find table num =
  search_codepoints (codepoints find) (codepoints table) num.
Proof.
  intros Hnum. unfold search_str.
  rewrite (search_str_loop_codepoints find table num Hnum). reflexivity.
Qed.






(** In mode 1 the string/rows overload appends nothing but positions,
    whatever the rows are. *)
Definition all_numbers (l : list Value) : Prop :=
  Forall (fun v => is_number v = true) l.



Lemma flat_map_all_numbers {A} (f : A -> list Value) l :
  (forall x, all_numbers (f x)) -> all_numbers (flat_map f l).
Proof.
  intros H. induction l as [|x l IH]; cbn; [constructor|].
  apply Forall_app. split; [apply H|apply IH].
Qed.

Lemma contribution_one_numbers matches : all_numbers (contribution 1 matches).
Proof. destruct matches; cbn; repeat constructor. Qed.

Lemma to_unsigned_int_range d : 0 <= to_unsigned_int d < 2 ^ 32.
Proof.
  unfold to_unsigned_int.
  destruct (isfinite d && (0 <=? trunc d) && (trunc d <? 2 ^ 32)) eqn:E.
  - apply andb_prop in E. destruct E as [E E2].
    apply andb_prop in E. destruct E as [_ E1].
    apply Z.leb_le in E1. apply Z.ltb_lt in E2. lia.
  - unfold uint. apply Z.mod_pos_bound. lia.
Qed.

(** Where the conversion is defined it is the truncation. *)
Lemma to_unsigned_int_defined d :
  isfinite d = true -> 0 <= trunc d < 2 ^ 32 -> to_unsigned_int d = trunc d.
Proof.
  intros Hf H. unfold to_unsigned_int. rewrite Hf.
  replace (0 <=? trunc d) with true by (symmetry; apply Z.leb_le; lia).
  replace (trunc d <? 2 ^ 32) with true by (symmetry; apply Z.ltb_lt; lia).
  reflexivity.
Qed.

(** The mode a call of [search] runs in: 1 by default. *)
Definition mode_args (mode : option double) : list Value :=
  match mode with
  | Some d => [NUMBER d]
  | None => []
  end.

Definition mode_of (mode : option double) : Z :=
  match mode with
  | Some d => to_unsigned_int d
  | None => 1
  end.

Lemma mode_of_range mode : 0 <= mode_of mode < 2 ^ 32.
Proof. destruct mode; cbn; [apply to_unsigned_int_range|lia]. Qed.

(** The modes on which the conversion to [unsigned int] is defined: a
    finite number whose truncation is in the range of [unsigned int] (or no
    third argument), and the mode they stand for. *)
Definition mode_defined (mode : option double) : Prop :=
  match mode with
  | Some d => isfinite d = true /\ 0 <= trunc d < 2 ^ 32
  | None => True
  end.

Definition mode_value (mode : option double) : Z :=
  match mode with
  | Some d => trunc d
  | None => 1
  end.

Lemma mode_of_defined mode : mode_defined mode -> mode_of mode = mode_value mode.
Proof.
  destruct mode as [d|]; [|reflexivity].
  intros [Hf H]. apply to_unsigned_int_defined; assumption.
Qed.

Lemma builtin_search_string find table mode :
  builtin_search (STRING find :: STRING table :: mode_args mode) =
  (VECTOR (search_codepoints (codepoints find) (codepoints table) (mode_of mode)), []).
Proof.
  rewrite <- (search_str_codepoints find table _ (mode_of_range mode)).
  destruct mode; reflexivity.
Qed.




(** C9.  [search ("a", "abcdabcd")] is [[0]] and
    [search ("a", "abcdabcd", 0)] is [[[0, 4]]]; and a string is searched for
    in a string by code points: for every mode on which the conversion to
    [unsigned int] is defined, the result is, for every code point of the
    first string, made from the character positions at which that code point
    occurs in the second (in mode 1 the first position, in mode 0 all of
    them in one vector, otherwise the first [num] of them), as on the
    examples of [func.cc] with characters of two and four bytes. *)
Theorem C9_search_by_code_point :
  builtin_search [STRING "a"; STRING "abcdabcd"] = (VECTOR [NUMBER 0%float], [])
  /\ builtin_search [STRING "a"; STRING "abcdabcd"; NUMBER 0%float]
     = (VECTOR [VECTOR [NUMBER 0%float; NUMBER 4%float]], [])
  /\ (forall find table mode,
        mode_defined mode ->
        builtin_search (STRING find :: STRING table :: mode_args mode) =
        (VECTOR
           (flat_map
              (fun c => contribution (mode_value mode) (match_indices c (codepoints table)))
              (codepoints find)), []))
  /\ codepoints (ace_of_spades ++ "a" ++ cyr_el) = [0x1F0A1; 0x61; 0x41B]
  /\ builtin_search [STRING cyr_el; STRING cyr_el] = (VECTOR [NUMBER 0%float], [])
  /\ builtin_search [STRING "a"; STRING (cyr_el ++ "a")] = (VECTOR [NUMBER 1%float], [])
  /\ builtin_search [STRING cyr_el; STRING (of_bytes [0xD0; 0x9C])] = (VECTOR [], [])
  /\ builtin_search
       [STRING (ace_of_spades ++ "a" ++ cyr_el);
        STRING ("a" ++ ace_of_spades ++ cyr_el ++ ace_of_spades ++ "a"
                ++ ace_of_spades ++ cyr_el ++ ace_of_spades ++ "a");
        NUMBER 0%float]
     = (VECTOR
          [VECTOR [NUMBER 1%float; NUMBER 3%float; NUMBER 5%float; NUMBER 7%float];
           VECTOR [NUMBER 0%float; NUMBER 4%float; NUMBER 8%float];
           VECTOR [NUMBER 2%float; NUMBER 6%float]], []).
Proof.
  split; [reflexivity|]. split; [reflexivity|].
  split.
  { intros find table mode Hm. rewrite <- (mode_of_defined mode Hm).
    apply builtin_search_string. }
  repeat split; reflexivity.
Qed.

End Facts.

(** ** Inputs on which the specification as written does not hold *)


(** C5 as written fails on [lookup (5, [[nan, 1], [0, 0], [10, 10]])]: 5 lies
    between the keys 0 and 10, and the result is NaN, not the interpolation
    between the entries of these two keys. *)
Lemma C5_counterexample_nan_first_key :
  isfinite 5%float = true
  /\ builtin_lookup
       [NUMBER 5%float;
        table_of [(nan, 1%float); (0%float, 0%float); (10%float, 10%float)]]
     = (NUMBER nan, [])
  /\ ~ lookup_spec 5%float (nan, 1%float) [(0%float, 0%float); (10%float, 10%float)].
Proof.
  split; [reflexivity|]. split; [reflexivity|].
  intros [Hbetween _].
  destruct Hbetween as (lo & hi & Hlo & Hhi & Hfl & Hce & Hres).
  - exists 0%float, 0%float. split; [right; left; reflexivity|reflexivity].
  - exists 10%float, 10%float. split; [right; right; left; reflexivity|reflexivity].
  - intros k v [H|[H|[H|[]]]]; inversion H; reflexivity.
  - destruct Hfl as (_ & Hfl & _), Hce as (_ & Hce & _).
    destruct Hlo as [<-|[<-|[<-|[]]]]; try discriminate Hfl;
    destruct Hhi as [<-|[<-|[<-|[]]]]; try discriminate Hce.
    all: apply (f_equal (fun r => isnan (toDouble (fst r)))) in Hres;
      vm_compute in Hres; discriminate Hres.
Qed.

(** ** Instances of the theorems that carry hypotheses *)

Lemma C5_lookup_witness :
  lookup_spec 5%float (0%float, 0%float) [(10%float, 10%float)]
  /\ builtin_lookup
       [NUMBER 5%float; table_of [(0%float, 0%float); (10%float, 10%float)]]
     = (NUMBER 5%float, []).
Proof.
  apply (C5_lookup_interpolates 5%float (0%float, 0%float) [(10%float, 10%float)]);
    reflexivity.
Defined.

End FuncSpec.

(* ================================================================== *)
(** * The orchestrator meets its specification *)
(* ================================================================== *)

Module MainWinSpec.

Import Double MainWin.

(** ** A window to run the orchestrator on *)

(** Collaborators that show what they are given: a term is its number of
    leaves, the normalizer answers with the limit it was built with, or with
    null when the term has more leaves than the limit, and the products are
    the imported terms. *)
#[local] Instance probe_collaborators : Collaborators := {|
  AbstractNode := unit;
  CSGNode := Z;
  CSGProducts := list Z;
  new_CSGProducts := [];
  CSGProducts_import := fun products term =>
    match term with Some t => products ++ [t] | None => products end;
  CSGProducts_size := fun products => Z.of_nat (List.length products);
  CSGTreeNormalizer_normalize := fun limit term =>
    if limit <? term then None else Some limit
|}.

(** The window after start-up. *)
Definition idle_window : MainWindow := {|
  gui_locked := 0;
  preview_requested := false;
  autoReloadTimer := false;
  waitAfterReloadTimer := false;
  singleShot_actionRenderPreview := 0;
  afterCompileSlot := slot_compileEnded;
  procevents := false;
  preview := None;
  output_handler := false;
  console := [];
  hardwarnings := false;
  parsed_module := false;
  root_module := false;
  includes_mtime := 0;
  deps_mtime := 0;
  parser_error_pos := -1;
  last_parser_error_pos := -1;
  last_compiled_doc_size := 0;
  absolute_root_node := None;
  root_node := None;
  csgRoot := None;
  normalizedRoot := None;
  root_products := None;
  highlights_products := None;
  background_products := None;
  opencsgRenderer := None;
  thrownTogetherRenderer := None;
  progresswidget := None;
  progressThrottle := 0;
  cgalworker_started := false
|}.

(** The window with the root node in place, as [instantiateRoot] leaves it
    before the slot of the pass is invoked. *)
Definition instantiated_window : MainWindow :=
  set_root_node (collab := probe_collaborators) (Some tt) idle_window.

(** A design of one object, of [leaves] leaves, that parses and instantiates;
    [limit] is the configured ceiling, [deps] the timestamp of the
    dependencies, [thrown] whether a warning was latched, [includes] whether
    the design includes files, [build] what the CSG evaluation ends in and
    [events] what Qt dispatches when events are processed. *)
Definition design_env (limit deps : Z) (thrown includes : bool)
    (build : option Z + Exception) (events : MainWindow -> MainWindow) : Env := {|
  enableHardwarnings := false;
  openCSGLimit := limit;
  designActionAutoReload_isChecked := false;
  viewActionAnimate_isChecked := false;
  fileChangedOnDisk := true;
  checkEditorModified := true;
  current_doc_size := 10;
  includesChanged := 0;
  parse_ok := true;
  parse_module := true;
  parse_error_pos := -1;
  handleDependencies := deps;
  would_have_thrown := thrown;
  hasIncludes := includes;
  usesLibraries := false;
  ModuleCache_size := 1;
  instantiateWithFileContext := instantiated (Some tt);
  find_root_tag := fun _ => None;
  buildCSGTree := fun _ =>
    {| progress_report_count := 1; progress_calls := [];
       build_root := build; highlight_terms := []; background_terms := [] |};
  renderingTime_elapsed := 0;
  QApplication_processEvents := events
|}.

(** A preview of the same design with hard warnings [hard], the ceiling
    [limit], the evaluation [built] and the events [events]. *)
Definition preview_env (hard : bool) (limit : Z) (built : BuildResult)
    (events : MainWindow -> MainWindow) : Env := {|
  enableHardwarnings := hard;
  openCSGLimit := limit;
  designActionAutoReload_isChecked := false;
  viewActionAnimate_isChecked := false;
  fileChangedOnDisk := true;
  checkEditorModified := true;
  current_doc_size := 10;
  includesChanged := 0;
  parse_ok := true;
  parse_module := true;
  parse_error_pos := -1;
  handleDependencies := 0;
  would_have_thrown := false;
  hasIncludes := false;
  usesLibraries := false;
  ModuleCache_size := 1;
  instantiateWithFileContext := instantiated (Some tt);
  find_root_tag := fun _ => None;
  buildCSGTree := fun _ => built;
  renderingTime_elapsed := 0;
  QApplication_processEvents := events
|}.

Section Facts.

Context {collab : Collaborators}.

(** Runs the window through the branches of a pass. *)
Ltac branches :=
  repeat first
    [ reflexivity
    | progress cbn -[normalizelimit Z.div Z.mul Z.add Z.sub Z.ltb]
    | match goal with
      | |- context [if ?c then _ else _] => destruct c eqn:?
      end ].

(** The same, on an equation [E] for the window after the pass. *)
Ltac branches_in E :=
  repeat first
    [ progress cbn -[normalizelimit Z.div Z.mul Z.add Z.sub Z.ltb] in E
    | match type of E with
      | context [if ?c then _ else _] => destruct c eqn:?
      | context [match ?c with Some _ => _ | None => _ end] => destruct c eqn:?
      end ].

(** ** Messages and exceptions *)

Lemma PRINT_no_warning msg w :
  is_warning msg = false -> PRINT msg w = inl (write_message msg w).
Proof. intros H. unfold PRINT. rewrite H. reflexivity. Qed.

Lemma PRINT_off msg w :
  hardwarnings w = false -> PRINT msg w = inl (write_message msg w).
Proof.
  intros H. unfold PRINT.
  replace (hardwarnings (write_message msg w)) with false
    by (destruct w; symmetry; exact H).
  rewrite andb_false_r. reflexivity.
Qed.

Lemma PRINT_hard msg w :
  is_warning msg = true -> hardwarnings w = true ->
  PRINT msg w = inr (write_message msg w).
Proof.
  intros H1 H2. unfold PRINT.
  replace (hardwarnings (write_message msg w)) with true
    by (destruct w; symmetry; exact H2).
  rewrite H1. reflexivity.
Qed.

(** ** The events dispatched inside the progress callback *)

(** Whether the progress widget tells of a cancellation. *)
Definition cancelled (w : MainWindow) : bool :=
  match progresswidget w with
  | Some pw => wasCanceled pw
  | None => false
  end.

(** The events dispatched inside the callback concern the progress widget
    only: the queued [setValue], a click on its cancel button. *)
Definition events_on_progress_widget (env : Env) : Prop :=
  forall w,
    QApplication_processEvents env w
    = set_progresswidget (progresswidget (QApplication_processEvents env w)) w.

(** None of them cancels. *)
Definition events_do_not_cancel (env : Env) : Prop :=
  forall w, cancelled w = false -> cancelled (QApplication_processEvents env w) = false.

Lemma progress_fields_twice t2 p2 t1 p1 w :
  set_progressThrottle t2 (set_progresswidget p2
    (set_progressThrottle t1 (set_progresswidget p1 w)))
  = set_progressThrottle t2 (set_progresswidget p2 w).
Proof. destruct w. reflexivity. Qed.

Lemma progress_fields_same w :
  set_progressThrottle (progressThrottle w) (set_progresswidget (progresswidget w) w)
  = w.
Proof. destruct w. reflexivity. Qed.

(** The callback changes the throttle and the progress widget and nothing
    else. *)
Lemma report_func_frame env now count mark w :
  events_on_progress_widget env ->
  exists t pw,
    fst (report_func env now count mark w)
    = set_progressThrottle t (set_progresswidget pw w).
Proof.
  intros He. unfold report_func.
  destruct (hasExpired now w MIN_TIMEOUT).
  - destruct (progresswidget (set_progressThrottle now w)) as [pw|] eqn:Epw.
    + match goal with
      | |- context [if ?c then ?a else ?b] => set (w2 := if c then a else b)
      end.
      assert (E2 : exists pw2,
                 w2 = set_progressThrottle now (set_progresswidget pw2 w)).
      { subst w2. destruct (value pw <? _).
        - rewrite He. eexists. destruct w. reflexivity.
        - exists (progresswidget w). destruct w. reflexivity. }
      destruct E2 as [pw2 E2].
      exists now, pw2.
      destruct (progresswidget w2) as [pw'|]; [destruct (wasCanceled pw')|];
        exact E2.
    + exists now, (progresswidget w). destruct w. reflexivity.
  - exists (progressThrottle w), (progresswidget w).
    symmetry. apply progress_fields_same.
Qed.

Lemma report_run_frame env count calls : forall w,
  events_on_progress_widget env ->
  exists t pw,
    fst (report_run env count calls w)
    = set_progressThrottle t (set_progresswidget pw w).
Proof.
  induction calls as [|[now mark] calls IH]; intros w He.
  - exists (progressThrottle w), (progresswidget w).
    symmetry. apply progress_fields_same.
  - cbn [report_run].
    destruct (report_func_frame env now count mark w He) as (t & pw & E).
    destruct (report_func env now count mark w) as [w1 [e|]]; cbn [fst] in E |- *.
    + exists t, pw. exact E.
    + destruct (IH w1 He) as (t2 & pw2 & E2).
      exists t2, pw2. rewrite E2, E. apply progress_fields_twice.
Qed.

(** Without a cancellation the callback does not throw. *)
Lemma report_func_not_cancelled env now count mark w :
  events_do_not_cancel env -> cancelled w = false ->
  snd (report_func env now count mark w) = None
  /\ cancelled (fst (report_func env now count mark w)) = false.
Proof.
  intros Hc Hw. unfold report_func.
  destruct (hasExpired now w MIN_TIMEOUT); [|split; [reflexivity|exact Hw]].
  assert (Hw1 : cancelled (set_progressThrottle now w) = false)
    by (destruct w; exact Hw).
  destruct (progresswidget (set_progressThrottle now w)) as [pw|] eqn:Epw;
    [|split; [reflexivity|exact Hw1]].
  match goal with
  | |- context [if ?c then ?a else ?b] => set (w2 := if c then a else b)
  end.
  assert (H2 : cancelled w2 = false).
  { subst w2. destruct (value pw <? _); [|exact Hw1].
    apply Hc. unfold cancelled in Hw1 |- *. rewrite Epw in Hw1.
    destruct w. cbn. exact Hw1. }
  unfold cancelled in H2. destruct (progresswidget w2) as [pw'|] eqn:E2.
  - rewrite H2. split; [reflexivity|]. cbn [fst]. unfold cancelled.
    rewrite E2. exact H2.
  - split; [reflexivity|]. cbn [fst]. unfold cancelled. rewrite E2. reflexivity.
Qed.

Lemma report_run_not_cancelled env count calls : forall w,
  events_do_not_cancel env -> cancelled w = false ->
  snd (report_run env count calls w) = None.
Proof.
  induction calls as [|[now mark] calls IH]; intros w Hc Hw; [reflexivity|].
  cbn [report_run].
  destruct (report_func_not_cancelled env now count mark w Hc Hw) as [H1 H2].
  destruct (report_func env now count mark w) as [w1 e]. cbn [fst snd] in H1, H2.
  subst e. apply IH; assumption.
Qed.

(** ** The evaluation *)

(** The window on which [buildCSGTree] is called, in a pass that is entered
    with event processing switched off. *)
Definition evaluation_window (env : Env) (w : MainWindow) : MainWindow :=
  set_progresswidget (Some {| value := 0; wasCanceled := false |})
    (write_message (text "Compiling design (CSG Products generation)...")
       (set_hardwarnings (enableHardwarnings env) w)).

(** What the run of callbacks of the pass ends in. *)
Definition callbacks (env : Env) (node : AbstractNode) (w : MainWindow)
    : MainWindow * option Exception :=
  report_run env (progress_report_count (buildCSGTree env node))
    (progress_calls (buildCSGTree env node)) (evaluation_window env w).

Lemma processEvents_off env w : procevents w = false -> processEvents env w = w.
Proof. intros H. unfold processEvents. rewrite H. reflexivity. Qed.

(** [compileCSG] up to the normalization, when the evaluation returns
    [result] or throws it: the window differs from the one the pass was
    entered with in its messages, the throttle and the root term. *)
Lemma compileCSG_evaluated env w node :
  procevents w = false ->
  root_node w = Some node ->
  events_on_progress_widget env ->
  exists t,
    let w1 :=
      set_progressThrottle t
        (set_progresswidget None
           (write_message (text "Compiling design (CSG Products generation)...")
              (set_hardwarnings (enableHardwarnings env) w))) in
    let products (w2 : MainWindow) :=
      compileCSG_products env (buildCSGTree env node)
        (write_message (text "Compiling design (CSG Products normalization)...") w2) in
    let finish (r : MainWindow + MainWindow) :=
      match r with
      | inl w3 => w3
      | inr w3 => exceptionCleanup env w3
      end in
    compileCSG env w
    = finish
        match snd (callbacks env node w) with
        | Some ProgressCancelException =>
            products (write_message (text "CSG generation cancelled.") w1)
        | Some HardWarningException =>
            products
              (write_message
                 (text "CSG generation cancelled due to hardwarning being enabled.") w1)
        | None =>
            match build_root (buildCSGTree env node) with
            | inl term =>
                products
                  (write_message CGALCache_print
                     (write_message GeometryCache_print (set_csgRoot term w1)))
            | inr ProgressCancelException =>
                products (write_message (text "CSG generation cancelled.") w1)
            | inr HardWarningException =>
                products
                  (write_message
                     (text "CSG generation cancelled due to hardwarning being enabled.")
                     w1)
            end
        end.
Proof.
  intros Hp Hn He.
  destruct (report_run_frame env (progress_report_count (buildCSGTree env node))
              (progress_calls (buildCSGTree env node)) (evaluation_window env w) He)
    as (t & pw & E).
  exists t. cbv zeta.
  unfold callbacks.
  unfold compileCSG. 
  replace (root_node (set_hardwarnings (enableHardwarnings env) w)) with (Some node)
    by (destruct w; symmetry; exact Hn).
  unfold compileCSG_try.
  rewrite PRINT_no_warning by reflexivity. cbn [and_then].
  rewrite processEvents_off by (destruct w; exact Hp).
  fold (evaluation_window env w).
  unfold compileCSG_evaluate.
  rewrite processEvents_off by (destruct w; exact Hp).
  destruct (report_run env (progress_report_count (buildCSGTree env node))
              (progress_calls (buildCSGTree env node)) (evaluation_window env w))
    as [w1 thrown].
  cbn [fst snd] in E |- *. subst w1.
  destruct thrown as [[]|]; [| |destruct (build_root (buildCSGTree env node)) as [term|[]]];
    repeat first
      [ rewrite PRINT_no_warning by reflexivity
      | progress cbn [and_then]
      | match goal with
        | |- context [processEvents env ?x] =>
            lazymatch x with
            | context [processEvents] => fail
            | _ => rewrite (processEvents_off env x) by (destruct w; exact Hp)
            end
        end ];
    destruct w; reflexivity.
Qed.

(** ** A term the normalizer gives up on *)

Definition normalization_warning : Message :=
  text "WARNING: CSG normalization resulted in an empty tree".

(** The pass of [compileCSG] whose evaluation returns a root term, up to the
    normalization. *)
Lemma compileCSG_with_root_term env w node term :
  procevents w = false ->
  root_node w = Some node ->
  events_on_progress_widget env ->
  events_do_not_cancel env ->
  build_root (buildCSGTree env node) = inl term ->
  exists t,
    compileCSG env w
    = match
        compileCSG_products env (buildCSGTree env node)
          (write_message (text "Compiling design (CSG Products normalization)...")
             (write_message CGALCache_print
                (write_message GeometryCache_print
                   (set_csgRoot term
                      (set_progressThrottle t
                         (set_progresswidget None
                            (write_message
                               (text "Compiling design (CSG Products generation)...")
                               (set_hardwarnings (enableHardwarnings env) w)))))))) with
      | inl w3 => w3
      | inr w3 => exceptionCleanup env w3
      end.
Proof.
  intros Hp Hn He Hc Hb.
  destruct (compileCSG_evaluated env w node Hp Hn He) as [t E]. cbv zeta in E.
  exists t. rewrite E. unfold callbacks.
  rewrite report_run_not_cancelled; [|exact Hc|destruct w; reflexivity].
  rewrite Hb. reflexivity.
Qed.

(** C1 (amended).  In a preview pass ([compileCSG], entered with event
    processing switched off as [compileDone] leaves it, and with the events
    dispatched inside the progress callback concerning the progress widget
    only and not cancelling) whose CSG evaluation yields a root term that
    the normalizer answers with null, the root product set is reset and
    stays empty and the warning is written to the sink.  With hard warnings
    off the pass then runs to its end: the highlight and background product
    sets are compiled from their terms, both renderers are built over the
    empty root product set, "Compile and preview finished." and the
    rendering time are the last messages, and the GUI lock is left as it
    is.  With hard warnings on the warning aborts the pass through
    [exceptionCleanup]: "Execution aborted" is written, no highlight or
    background product set and no renderer is made, and the GUI lock is
    released. *)
Theorem C1_normalizer_null_is_empty_result env w node term :
  procevents w = false ->
  root_node w = Some node ->
  events_on_progress_widget env ->
  events_do_not_cancel env ->
  build_root (buildCSGTree env node) = inl (Some term) ->
  CSGTreeNormalizer_normalize (normalizelimit env) term = None ->
  let w' := compileCSG env w in
  let highlights := Z.of_nat (List.length (highlight_terms (buildCSGTree env node))) in
  let background := Z.of_nat (List.length (background_terms (buildCSGTree env node))) in
  let renderer :=
    {| renderer_root_products := None;
       renderer_highlights_products := highlights_products w';
       renderer_background_products := background_products w' |} in
  (csgRoot w' = Some term /\ normalizedRoot w' = None /\ root_products w' = None)
  /\ (enableHardwarnings env = false ->
      console w' =
      console w
      ++ [text "Compiling design (CSG Products generation)...";
          GeometryCache_print; CGALCache_print;
          text "Compiling design (CSG Products normalization)...";
          normalization_warning]
      ++ (if 0 <? highlights then [compiling_highlights highlights] else [])
      ++ (if 0 <? background then [compiling_background background] else [])
      ++ [normalized_tree_elements 0;
          text "Compile and preview finished.";
          total_rendering_time (renderingTime_elapsed env / 1000)]
      /\ highlights_products w'
         = (if 0 <? highlights
            then Some (import_terms (normalizelimit env)
                         (highlight_terms (buildCSGTree env node)) new_CSGProducts)
            else None)
      /\ background_products w'
         = (if 0 <? background
            then Some (import_terms (normalizelimit env)
                         (background_terms (buildCSGTree env node)) new_CSGProducts)
            else None)
      /\ (opencsgRenderer w' = Some renderer /\ thrownTogetherRenderer w' = Some renderer)
      /\ (gui_locked w' = gui_locked w /\ autoReloadTimer w' = autoReloadTimer w))
  /\ (enableHardwarnings env = true ->
      console w' =
      console w
      ++ [text "Compiling design (CSG Products generation)...";
          GeometryCache_print; CGALCache_print;
          text "Compiling design (CSG Products normalization)...";
          normalization_warning;
          text "Execution aborted"; text " "]
      /\ (highlights_products w' = highlights_products w
          /\ background_products w' = background_products w)
      /\ (opencsgRenderer w' = opencsgRenderer w
          /\ thrownTogetherRenderer w' = thrownTogetherRenderer w)
      /\ gui_locked w' = uint (gui_locked w - 1)
      /\ autoReloadTimer w'
         = (if designActionAutoReload_isChecked env then true else autoReloadTimer w)).
Proof.
  intros Hp Hn He Hc Hb Hnorm. cbv zeta.
  destruct (compileCSG_with_root_term env w node (Some term) Hp Hn He Hc Hb)
    as [t E].
  remember (compileCSG env w) as w' eqn:Ew. clear Ew. rename E into Ew.
  destruct w. cbn in Hp, Hn. subst procevents0 root_node0.
  unfold compileCSG_products, PRINT, exceptionCleanup, PRINT_returns in Ew.
  cbn -[normalizelimit Z.div Z.ltb Z.of_nat import_terms uint] in Ew.
  rewrite Hnorm in Ew.
  cbn -[normalizelimit Z.div Z.ltb Z.of_nat import_terms uint] in Ew.
  destruct (enableHardwarnings env) eqn:Hhw;
    cbn -[normalizelimit Z.div Z.ltb Z.of_nat import_terms uint] in Ew.
  - (* hard warnings on *)
    destruct (designActionAutoReload_isChecked env); subst w';
      cbn -[normalizelimit Z.div Z.ltb Z.of_nat import_terms uint];
      rewrite <- ?app_assoc;
      (split; [repeat split; reflexivity|]);
      (split; [discriminate|]); intros _; repeat split; reflexivity.
  - destruct (0 <? Z.of_nat (List.length (highlight_terms (buildCSGTree env node))));
      destruct (0 <? Z.of_nat (List.length (background_terms (buildCSGTree env node))));
      cbn -[normalizelimit Z.div Z.ltb Z.of_nat import_terms uint] in Ew; subst w';
      cbn -[normalizelimit Z.div Z.ltb Z.of_nat import_terms uint];
      rewrite <- ?app_assoc;
      (split; [repeat split; reflexivity|]);
      (split; [|discriminate]); intros _; repeat split; reflexivity.
Qed.

(** ** The limit given to the normalizer, continued *)

Lemma normalizelimit_below_2_31 env :
  0 <= openCSGLimit env < 2 ^ 31 -> normalizelimit env = 2 * openCSGLimit env.
Proof.
  intros H. unfold normalizelimit, uint. apply Z.mod_small. lia.
Qed.

(** ** Requests that find the GUI locked *)

Lemma isLocked_set_preview_requested b w :
  GuiLocker_isLocked (set_preview_requested b w) = GuiLocker_isLocked w.
Proof. destruct w. reflexivity. Qed.

(** C2 (amended).  A request that finds the GUI locked starts no compilation:
    [actionReloadRenderPreview] and [actionRender] leave the window as it
    is, and [actionRenderPreview] does nothing but set its
    [preview_requested] flag.  That flag is read by a pass of
    [actionRenderPreview] when its [compile] call has returned: if it is set
    then, the pass queues one more [actionRenderPreview]. *)
Theorem C2_requests_while_locked env w :
  GuiLocker_isLocked w = true ->
  actionReloadRenderPreview env w = w
  /\ actionRender env w = w
  /\ actionRenderPreview env w = set_preview_requested true w
  /\ (forall env0 w0,
        GuiLocker_isLocked w0 = false ->
        let w1 := actionRenderPreview_pass env0 (set_preview_requested true w0) in
        actionRenderPreview env0 w0 =
        if preview_requested w1
        then set_singleShot_actionRenderPreview
               (singleShot_actionRenderPreview w1 + 1) w1
        else w1).
Proof.
  intros Hl. split; [|split; [|split]].
  - unfold actionReloadRenderPreview. rewrite Hl. reflexivity.
  - unfold actionRender. rewrite Hl. reflexivity.
  - unfold actionRenderPreview. rewrite isLocked_set_preview_requested, Hl.
    reflexivity.
  - intros env0 w0 Hu. unfold actionRenderPreview.
    rewrite isLocked_set_preview_requested, Hu. reflexivity.
Qed.

(** ** The cascade after a reload *)










(** ** The progress callback *)

(** The value the progress widget shows. *)
Definition progress_value (w : MainWindow) : Z :=
  match progresswidget w with
  | Some pw => value pw
  | None => 0
  end.

(** The events dispatched inside the callback (the queued [setValue], a
    click on the cancel button) leave the throttle and the value shown as
    the callback set them. *)
Definition progress_neutral (env : Env) : Prop :=
  forall w,
    progressThrottle (QApplication_processEvents env w) = progressThrottle w
    /\ progress_value (QApplication_processEvents env w) = progress_value w.

(** The times, among the callbacks of a run, at which the throttle let the
    callback through; the value shown changes at no other time. *)
Fixpoint report_times (env : Env) (progress_report_count : Z)
    (calls : list (Z * Z)) (w : MainWindow) : list Z :=
  match calls with
  | [] => []
  | (now, mark) :: calls' =>
      (if hasExpired now w MIN_TIMEOUT then [now] else [])
      ++ match report_func env now progress_report_count mark w with
         | (_, Some _) => []
         | (w', None) => report_times env progress_report_count calls' w'
         end
  end.

(** Any two of the times are more than [MIN_TIMEOUT] apart. *)
Definition spaced (times : list Z) : Prop :=
  StronglySorted (fun a b => a + MIN_TIMEOUT < b) times.

Definition in_window (t : Z) (x : Z) : bool := (t <=? x) && (x <=? t + 1000).

Lemma report_func_throttled env now count mark w :
  hasExpired now w MIN_TIMEOUT = false ->
  report_func env now count mark w = (w, None).
Proof. intros H. unfold report_func. rewrite H. reflexivity. Qed.

Lemma progressThrottle_set_progressThrottle t w :
  progressThrottle (set_progressThrottle t w) = t.
Proof. destruct w. reflexivity. Qed.

Lemma progresswidget_set_progressThrottle t w :
  progresswidget (set_progressThrottle t w) = progresswidget w.
Proof. destruct w. reflexivity. Qed.

Lemma progressThrottle_set_progresswidget pw w :
  progressThrottle (set_progresswidget pw w) = progressThrottle w.
Proof. destruct w. reflexivity. Qed.

Lemma progresswidget_set_progresswidget pw w :
  progresswidget (set_progresswidget pw w) = pw.
Proof. destruct w. reflexivity. Qed.

Lemma report_func_let_through env now count mark w :
  progress_neutral env ->
  hasExpired now w MIN_TIMEOUT = true ->
  progressThrottle (fst (report_func env now count mark w)) = now
  /\ progress_value w <= progress_value (fst (report_func env now count mark w)).
Proof.
  intros Hn He. unfold report_func. rewrite He.
  rewrite progresswidget_set_progressThrottle.
  unfold progress_value at 1.
  destruct (progresswidget w) as [pw|] eqn:Epw.
  - set (v := int_of_double _). set (permille := if v <? 1000 then v else 999).
    destruct (value pw <? permille) eqn:Eup.
    + apply Z.ltb_lt in Eup.
      set (w1 := set_progresswidget _ (set_progressThrottle now w)).
      destruct (Hn w1) as [Ht Hv].
      assert (Ht1 : progressThrottle w1 = now).
      { subst w1. rewrite progressThrottle_set_progresswidget.
        apply progressThrottle_set_progressThrottle. }
      assert (Hv1 : progress_value w1 = permille).
      { subst w1. unfold progress_value.
        rewrite progresswidget_set_progresswidget. reflexivity. }
      assert (Hres : forall r : MainWindow * option Exception,
                fst r = QApplication_processEvents env w1 ->
                progressThrottle (fst r) = now /\ value pw <= progress_value (fst r)).
      { intros r ->. rewrite Ht, Hv, Ht1, Hv1. lia. }
      destruct (progresswidget (QApplication_processEvents env w1)) as [pw'|];
        [destruct (wasCanceled pw')|]; apply Hres; reflexivity.
    + apply Z.ltb_ge in Eup.
      rewrite progresswidget_set_progressThrottle, Epw.
      assert (Hres : forall r : MainWindow * option Exception,
                fst r = set_progressThrottle now w ->
                progressThrottle (fst r) = now /\ value pw <= progress_value (fst r)).
      { intros r ->. rewrite progressThrottle_set_progressThrottle.
        unfold progress_value. rewrite progresswidget_set_progressThrottle, Epw.
        lia. }
      destruct (wasCanceled pw); apply Hres; reflexivity.
  - cbn [fst]. rewrite progressThrottle_set_progressThrottle.
    unfold progress_value. rewrite progresswidget_set_progressThrottle, Epw.
    lia.
Qed.

Lemma report_func_monotone env now count mark w :
  progress_neutral env ->
  progress_value w <= progress_value (fst (report_func env now count mark w)).
Proof.
  intros Hn. destruct (hasExpired now w MIN_TIMEOUT) eqn:He.
  - apply report_func_let_through; assumption.
  - rewrite report_func_throttled by assumption. cbn. lia.
Qed.

Lemma report_run_monotone env count calls : forall w,
  progress_neutral env ->
  progress_value w <= progress_value (fst (report_run env count calls w)).
Proof.
  induction calls as [|[now mark] calls IH]; intros w Hn; cbn [report_run].
  - cbn. lia.
  - pose proof (report_func_monotone env now count mark w Hn) as H1.
    destruct (report_func env now count mark w) as [w' [e|]]; cbn [fst] in *.
    + exact H1.
    + specialize (IH w' Hn). lia.
Qed.

Lemma spaced_cons a times :
  spaced times -> Forall (fun b => a + MIN_TIMEOUT < b) times -> spaced (a :: times).
Proof. intros. constructor; assumption. Qed.

Lemma report_times_spaced env count calls : forall w,
  progress_neutral env ->
  spaced (progressThrottle w :: report_times env count calls w).
Proof.
  induction calls as [|[now mark] calls IH]; intros w Hn; cbn [report_times].
  - repeat constructor.
  - destruct (hasExpired now w MIN_TIMEOUT) eqn:He.
    + destruct (report_func_let_through env now count mark w Hn He) as [Ht _].
      unfold hasExpired in He. apply Z.ltb_lt in He.
      destruct (report_func env now count mark w) as [w' [e|]]; cbn [fst app] in *.
      * unfold spaced, MIN_TIMEOUT in *. repeat constructor. lia.
      * specialize (IH w' Hn). rewrite Ht in IH.
        unfold spaced, MIN_TIMEOUT in *.
        apply StronglySorted_inv in IH as IH'. destruct IH' as [_ Hall].
        constructor; [exact IH|]. constructor; [lia|].
        eapply Forall_impl; [|exact Hall]. cbn. intros. lia.
    + rewrite report_func_throttled by assumption. cbn [app]. apply IH, Hn.
Qed.

Lemma spaced_filter f times : spaced times -> spaced (filter f times).
Proof.
  induction 1 as [|a times Hs IH Ha]; cbn; [constructor|].
  destruct (f a); [|exact IH].
  constructor; [exact IH|].
  apply Forall_forall. intros b Hb. apply filter_In in Hb. destruct Hb as [Hb _].
  rewrite Forall_forall in Ha. apply Ha, Hb.
Qed.

Lemma spaced_span times : spaced times -> forall lo hi,
  Forall (fun x => lo <= x <= hi) times ->
  times <> [] ->
  lo + (MIN_TIMEOUT + 1) * (Z.of_nat (List.length times) - 1) <= hi.
Proof.
  unfold spaced, MIN_TIMEOUT.
  induction 1 as [|a times Hs IH Ha]; intros lo hi Hall Hne; [congruence|].
  inversion Hall as [|? ? Hab Hall']; subst.
  destruct times as [|b times].
  - cbn. lia.
  - assert (Hall2 : Forall (fun x => a + 201 <= x <= hi) (b :: times)).
    { rewrite Forall_forall in *. intros x Hx.
      specialize (Ha x Hx). specialize (Hall' x Hx).
      unfold MIN_TIMEOUT in Ha. lia. }
    specialize (IH (a + 201) hi Hall2 ltac:(discriminate)).
    cbn [List.length] in *. lia.
Qed.

(** At most five of the times fall in any second. *)
Lemma spaced_per_second times t :
  spaced times -> (List.length (filter (in_window t) times) <= 5)%nat.
Proof.
  intros Hs.
  destruct (filter (in_window t) times) as [|a l] eqn:E; [cbn; lia|].
  pose proof (spaced_filter (in_window t) times Hs) as Hf.
  assert (Hall : Forall (fun x => t <= x <= t + 1000) (filter (in_window t) times)).
  { apply Forall_forall. intros x Hx. apply filter_In in Hx. destruct Hx as [_ Hx].
    unfold in_window in Hx. apply andb_prop in Hx. destruct Hx as [H1 H2].
    apply Z.leb_le in H1. apply Z.leb_le in H2. lia. }
  rewrite E in Hf, Hall.
  pose proof (spaced_span _ Hf t (t + 1000) Hall ltac:(discriminate)) as H.
  unfold MIN_TIMEOUT in H. lia.
Qed.

(** The value the callback computes from the mark. *)
Definition permille_of (count mark : Z) : Z :=
  let v := int_of_double
             ((double_of_int mark * 1000) / double_of_int count)%float in
  if v <? 1000 then v else 999.

(** The window in which a callback that acts looks for a cancellation: the
    throttle is started again, and if the value grows it is set and the
    events are dispatched. *)
Definition observed (env : Env) (now count mark : Z) (w : MainWindow) : MainWindow :=
  match progresswidget w with
  | Some pw =>
      if value pw <? permille_of count mark then
        QApplication_processEvents env
          (set_progresswidget
             (Some {| value := permille_of count mark; wasCanceled := wasCanceled pw |})
             (set_progressThrottle now w))
      else set_progressThrottle now w
  | None => set_progressThrottle now w
  end.

Lemma report_func_acts env now count mark w :
  hasExpired now w MIN_TIMEOUT = true ->
  report_func env now count mark w
  = (observed env now count mark w,
     if negb (match progresswidget w with Some _ => true | None => false end)
     then None
     else if cancelled (observed env now count mark w)
          then Some ProgressCancelException else None).
Proof.
  intros He. unfold report_func, observed, permille_of, cancelled. rewrite He.
  rewrite progresswidget_set_progressThrottle.
  destruct (progresswidget w) as [pw|] eqn:Epw; [|reflexivity].
  cbn [negb].
  match goal with
  | |- context [if ?c then ?a else ?b] => set (w2 := if c then a else b)
  end.
  destruct (progresswidget w2) as [pw'|]; [destruct (wasCanceled pw')|];
    reflexivity.
Qed.

Lemma report_func_cancels env now count mark w :
  snd (report_func env now count mark w) = Some ProgressCancelException
  <-> hasExpired now w MIN_TIMEOUT = true
      /\ progresswidget w <> None
      /\ cancelled (observed env now count mark w) = true.
Proof.
  destruct (hasExpired now w MIN_TIMEOUT) eqn:He.
  - rewrite (report_func_acts env now count mark w He). cbn [snd].
    destruct (progresswidget w) as [pw|]; cbn [negb].
    + destruct (cancelled (observed env now count mark w)); split.
      * intros _. repeat split; congruence.
      * reflexivity.
      * discriminate.
      * intros (_ & _ & H). discriminate.
    + split; [discriminate|]. intros (_ & H & _). congruence.
  - rewrite report_func_throttled by exact He. cbn.
    split; [discriminate|]. intros [H _]. discriminate.
Qed.

(** The pass of [compileCSG] whose evaluation is unwound by the
    cancellation: the root term is not set and no root products are made,
    and the pass runs on to its end. *)
Lemma compileCSG_cancelled env w node :
  procevents w = false ->
  root_node w = Some node ->
  csgRoot w = None ->
  root_products w = None ->
  events_on_progress_widget env ->
  snd (callbacks env node w) = Some ProgressCancelException ->
  let w' := compileCSG env w in
  let highlights := Z.of_nat (List.length (highlight_terms (buildCSGTree env node))) in
  let background := Z.of_nat (List.length (background_terms (buildCSGTree env node))) in
  let renderer :=
    {| renderer_root_products := None;
       renderer_highlights_products := highlights_products w';
       renderer_background_products := background_products w' |} in
  (csgRoot w' = None /\ normalizedRoot w' = normalizedRoot w /\ root_products w' = None)
  /\ console w' =
     console w
     ++ [text "Compiling design (CSG Products generation)...";
         text "CSG generation cancelled.";
         text "Compiling design (CSG Products normalization)..."]
     ++ (if 0 <? highlights then [compiling_highlights highlights] else [])
     ++ (if 0 <? background then [compiling_background background] else [])
     ++ [normalized_tree_elements 0;
         text "Compile and preview finished.";
         total_rendering_time (renderingTime_elapsed env / 1000)]
  /\ highlights_products w'
     = (if 0 <? highlights
        then Some (import_terms (normalizelimit env)
                     (highlight_terms (buildCSGTree env node)) new_CSGProducts)
        else None)
  /\ background_products w'
     = (if 0 <? background
        then Some (import_terms (normalizelimit env)
                     (background_terms (buildCSGTree env node)) new_CSGProducts)
        else None)
  /\ (opencsgRenderer w' = Some renderer /\ thrownTogetherRenderer w' = Some renderer)
  /\ gui_locked w' = gui_locked w.
Proof.
  intros Hp Hn Hc Hr He Hx. cbv zeta.
  destruct (compileCSG_evaluated env w node Hp Hn He) as [t E]. cbv zeta in E.
  rewrite Hx in E.
  remember (compileCSG env w) as w' eqn:Ew. clear Ew. rename E into Ew.
  destruct w. cbn in Hp, Hn, Hc, Hr. subst procevents0 root_node0 csgRoot0 root_products0.
  unfold compileCSG_products, PRINT in Ew.
  cbn -[normalizelimit Z.div Z.ltb Z.of_nat import_terms uint] in Ew.
  destruct (0 <? Z.of_nat (List.length (highlight_terms (buildCSGTree env node))));
    destruct (0 <? Z.of_nat (List.length (background_terms (buildCSGTree env node))));
    cbn -[normalizelimit Z.div Z.ltb Z.of_nat import_terms uint] in Ew; subst w';
    cbn -[normalizelimit Z.div Z.ltb Z.of_nat import_terms uint];
    rewrite <- ?app_assoc;
    repeat split; reflexivity.
Qed.

(** C7 (amended).  Within one evaluation run, with the events dispatched
    inside the callback leaving the throttle and the value shown alone: the
    callback acts only when more than 200 ms have passed since it last
    acted, so that the times at which it acts are more than 200 ms apart and
    at most five of them fall in any second; the value shown never
    decreases.  The callback throws [ProgressCancelException] exactly when
    it acts, there is a progress widget, and the widget is cancelled once
    the value is set and the events are dispatched; so it throws whenever it
    acts on a widget that was cancelled before, unless an event takes the
    cancellation back, and it leaves the widget cancelled.  The exception
    ends the run of callbacks and unwinds the evaluation: the root term is
    not set and no root products are made.  It does not abort the pass:
    "CSG generation cancelled." is written, and the pass goes on to compile
    the highlight and background product sets, to build both renderers and
    to write "Compile and preview finished.", with the GUI lock left as it
    is. *)
Theorem C7_progress_throttled_monotone_cancellable env count calls w :
  progress_neutral env ->
  (forall now mark w0,
      hasExpired now w0 MIN_TIMEOUT = false ->
      report_func env now count mark w0 = (w0, None))
  /\ spaced (progressThrottle w :: report_times env count calls w)
  /\ (forall t,
        (List.length (filter (in_window t) (report_times env count calls w)) <= 5)%nat)
  /\ progress_value w <= progress_value (fst (report_run env count calls w))
  /\ (forall now mark w0,
        progress_value w0 <= progress_value (fst (report_func env now count mark w0)))
  /\ (forall now mark w0,
        (snd (report_func env now count mark w0) = Some ProgressCancelException
         <-> hasExpired now w0 MIN_TIMEOUT = true
             /\ progresswidget w0 <> None
             /\ cancelled (observed env now count mark w0) = true)
        /\ (hasExpired now w0 MIN_TIMEOUT = true ->
            cancelled w0 = true ->
            (forall w1, cancelled w1 = true ->
                        cancelled (QApplication_processEvents env w1) = true) ->
            snd (report_func env now count mark w0) = Some ProgressCancelException)
        /\ (forall e,
              snd (report_func env now count mark w0) = Some e ->
              e = ProgressCancelException
              /\ fst (report_func env now count mark w0) = observed env now count mark w0
              /\ cancelled (fst (report_func env now count mark w0)) = true))
  /\ (forall now mark calls' w0 e,
        snd (report_func env now count mark w0) = Some e ->
        report_run env count ((now, mark) :: calls') w0
        = (fst (report_func env now count mark w0), Some e))
  /\ (forall env0 w0 node,
        procevents w0 = false ->
        root_node w0 = Some node ->
        csgRoot w0 = None ->
        root_products w0 = None ->
        events_on_progress_widget env0 ->
        snd (callbacks env0 node w0) = Some ProgressCancelException ->
        let w' := compileCSG env0 w0 in
        let highlights :=
          Z.of_nat (List.length (highlight_terms (buildCSGTree env0 node))) in
        let background :=
          Z.of_nat (List.length (background_terms (buildCSGTree env0 node))) in
        let renderer :=
          {| renderer_root_products := None;
             renderer_highlights_products := highlights_products w';
             renderer_background_products := background_products w' |} in
        (csgRoot w' = None /\ normalizedRoot w' = normalizedRoot w0
         /\ root_products w' = None)
        /\ console w' =
           console w0
           ++ [text "Compiling design (CSG Products generation)...";
               text "CSG generation cancelled.";
               text "Compiling design (CSG Products normalization)..."]
           ++ (if 0 <? highlights then [compiling_highlights highlights] else [])
           ++ (if 0 <? background then [compiling_background background] else [])
           ++ [normalized_tree_elements 0;
               text "Compile and preview finished.";
               total_rendering_time (renderingTime_elapsed env0 / 1000)]
        /\ highlights_products w'
           = (if 0 <? highlights
              then Some (import_terms (normalizelimit env0)
                           (highlight_terms (buildCSGTree env0 node)) new_CSGProducts)
              else None)
        /\ background_products w'
           = (if 0 <? background
              then Some (import_terms (normalizelimit env0)
                           (background_terms (buildCSGTree env0 node)) new_CSGProducts)
              else None)
        /\ (opencsgRenderer w' = Some renderer
            /\ thrownTogetherRenderer w' = Some renderer)
        /\ gui_locked w' = gui_locked w0).
Proof.
  intros Hn.
  split; [intros; apply report_func_throttled; assumption|].
  pose proof (report_times_spaced env count calls w Hn) as Hs.
  split; [exact Hs|].
  split.
  { intros t. apply spaced_per_second.
    apply StronglySorted_inv in Hs. apply Hs. }
  split; [apply report_run_monotone; assumption|].
  split; [intros; apply report_func_monotone; assumption|].
  split.
  { intros now mark w0. split; [apply report_func_cancels|]. split.
    - intros He Hc Hk. apply report_func_cancels.
      split; [exact He|]. unfold cancelled in Hc.
      destruct (progresswidget w0) as [pw|] eqn:Epw; [|discriminate].
      split; [discriminate|].
      unfold observed. rewrite Epw.
      destruct (value pw <? permille_of count mark).
      + apply Hk. unfold cancelled. destruct w0. cbn in *. exact Hc.
      + unfold cancelled. rewrite progresswidget_set_progressThrottle, Epw. exact Hc.
    - intros e H.
      destruct (hasExpired now w0 MIN_TIMEOUT) eqn:He.
      + rewrite (report_func_acts env now count mark w0 He) in H |- *.
        cbn [fst snd] in *.
        destruct (progresswidget w0); cbn [negb] in H; [|discriminate].
        destruct (cancelled (observed env now count mark w0)); [|discriminate].
        inversion H. repeat split; reflexivity.
      + rewrite report_func_throttled in H by exact He. discriminate. }
  split.
  { intros now mark calls' w0 e H. cbn [report_run].
    destruct (report_func env now count mark w0) as [w' [e'|]]; cbn in *;
      congruence. }
  intros env0 w0 node Hp Hr Hc Hrp He Hx.
  exact (compileCSG_cancelled env0 w0 node Hp Hr Hc Hrp He Hx).
Qed.

End Facts.

(** ** Inputs on which the specification as written does not hold *)

(** A design of a thousand leaves under the ceiling 100, which the
    normalizer answers with null: with hard warnings on, and with hard
    warnings off and a highlighted object of seven leaves. *)
Definition hard_overflow_env : Env :=
  preview_env true 100
    {| progress_report_count := 1; progress_calls := [];
       build_root := inl (Some 1000); highlight_terms := []; background_terms := [] |}
    (fun w => w).

Definition highlight_overflow_env : Env :=
  preview_env false 100
    {| progress_report_count := 1; progress_calls := [];
       build_root := inl (Some 1000); highlight_terms := [7]; background_terms := [] |}
    (fun w => w).

(** C1 as written fails in two ways.  With hard warnings on, the warning
    of the normalization aborts the pass: "Execution aborted" is written
    and no renderer is built, so the null of the normalizer is a failure
    and the pass does not go on to its end.  With hard warnings off, the
    pass goes on and compiles the highlights: it ends with a compiled
    product set and with both renderers. *)
Lemma C1_counterexample_abort_and_highlights :
  (build_root (buildCSGTree hard_overflow_env tt) = inl (Some 1000)
   /\ CSGTreeNormalizer_normalize (normalizelimit hard_overflow_env) 1000 = None
   /\ root_products (compileCSG hard_overflow_env instantiated_window) = None
   /\ In (text "Execution aborted")
         (console (compileCSG hard_overflow_env instantiated_window))
   /\ ~ In (text "Compile and preview finished.")
           (console (compileCSG hard_overflow_env instantiated_window))
   /\ thrownTogetherRenderer (compileCSG hard_overflow_env instantiated_window) = None)
  /\ (build_root (buildCSGTree highlight_overflow_env tt) = inl (Some 1000)
      /\ CSGTreeNormalizer_normalize (normalizelimit highlight_overflow_env) 1000 = None
      /\ root_products (compileCSG highlight_overflow_env instantiated_window) = None
      /\ highlights_products (compileCSG highlight_overflow_env instantiated_window)
         = Some [200]
      /\ thrownTogetherRenderer (compileCSG highlight_overflow_env instantiated_window)
         = Some {| renderer_root_products := None;
                   renderer_highlights_products := Some [200];
                   renderer_background_products := None |}).
Proof.
  split.
  - repeat split; try reflexivity.
    + vm_compute. tauto.
    + vm_compute. intros H.
      repeat (destruct H as [H|H]; [discriminate H|]). exact H.
  - repeat split; reflexivity.
Qed.

(** Events that cancel: the user clicks the cancel button of the progress
    widget. *)
Definition click_cancel (w : MainWindow) : MainWindow :=
  match progresswidget w with
  | Some pw => set_progresswidget (Some {| value := value pw; wasCanceled := true |}) w
  | None => w
  end.

(** A preview of a design with a highlighted object, whose evaluation
    calls back once, at 300 ms and half way, while the user clicks on
    cancel. *)
Definition cancelled_preview_env : Env :=
  preview_env false 100000
    {| progress_report_count := 10; progress_calls := [(300, 5)];
       build_root := inl (Some 1); highlight_terms := [7]; background_terms := [] |}
    click_cancel.

(** C7 as written fails in its last part.  The cancellation observed
    inside the callback unwinds the evaluation, and the pass does not stop
    there: the preview ends as a preview that was not cancelled does, with
    the highlights compiled, both renderers built, "Compile and preview
    finished." written and the GUI lock released. *)
Lemma C7_counterexample_cancelled_pass_goes_on :
  snd (callbacks cancelled_preview_env tt instantiated_window)
  = Some ProgressCancelException
  /\ In (text "CSG generation cancelled.")
        (console (compileCSG cancelled_preview_env instantiated_window))
  /\ In (text "Compile and preview finished.")
        (console (compileCSG cancelled_preview_env instantiated_window))
  /\ highlights_products (compileCSG cancelled_preview_env instantiated_window)
     = Some [200000]
  /\ thrownTogetherRenderer (compileCSG cancelled_preview_env instantiated_window)
     = Some {| renderer_root_products := None;
               renderer_highlights_products := Some [200000];
               renderer_background_products := None |}
  /\ opencsgRenderer (compileCSG cancelled_preview_env instantiated_window)
     = thrownTogetherRenderer (compileCSG cancelled_preview_env instantiated_window)
  /\ thrownTogetherRenderer (actionRenderPreview cancelled_preview_env idle_window)
     = thrownTogetherRenderer (compileCSG cancelled_preview_env instantiated_window)
  /\ gui_locked (actionRenderPreview cancelled_preview_env idle_window) = 0.
Proof.
  repeat split; try reflexivity; vm_compute; tauto.
Qed.

(** A design of one object and nothing going on. *)
Definition quiet_env : Env :=
  design_env 100000 0 false false (inl (Some 1)) (fun w => w).

(** The same, with a second preview request arriving whenever the pass
    processes events. *)
Definition second_request_env : Env :=
  design_env 100000 0 false false (inl (Some 1)) (actionRenderPreview quiet_env).

(** C2 as written fails for the preview entry point.  A request that finds
    the GUI locked changes the window (it sets [preview_requested]); and a
    preview pass during which a second request arrives ends with an
    [actionRenderPreview] queued for later, which the same pass without the
    second request does not. *)
Lemma C2_counterexample_preview_requested :
  GuiLocker_isLocked (GuiLocker_lock idle_window) = true
  /\ actionRenderPreview quiet_env (GuiLocker_lock idle_window)
     <> GuiLocker_lock idle_window
  /\ singleShot_actionRenderPreview (actionRenderPreview quiet_env idle_window) = O
  /\ singleShot_actionRenderPreview (actionRenderPreview second_request_env idle_window)
     = 1%nat.
Proof.
  split; [reflexivity|]. split; [discriminate|]. split; reflexivity.
Qed.





(** C8 at the ceiling 2^31, which [toUInt] can return: twice the ceiling is
    2^32, the product is taken in [unsigned int], and the normalizer is built
    with the limit 0, which is not twice the ceiling. *)
Lemma C8_normalizelimit_wraps :
  openCSGLimit (design_env (2 ^ 31) 0 false false (inl (Some 0)) (fun w => w)) = 2 ^ 31
  /\ normalizelimit (design_env (2 ^ 31) 0 false false (inl (Some 0)) (fun w => w)) = 0
  /\ normalizelimit (design_env (2 ^ 31) 0 false false (inl (Some 0)) (fun w => w))
     <> 2 * openCSGLimit (design_env (2 ^ 31) 0 false false (inl (Some 0)) (fun w => w))
  /\ normalizedRoot
       (compileCSG (design_env (2 ^ 31) 0 false false (inl (Some 0)) (fun w => w))
          instantiated_window)
     = Some 0.
Proof.
  split; [reflexivity|]. split; [reflexivity|].
  split; [vm_compute; discriminate|reflexivity].
Qed.

(** ** Instances of the theorems that carry hypotheses *)

Lemma C2_requests_while_locked_witness :
  actionReloadRenderPreview quiet_env (GuiLocker_lock idle_window)
    = GuiLocker_lock idle_window
  /\ actionRender quiet_env (GuiLocker_lock idle_window) = GuiLocker_lock idle_window
  /\ actionRenderPreview quiet_env (GuiLocker_lock idle_window)
     = set_preview_requested true (GuiLocker_lock idle_window).
Proof.
  destruct (C2_requests_while_locked quiet_env (GuiLocker_lock idle_window)
              Logic.eq_refl) as (H1 & H2 & H3 & _).
  repeat split; assumption.
Defined.

(** A pass over a term of a thousand leaves under the ceiling 100. *)
Definition overflow_env : Env :=
  design_env 100 0 false false (inl (Some 1000)) (fun w => w).

Lemma identity_on_progress_widget {collab : Collaborators} (env : Env) :
  QApplication_processEvents env = (fun w => w) -> events_on_progress_widget env.
Proof. intros E w. rewrite E. destruct w. reflexivity. Defined.

Lemma identity_does_not_cancel {collab : Collaborators} (env : Env) :
  QApplication_processEvents env = (fun w => w) -> events_do_not_cancel env.
Proof. intros E w H. rewrite E. exact H. Defined.

Lemma C1_normalizer_null_witness :
  root_products (compileCSG overflow_env instantiated_window) = None
  /\ gui_locked (compileCSG overflow_env instantiated_window)
     = gui_locked instantiated_window.
Proof.
  destruct (C1_normalizer_null_is_empty_result (collab := probe_collaborators)
              overflow_env instantiated_window tt 1000
              Logic.eq_refl Logic.eq_refl
              (identity_on_progress_widget overflow_env Logic.eq_refl)
              (identity_does_not_cancel overflow_env Logic.eq_refl)
              Logic.eq_refl Logic.eq_refl)
    as ((_ & _ & H1) & H2 & _).
  destruct (H2 Logic.eq_refl) as (_ & _ & _ & _ & H3 & _).
  split; [exact H1|exact H3].
Defined.


Definition cancelling_env : Env :=
  design_env 100000 0 false false (inr ProgressCancelException) click_cancel.

Lemma cancelling_env_neutral : progress_neutral cancelling_env.
Proof.
  intros w. destruct w as [? ? ? ? ? ? ? ? ? ? ? ? ? ? ? ? ? ? ? ? ? ? ? ? ? ? ? [pw|] ? ?];
    split; reflexivity.
Qed.

(** A run of four callbacks, 150 ms apart, over a tree of 10 nodes; the
    progress widget is shown when the run starts. *)
Definition running_window : MainWindow :=
  set_progresswidget (Some {| value := 0; wasCanceled := false |}) idle_window.

Lemma C7_progress_witness :
  spaced (progressThrottle running_window
          :: report_times cancelling_env 10
               [(150, 1); (300, 2); (450, 3); (600, 4)] running_window)
  /\ progress_value running_window
     <= progress_value
          (fst (report_run cancelling_env 10
                  [(150, 1); (300, 2); (450, 3); (600, 4)] running_window)).
Proof.
  destruct (C7_progress_throttled_monotone_cancellable cancelling_env 10
              [(150, 1); (300, 2); (450, 3); (600, 4)] running_window
              cancelling_env_neutral)
    as (_ & H1 & _ & H2 & _).
  split; assumption.
Defined.

End MainWinSpec.

(* ================================================================== *)
(** * Further properties of [rands], [min], [max], [lookup], [search] *)
(* ================================================================== *)

Module FuncProps.

Import Double DoubleFacts Utf8 Func FuncSpec.

Section Facts.

Context {ext : Externals}.

(** ** [min] and [max] over numbers *)

Definition numbers (xs : list double) : list Value := map NUMBER xs.

(** A NaN in [val] stays: no [x < val] and no [x > val] holds. *)
Lemma lt_nan_r x y : isnan y = true -> lt x y = false.
Proof.
  intros H. destruct (lt x y) eqn:E; [|reflexivity].
  rewrite (lt_not_nan_r _ _ E) in H. discriminate.
Qed.

Lemma lt_nan_l x y : isnan x = true -> lt x y = false.
Proof.
  intros H. destruct (lt x y) eqn:E; [|reflexivity].
  rewrite (lt_not_nan_l _ _ E) in H. discriminate.
Qed.

Lemma min_loop_nan xs : forall val,
  isnan val = true -> min_loop val (numbers xs) = Some val.
Proof.
  induction xs as [|x xs IH]; intros val H; [reflexivity|].
  cbn [numbers map min_loop]. rewrite (lt_nan_r x val H). apply IH, H.
Qed.

Lemma max_loop_nan xs : forall val,
  isnan val = true -> max_loop val (numbers xs) = Some val.
Proof.
  induction xs as [|x xs IH]; intros val H; [reflexivity|].
  cbn [numbers map max_loop]. unfold gt. rewrite (lt_nan_l val x H). apply IH, H.
Qed.

Lemma min_loop_least xs : forall val,
  isnan val = false ->
  exists m,
    min_loop val (numbers xs) = Some m
    /\ In m (val :: xs) /\ isnan m = false /\ le m val = true
    /\ forall x, In x xs -> isnan x = false -> le m x = true.
Proof.
  induction xs as [|x xs IH]; intros val Hval.
  - exists val. cbn. repeat split; auto using le_refl; try (intros x []).
  - cbn [numbers map min_loop]. destruct (lt x val) eqn:E.
    + destruct (IH x (lt_not_nan_l _ _ E)) as (m & Hm & Hin & Hnan & Hle & Hall).
      exists m. split; [exact Hm|]. split; [right; exact Hin|].
      split; [exact Hnan|]. split; [exact (le_trans _ _ _ Hle (lt_le _ _ E))|].
      intros y [<-|Hy] Hy'; [exact Hle|exact (Hall y Hy Hy')].
    + destruct (IH val Hval) as (m & Hm & Hin & Hnan & Hle & Hall).
      exists m. split; [exact Hm|].
      split; [destruct Hin as [<-|Hin]; [left; reflexivity|right; right; exact Hin]|].
      split; [exact Hnan|]. split; [exact Hle|].
      intros y [<-|Hy] Hy'; [|exact (Hall y Hy Hy')].
      exact (le_trans _ _ _ Hle (not_lt_le _ _ Hy' Hval E)).
Qed.

Lemma max_loop_greatest xs : forall val,
  isnan val = false ->
  exists m,
    max_loop val (numbers xs) = Some m
    /\ In m (val :: xs) /\ isnan m = false /\ le val m = true
    /\ forall x, In x xs -> isnan x = false -> le x m = true.
Proof.
  induction xs as [|x xs IH]; intros val Hval.
  - exists val. cbn. repeat split; auto using le_refl; try (intros x []).
  - cbn [numbers map max_loop]. unfold gt. destruct (lt val x) eqn:E.
    + destruct (IH x (lt_not_nan_r _ _ E)) as (m & Hm & Hin & Hnan & Hle & Hall).
      exists m. split; [exact Hm|]. split; [right; exact Hin|].
      split; [exact Hnan|]. split; [exact (le_trans _ _ _ (lt_le _ _ E) Hle)|].
      intros y [<-|Hy] Hy'; [exact Hle|exact (Hall y Hy Hy')].
    + destruct (IH val Hval) as (m & Hm & Hin & Hnan & Hle & Hall).
      exists m. split; [exact Hm|].
      split; [destruct Hin as [<-|Hin]; [left; reflexivity|right; right; exact Hin]|].
      split; [exact Hnan|]. split; [exact Hle|].
      intros y [<-|Hy] Hy'; [|exact (Hall y Hy Hy')].
      exact (le_trans _ _ _ (not_lt_le _ _ Hval Hy' E) Hle).
Qed.

Lemma builtin_min_numbers x0 xs :
  builtin_min (numbers (x0 :: xs)) =
  match min_loop x0 (numbers xs) with
  | Some m => (NUMBER m, [])
  | None => (UNDEFINED, [argConvert_warning "min"])
  end.
Proof.
  unfold builtin_min. cbn [numbers map].
  assert (Hn : (1 <=? numArgs (NUMBER x0 :: map NUMBER xs)) = true).
  { rewrite numArgs_cons. pose proof (numArgs_nonneg (map NUMBER xs)).
    apply Z.leb_le. lia. }
  rewrite Hn. change (getArgValue (NUMBER x0 :: map NUMBER xs) 0) with (NUMBER x0).
  change (is_vector (NUMBER x0)) with false. rewrite andb_false_r.
  reflexivity.
Qed.

Lemma builtin_max_numbers x0 xs :
  builtin_max (numbers (x0 :: xs)) =
  match max_loop x0 (numbers xs) with
  | Some m => (NUMBER m, [])
  | None => (UNDEFINED, [argConvert_warning "max"])
  end.
Proof.
  unfold builtin_max. cbn [numbers map].
  assert (Hn : (1 <=? numArgs (NUMBER x0 :: map NUMBER xs)) = true).
  { rewrite numArgs_cons. pose proof (numArgs_nonneg (map NUMBER xs)).
    apply Z.leb_le. lia. }
  rewrite Hn. change (getArgValue (NUMBER x0 :: map NUMBER xs) 0) with (NUMBER x0).
  change (is_vector (NUMBER x0)) with false. rewrite andb_false_r.
  reflexivity.
Qed.

(** X1.  [min] and [max] of numbers, given as arguments: the result is one of the
    arguments, written without a diagnostic; it is NaN exactly when the
    first argument is NaN (a NaN among the later arguments is passed over);
    and when the first argument is not NaN, the result of [min] is at most,
    and the result of [max] at least, every argument that is not NaN. *)
Theorem min_max_of_numbers (x0 : double) (xs : list double) :
  exists m M,
    builtin_min (numbers (x0 :: xs)) = (NUMBER m, [])
    /\ builtin_max (numbers (x0 :: xs)) = (NUMBER M, [])
    /\ In m (x0 :: xs) /\ In M (x0 :: xs)
    /\ isnan m = isnan x0 /\ isnan M = isnan x0
    /\ (isnan x0 = false ->
        forall x, In x (x0 :: xs) -> isnan x = false ->
        le m x = true /\ le x M = true).
Proof.
  rewrite builtin_min_numbers, builtin_max_numbers.
  destruct (isnan x0) eqn:Hx0.
  - exists x0, x0. rewrite (min_loop_nan xs x0 Hx0), (max_loop_nan xs x0 Hx0).
    repeat split; try (left; reflexivity); try assumption; discriminate.
  - destruct (min_loop_least xs x0 Hx0) as (m & Hm & Hmin & Hmnan & Hmle & Hmall).
    destruct (max_loop_greatest xs x0 Hx0) as (M & HM & HMin & HMnan & HMle & HMall).
    exists m, M. rewrite Hm, HM.
    split; [reflexivity|]. split; [reflexivity|].
    split; [exact Hmin|]. split; [exact HMin|].
    split; [exact Hmnan|]. split; [exact HMnan|].
    intros _ x Hx Hx'. split.
    + destruct Hx as [<-|Hx]; [exact Hmle|exact (Hmall x Hx Hx')].
    + destruct Hx as [<-|Hx]; [exact HMle|exact (HMall x Hx Hx')].
Qed.

(** ** [rands]: the number of results and the generators *)

Lemma abs_opp x : abs (- x)%float = abs x.
Proof.
  apply Prim2SF_inj. rewrite !abs_spec, opp_spec.
  destruct (Prim2SF x) as [[]|[]| |[] m e]; reflexivity.
Qed.

Lemma abs_abs x : abs (abs x) = abs x.
Proof.
  apply Prim2SF_inj. rewrite !abs_spec.
  destruct (Prim2SF x) as [[]|[]| |[] m e]; reflexivity.
Qed.

Lemma isnan_abs x : isnan (abs x) = isnan x.
Proof.
  unfold isnan, is_nan. rewrite !eqb_spec, abs_spec.
  destruct (Prim2SF x) as [[]|[]| |[] m e]; try reflexivity;
    unfold SFeqb, SFabs, SFcompare; rewrite ?Z.compare_refl, ?Pos.compare_cont_refl;
    reflexivity.
Qed.







(** ** [lookup]: a key of the table, and entries that are no pairs *)

Lemma eq_le_r x y : eq x y = true -> le y x = true.
Proof.
  to_spec. rewrite (SFcompare_sym (Prim2SF x) (Prim2SF y)).
  destruct (SFcompare _ _) as [[]|]; simpl; congruence.
Qed.

(** X4.  [lookup (p, table)] at a key of the table: when [p] is finite, the
    first key of the table is not NaN and some key equals [p], the result
    is the value of an entry whose key equals [p]. *)
Theorem lookup_at_a_key (p : double) (e0 : double * double)
    (rest : list (double * double)) :
  isfinite p = true -> isnan (fst e0) = false ->
  (exists k v, In (k, v) (e0 :: rest) /\ eq k p = true) ->
  exists k v,
    In (k, v) (e0 :: rest) /\ eq k p = true
    /\ builtin_lookup [NUMBER p; table_of (e0 :: rest)] = (NUMBER v, []).
Proof.
  intros Hfin Hk0 (kq & vq & Hq & Heq).
  pose proof (isfinite_not_nan _ Hfin) as Hp.
  rewrite (builtin_lookup_unfold _ _ _ Hfin).
  destruct e0 as [k0 v0]. cbn [fst snd] in *.
  pose proof (lookup_scan_inv p rest [(k0, v0)] k0 v0 k0 v0
                (low_inv_init p k0 v0 Hp Hk0) (or_introl Logic.eq_refl)
                (high_inv_init p k0 v0 Hp Hk0) (or_introl Logic.eq_refl)) as Hinv.
  destruct (lookup_scan p (map entry rest) k0 v0 k0 v0) as [[[low_p low_v] high_p] high_v].
  cbn [app] in Hinv. destruct Hinv as (Hl & Hlin & Hh & Hhin).
  pose proof (eq_le _ _ Heq) as Hqp. pose proof (eq_le_r _ _ Heq) as Hpq.
  assert (Hlow : le p low_p = true).
  { destruct Hl as [[_ Hmax]|[_ Hnone]].
    - exact (le_trans _ _ _ Hpq (Hmax kq vq Hq Hqp)).
    - rewrite (Hnone kq vq Hq) in Hqp. discriminate. }
  rewrite Hlow. exists high_p, high_v.
  split; [exact Hhin|]. split; [|reflexivity].
  destruct Hh as [[Hge Hmin]|[_ Hnone]].
  - apply le_antisym; [|exact Hge].
    exact (le_trans _ _ _ (Hmin kq vq Hq Hpq) Hqp).
  - rewrite (Hnone kq vq Hq) in Hpq. discriminate.
Qed.

(** Whether an entry of the table is a pair of numbers. *)
Definition is_pair (e : Value) : bool :=
  match getVec2 e with Some _ => true | None => false end.

Lemma lookup_scan_filter p rest : forall low_p low_v high_p high_v,
  lookup_scan p (filter is_pair rest) low_p low_v high_p high_v
  = lookup_scan p rest low_p low_v high_p high_v.
Proof.
  induction rest as [|e rest IH]; intros low_p low_v high_p high_v; [reflexivity|].
  cbn [filter lookup_scan]. unfold is_pair at 1.
  destruct (getVec2 e) as [[this_p this_v]|] eqn:E.
  - cbn [lookup_scan]. rewrite E.
    destruct (if le this_p p && (gt this_p low_p || gt low_p p)
              then (this_p, this_v) else (low_p, low_v)) as [lp lv].
    destruct (if ge this_p p && (lt this_p high_p || lt high_p p)
              then (this_p, this_v) else (high_p, high_v)) as [hp hv].
    apply IH.
  - apply IH.
Qed.

(** X5.  [lookup] passes over malformed entries in silence.  After the first
    entry, the entries that are no pairs of numbers are skipped: value and
    diagnostics are those of the table without them.  With a finite number
    to look up, a table that is no vector or is empty, and a table whose
    first entry is no pair of numbers, give the undefined value and no
    message. *)
Theorem lookup_malformed_table (a e0 : Value) (rest : list Value) :
  builtin_lookup [a; VECTOR (e0 :: rest)]
  = builtin_lookup [a; VECTOR (e0 :: filter is_pair rest)]
  /\ (forall p, isfinite p = true -> getVec2 e0 = None ->
        builtin_lookup [NUMBER p; VECTOR (e0 :: rest)] = (UNDEFINED, []))
  /\ (forall p t, isfinite p = true -> toVectorPtr t = [] ->
        builtin_lookup [NUMBER p; t] = (UNDEFINED, [])).
Proof.
  split; [|split].
  - unfold builtin_lookup.
    cbn -[lookup_scan isfinite le ge lookup_interpolate getVec2 filter Nat.ltb].
    destruct (getDouble a) as [p|]; [|reflexivity].
    destruct (negb (isfinite p)); [reflexivity|].
    destruct (_ <? _)%nat; [reflexivity|].
    destruct (getVec2 e0) as [[p0 v0]|]; [|reflexivity].
    rewrite lookup_scan_filter. reflexivity.
  - intros p Hp He. unfold builtin_lookup.
    cbn -[lookup_scan isfinite le ge lookup_interpolate getVec2 Nat.ltb].
    rewrite Hp, He. cbn [negb]. destruct (_ <? _)%nat; reflexivity.
  - intros p t Hp Ht. unfold builtin_lookup.
    cbn -[lookup_scan isfinite le ge lookup_interpolate getVec2 Nat.ltb toVectorPtr].
    rewrite Hp. cbn [negb]. rewrite Ht. reflexivity.
Qed.

(** ** [search]: a number searched for *)

(** The positions of the table at which [search_matches] holds. *)
Definition matching_positions (find_value : Value) (table : list Value)
    (index_col_num : Z) : list nat :=
  hit_indices_from 0 (map (fun e => search_matches find_value e index_col_num) table).

(** All of them when [num_returns_per_match] is 0, the first
    [num_returns_per_match] otherwise. *)
Definition capped (num_returns_per_match : Z) (positions : list nat) : list nat :=
  if num_returns_per_match =? 0 then positions
  else firstn (Z.to_nat num_returns_per_match) positions.

Lemma search_number_scan_positions findThis num idx rest :
  0 <= num < 2 ^ 32 ->
  forall j matchCount returnvec,
  0 <= matchCount -> (num = 0 \/ matchCount < num) ->
  search_number_scan findThis rest num idx j matchCount returnvec =
  returnvec
  ++ indices
       ((if num =? 0 then fun l => l else firstn (Z.to_nat (num - matchCount)))
          (hit_indices_from j (map (fun e => search_matches findThis e idx) rest))).
Proof.
  intros Hnum. induction rest as [|e rest IH]; intros j mc ret Hmc Hcap.
  - cbn. destruct (num =? 0); rewrite ?firstn_nil; cbn; rewrite app_nil_r; reflexivity.
  - cbn [search_number_scan map hit_indices_from].
    destruct (search_matches findThis e idx); cbn [app]; [|apply IH; assumption].
    destruct (num =? 0) eqn:E0.
    + cbn [negb andb]. rewrite IH.
      * unfold indices. cbn [map]. rewrite <- app_assoc. reflexivity.
      * unfold uint. apply Z.mod_pos_bound. lia.
      * left. apply Z.eqb_eq, E0.
    + pose proof (proj1 (Z.eqb_neq _ _) E0) as E0'.
      destruct Hcap as [Hcap|Hcap]; [lia|].
      assert (Hu : uint (mc + 1) = mc + 1).
      { unfold uint. apply Z.mod_small. lia. }
      rewrite Hu. cbn [negb andb].
      replace (Z.to_nat (num - mc)) with (S (Z.to_nat (num - (mc + 1)))) by lia.
      cbn [firstn]. unfold indices. cbn [map].
      destruct (num <=? mc + 1) eqn:E.
      * apply Z.leb_le in E.
        replace (Z.to_nat (num - (mc + 1))) with O by lia. reflexivity.
      * apply Z.leb_gt in E. rewrite IH by lia.
        rewrite <- app_assoc. reflexivity.
Qed.

(** X6.  [search] for a number returns one flat vector, without a diagnostic:
    the positions of the table elements that match (an element matches when
    the column is 0 and it equals the number, or when its entry in the
    column equals the number), in ascending order, all of them when
    [num_returns_per_match] is 0 and the first [num_returns_per_match] of
    them otherwise; the first one alone when the call has two arguments.
    [num_returns_per_match] and the column are the truncations of the third
    and the fourth argument, for arguments that are finite and truncate into
    the range of [unsigned int]. *)
Theorem search_for_a_number (x : double) (table : Value) :
  builtin_search [NUMBER x; table]
  = (VECTOR (indices (firstn 1 (matching_positions (NUMBER x) (toVectorPtr table) 0))),
     [])
  /\ (forall num,
        isfinite num = true -> 0 <= trunc num < 2 ^ 32 ->
        builtin_search [NUMBER x; table; NUMBER num]
        = (VECTOR (indices (capped (trunc num)
                              (matching_positions (NUMBER x) (toVectorPtr table) 0))),
           []))
  /\ (forall num idx,
        isfinite num = true -> 0 <= trunc num < 2 ^ 32 ->
        isfinite idx = true -> 0 <= trunc idx < 2 ^ 32 ->
        builtin_search [NUMBER x; table; NUMBER num; NUMBER idx]
        = (VECTOR (indices (capped (trunc num)
                              (matching_positions (NUMBER x) (toVectorPtr table)
                                 (trunc idx)))),
           [])).
Proof.
  split; [|split].
  - unfold builtin_search, matching_positions.
    cbn -[search_number_scan to_unsigned_int Z.to_nat firstn].
    rewrite !search_number_scan_positions by lia.
    cbn [app]. rewrite !Z.sub_0_r. reflexivity.
  - intros num Hfn Hn.
    rewrite <- (to_unsigned_int_defined num Hfn Hn).
    unfold builtin_search, capped, matching_positions.
    cbn -[search_number_scan to_unsigned_int Z.to_nat firstn].
    pose proof (to_unsigned_int_range num) as Hnum.
    rewrite !search_number_scan_positions by lia.
    cbn [app]. rewrite !Z.sub_0_r.
    destruct (to_unsigned_int num =? 0); reflexivity.
  - intros num idx Hfn Hn Hfi Hi.
    rewrite <- (to_unsigned_int_defined num Hfn Hn).
    rewrite <- (to_unsigned_int_defined idx Hfi Hi).
    unfold builtin_search, capped, matching_positions.
    cbn -[search_number_scan to_unsigned_int Z.to_nat firstn].
    pose proof (to_unsigned_int_range num) as Hnum.
    rewrite !search_number_scan_positions by lia.
    cbn [app]. rewrite !Z.sub_0_r.
    destruct (to_unsigned_int num =? 0); reflexivity.
Qed.

(** ** [search]: the positions returned lie in the table *)

(** A position below [n]; a position below [n] or a vector of such. *)
Definition index_below (n : nat) (v : Value) : Prop :=
  exists j, v = NUMBER (of_nat j) /\ (j < n)%nat.

Definition entry_below (n : nat) (v : Value) : Prop :=
  index_below n v \/ exists l, v = VECTOR l /\ Forall (index_below n) l.

(** The number of positions of a table: the characters of a string, the
    elements of a vector. *)
Definition table_size (table : Value) : nat :=
  match table with
  | STRING s => g_utf8_strlen s
  | VECTOR l => List.length l
  | _ => O
  end.

Lemma index_below_intro n j : (j < n)%nat -> index_below n (NUMBER (of_nat j)).
Proof. intros H. exists j. split; [reflexivity|exact H]. Qed.

Lemma entry_below_index n j : (j < n)%nat -> entry_below n (NUMBER (of_nat j)).
Proof. intros H. left. apply index_below_intro, H. Qed.

Lemma entry_below_vector n l : Forall (index_below n) l -> entry_below n (VECTOR l).
Proof. intros H. right. exists l. split; [reflexivity|exact H]. Qed.

Lemma Forall_snoc {A} (P : A -> Prop) l x : Forall P l -> P x -> Forall P (l ++ [x]).
Proof. intros Hl Hx. apply Forall_app. split; [exact Hl|]. constructor; [exact Hx|constructor]. Qed.

Lemma search_str_scan_below n ptr_ft table num js :
  Forall (fun j => (j < n)%nat) js ->
  forall matchCount resultvec returnvec,
  Forall (index_below n) resultvec -> Forall (entry_below n) returnvec ->
  match search_str_scan ptr_ft table num js matchCount resultvec returnvec with
  | (_, resultvec', returnvec') =>
      Forall (index_below n) resultvec' /\ Forall (entry_below n) returnvec'
  end.
Proof.
  induction js as [|j js IH]; intros Hjs mc rv ret Hrv Hret.
  - cbn. auto.
  - inversion Hjs as [|? ? Hj Hjs']; subst. cbn [search_str_scan].
    destruct (_ =? _); [|apply IH; assumption].
    destruct (num =? 1).
    + split; [exact Hrv|]. apply Forall_snoc; [exact Hret|]. apply entry_below_index, Hj.
    + assert (Hrv' : Forall (index_below n) (rv ++ [NUMBER (of_nat j)]))
        by (apply Forall_snoc; [exact Hrv|apply index_below_intro, Hj]).
      destruct ((1 <? num) && _); [split; assumption|].
      apply IH; assumption.
Qed.

Lemma search_rows_scan_below n ptr_ft num idx rows :
  forall j matchCount resultvec returnvec,
  (j + List.length rows <= n)%nat ->
  Forall (index_below n) resultvec -> Forall (entry_below n) returnvec ->
  match search_rows_scan ptr_ft rows num idx j matchCount resultvec returnvec with
  | inl (_, resultvec', returnvec') =>
      Forall (index_below n) resultvec' /\ Forall (entry_below n) returnvec'
  | inr _ => True
  end.
Proof.
  induction rows as [|row rows IH]; intros j mc rv ret Hj Hrv Hret.
  - cbn. auto.
  - cbn [List.length] in Hj. cbn [search_rows_scan].
    destruct (_ <=? idx); [exact I|].
    destruct (_ =? _); [|apply IH; [lia|assumption|assumption]].
    destruct (num =? 1).
    + split; [exact Hrv|]. apply Forall_snoc; [exact Hret|].
      apply entry_below_index. lia.
    + assert (Hrv' : Forall (index_below n) (rv ++ [NUMBER (of_nat j)]))
        by (apply Forall_snoc; [exact Hrv|apply index_below_intro; lia]).
      destruct ((1 <? num) && _); [split; assumption|].
      apply IH; [lia|assumption|assumption].
Qed.

Lemma search_vec_scan_below n find_value num idx rest :
  forall j matchCount resultvec returnvec,
  (j + List.length rest <= n)%nat ->
  Forall (index_below n) resultvec -> Forall (entry_below n) returnvec ->
  match search_vec_scan find_value rest num idx j matchCount resultvec returnvec with
  | (_, resultvec', returnvec') =>
      Forall (index_below n) resultvec' /\ Forall (entry_below n) returnvec'
  end.
Proof.
  induction rest as [|e rest IH]; intros j mc rv ret Hj Hrv Hret.
  - cbn. auto.
  - cbn [List.length] in Hj. cbn [search_vec_scan].
    destruct (search_matches find_value e idx); [|apply IH; [lia|assumption|assumption]].
    destruct (num =? 1).
    + split; [exact Hrv|]. apply Forall_snoc; [exact Hret|].
      apply entry_below_index. lia.
    + assert (Hrv' : Forall (index_below n) (rv ++ [NUMBER (of_nat j)]))
        by (apply Forall_snoc; [exact Hrv|apply index_below_intro; lia]).
      destruct ((1 <? num) && _); [split; assumption|].
      apply IH; [lia|assumption|assumption].
Qed.

Lemma search_number_scan_below n findThis num idx rest :
  forall j matchCount returnvec,
  (j + List.length rest <= n)%nat ->
  Forall (entry_below n) returnvec ->
  Forall (entry_below n)
    (search_number_scan findThis rest num idx j matchCount returnvec).
Proof.
  induction rest as [|e rest IH]; intros j mc ret Hj Hret.
  - exact Hret.
  - cbn [List.length] in Hj. cbn [search_number_scan].
    destruct (search_matches findThis e idx); [|apply IH; [lia|assumption]].
    assert (Hret' : Forall (entry_below n) (ret ++ [NUMBER (of_nat j)]))
      by (apply Forall_snoc; [exact Hret|apply entry_below_index; lia]).
    destruct (negb (num =? 0) && _); [exact Hret'|].
    apply IH; [lia|assumption].
Qed.

Lemma search_str_loop_below find table num : forall offs returnvec,
  Forall (entry_below (g_utf8_strlen table)) returnvec ->
  Forall (entry_below (g_utf8_strlen table))
    (search_str_loop find table num offs returnvec).
Proof.
  induction offs as [|i offs IH]; intros ret Hret; [exact Hret|].
  cbn [search_str_loop].
  pose proof (search_str_scan_below (g_utf8_strlen table)
                (g_utf8_offset_to_pointer find i) table num
                (seq 0 (g_utf8_strlen table))) as H.
  specialize (H ltac:(apply Forall_forall; intros j Hj; apply in_seq in Hj; lia)
                0 [] ret (Forall_nil _) Hret).
  destruct (search_str_scan _ _ _ _ _ _ _) as [[mc rv] ret'].
  destruct H as [Hrv Hret']. apply IH.
  destruct ((num =? 0) || (1 <? num)); [|exact Hret'].
  apply Forall_snoc; [exact Hret'|apply entry_below_vector, Hrv].
Qed.

Lemma search_rows_loop_below find table num idx : forall offs returnvec log,
  Forall (entry_below (List.length table)) returnvec ->
  Forall (entry_below (List.length table))
    (fst (search_rows_loop find table num idx offs returnvec log)).
Proof.
  induction offs as [|i offs IH]; intros ret log Hret; [exact Hret|].
  cbn [search_rows_loop].
  pose proof (search_rows_scan_below (List.length table)
                (g_utf8_offset_to_pointer find i) num idx table
                O 0 [] ret ltac:(cbn; lia) (Forall_nil _) Hret) as H.
  destruct (search_rows_scan _ _ _ _ _ _ _ _) as [[[mc rv] ret']|w].
  - destruct H as [Hrv Hret']. apply IH.
    destruct ((num =? 0) || (1 <? num)); [|exact Hret'].
    apply Forall_snoc; [exact Hret'|apply entry_below_vector, Hrv].
  - constructor.
Qed.

Lemma search_vec_loop_below findVec table num idx : forall returnvec,
  Forall (entry_below (List.length table)) returnvec ->
  Forall (entry_below (List.length table))
    (search_vec_loop findVec table num idx returnvec).
Proof.
  induction findVec as [|find_value findVec IH]; intros ret Hret; [exact Hret|].
  cbn [search_vec_loop].
  pose proof (search_vec_scan_below (List.length table) find_value num idx table
                O 0 [] ret ltac:(cbn; lia) (Forall_nil _) Hret) as H.
  destruct (search_vec_scan _ _ _ _ _ _ _ _) as [[mc rv] ret'].
  destruct H as [Hrv Hret']. apply IH.
  assert (H1 : Forall (entry_below (List.length table))
                 (if (num =? 1) && (mc =? 0) then ret' ++ [VECTOR rv] else ret')).
  { destruct ((num =? 1) && (mc =? 0)); [|exact Hret'].
    apply Forall_snoc; [exact Hret'|apply entry_below_vector, Hrv]. }
  destruct ((num =? 0) || (1 <? num)); [|exact H1].
  apply Forall_snoc; [exact H1|apply entry_below_vector, Hrv].
Qed.

Lemma entry_below_le n m v : (n <= m)%nat -> entry_below n v -> entry_below m v.
Proof.
  intros Hnm [(j & -> & Hj)|(l & -> & Hl)].
  - apply entry_below_index. lia.
  - apply entry_below_vector. apply Forall_forall. intros x Hx.
    rewrite Forall_forall in Hl. destruct (Hl x Hx) as (j & -> & Hj).
    apply index_below_intro. lia.
Qed.

Lemma toVectorPtr_size table : (List.length (toVectorPtr table) <= table_size table)%nat.
Proof. destruct table; cbn; lia. Qed.

(** X7.  [search] returns no position outside the table.  Whatever the
    arguments, the result is the undefined value or a vector whose elements
    are positions below the size of the table (the number of characters of a
    string, the number of elements of a vector), or vectors of such
    positions. *)
Theorem search_positions_in_table (args : list Value) :
  fst (builtin_search args) = UNDEFINED
  \/ exists returnvec,
       fst (builtin_search args) = VECTOR returnvec
       /\ Forall (entry_below (table_size (getArgValue args 1))) returnvec.
Proof.
  unfold builtin_search. destruct (numArgs args <? 2); [left; reflexivity|].
  set (num := if 2 <? numArgs args then _ else 1).
  set (idx := if 3 <? numArgs args then _ else 0).
  set (table := getArgValue args 1).
  pose proof (toVectorPtr_size table) as Hsize.
  destruct (getArgValue args 0) as [| |d|find|findVec]; try (left; reflexivity); right.
  - eexists. split; [reflexivity|]. cbn [fst].
    apply Forall_forall. intros v Hv.
    apply (entry_below_le (List.length (toVectorPtr table))); [exact Hsize|].
    revert v Hv. apply Forall_forall.
    apply search_number_scan_below; [cbn; lia|constructor].
  - destruct table as [| | |t|rows] eqn:Et.
    all: try (destruct (search_rows find _ num idx) as [ret log] eqn:E;
              eexists; split; [reflexivity|]; cbn [fst];
              pose proof (search_rows_loop_below find [] num idx
                            (seq 0 (g_utf8_strlen find)) [] [] (Forall_nil _)) as H;
              unfold search_rows in E; cbn [toVectorPtr] in E; rewrite E in H;
              cbn [fst] in H; apply Forall_forall; intros v Hv;
              rewrite Forall_forall in H;
              exact (entry_below_le _ _ _ (Nat.le_0_l _) (H v Hv))).
    + eexists. split; [reflexivity|]. cbn [fst table_size].
      apply search_str_loop_below. constructor.
    + destruct (search_rows find _ num idx) as [ret log] eqn:E.
      eexists. split; [reflexivity|]. cbn [fst table_size].
      pose proof (search_rows_loop_below find rows num idx
                    (seq 0 (g_utf8_strlen find)) [] [] (Forall_nil _)) as H.
      unfold search_rows in E. cbn [toVectorPtr] in E. rewrite E in H. exact H.
  - eexists. split; [reflexivity|]. cbn [fst].
    apply Forall_forall. intros v Hv.
    apply (entry_below_le (List.length (toVectorPtr table))); [exact Hsize|].
    revert v Hv. apply Forall_forall.
    apply search_vec_loop_below. constructor.
Qed.

End Facts.

(** ** Instances of the theorems that carry hypotheses *)

Lemma lookup_at_a_key_witness :
  exists k v,
    In (k, v) [(0%float, 0%float); (5%float, 7%float); (10%float, 10%float)]
    /\ eq k 5%float = true
    /\ builtin_lookup
         [NUMBER 5%float;
          table_of [(0%float, 0%float); (5%float, 7%float); (10%float, 10%float)]]
       = (NUMBER v, []).
Proof.
  apply (lookup_at_a_key 5%float (0%float, 0%float)
           [(5%float, 7%float); (10%float, 10%float)]); try reflexivity.
  exists 5%float, 7%float. split; [right; left; reflexivity|reflexivity].
Defined.

(** Three equal numbers and room for two positions. *)
Lemma search_three_equal_numbers :
  builtin_search (ext := counter_externals)
    [NUMBER 3%float; VECTOR (numbers [3%float; 3%float; 3%float]); NUMBER 2%float]
  = (VECTOR [NUMBER 0%float; NUMBER 1%float], []).
Proof. reflexivity. Qed.

End FuncProps.

(* ================================================================== *)
(** * Properties of the other built-in functions *)
(* ================================================================== *)

Module MoreBuiltinsSpec.

Import Double DoubleFacts Utf8 Func FuncSpec FuncProps MoreBuiltins.

(** ** Signs of doubles *)

(** A specification float that is NaN or carries the sign [+]. *)
Definition sf_unsigned (s : spec_float) : Prop :=
  match s with
  | S754_zero true | S754_infinity true | S754_finite true _ _ => False
  | _ => True
  end.






Lemma unsigned_not_negative x :
  sf_unsigned (Prim2SF x) -> lt x 0%float = false.
Proof.
  intros H. unfold lt. rewrite ltb_spec.
  change (Prim2SF 0%float) with (S754_zero false).
  destruct (Prim2SF x) as [[]|[]| |[] m e]; try contradiction; reflexivity.
Qed.

(** ** Commutation and negation *)





Section Facts.

Context {ext : Externals} {libm : LibM}.

(** ** [abs] and [sign] *)

Lemma sign_cases x :
  (lt x 0%float = true /\ gt x 0%float = false)
  \/ (lt x 0%float = false /\ gt x 0%float = true)
  \/ (lt x 0%float = false /\ gt x 0%float = false).
Proof.
  destruct (lt x 0%float) eqn:E1, (gt x 0%float) eqn:E2; auto.
  unfold gt in E2. rewrite (le_not_lt _ _ (lt_le _ _ E1)) in E2. discriminate.
Qed.

(** X8.  [abs] of a number returns a number that is not negative, and NaN only
    for NaN; it takes [x] and [- x] to the same value and leaves its own
    results as they are.  [sign] of a number returns -1, 0 or 1: -1 exactly
    when [x < 0], 1 exactly when [x > 0], so 0 for the zeros and for NaN;
    and it leaves its own results as they are. *)
Theorem abs_and_sign_of_a_number (x : double) :
  (builtin_abs [NUMBER x] = (NUMBER (abs x), [])
   /\ lt (abs x) 0%float = false
   /\ isnan (abs x) = isnan x
   /\ builtin_abs [NUMBER (- x)%float] = builtin_abs [NUMBER x]
   /\ builtin_abs [fst (builtin_abs [NUMBER x])] = builtin_abs [NUMBER x])
  /\ exists s,
       builtin_sign [NUMBER x] = (NUMBER s, [])
       /\ (s = (-1)%float \/ s = 0%float \/ s = 1%float)
       /\ (s = (-1)%float <-> lt x 0%float = true)
       /\ (s = 1%float <-> gt x 0%float = true)
       /\ (isnan x = true -> s = 0%float)
       /\ builtin_sign [fst (builtin_sign [NUMBER x])] = builtin_sign [NUMBER x].
Proof.
  split.
  - split; [reflexivity|]. split.
    { apply unsigned_not_negative. rewrite abs_spec.
      destruct (Prim2SF x) as [[]|[]| |[] m e]; exact I. }
    split; [apply isnan_abs|].
    split; cbn [builtin_abs numArgs List.length Z.of_nat Z.eqb getArgValue nth fst];
      cbn; rewrite ?abs_opp, ?abs_abs; reflexivity.
  - assert (N1 : (-1)%float <> 0%float)
      by (intros H; apply (f_equal Prim2SF) in H; vm_compute in H; discriminate).
    assert (N2 : (-1)%float <> 1%float)
      by (intros H; apply (f_equal Prim2SF) in H; vm_compute in H; discriminate).
    assert (N3 : 0%float <> 1%float)
      by (intros H; apply (f_equal Prim2SF) in H; vm_compute in H; discriminate).
    cbn [builtin_sign numArgs List.length Z.of_nat Z.eqb getArgValue nth fst].
    cbn -[lt gt].
    destruct (sign_cases x) as [[E1 E2]|[[E1 E2]|[E1 E2]]]; rewrite E1, ?E2;
      eexists; (split; [reflexivity|]).
    + split; [auto|]. split; [tauto|]. split; [split; congruence|].
      split; [|reflexivity].
      intros H. rewrite (lt_nan_l _ _ H) in E1. discriminate.
    + split; [auto|]. split; [split; congruence|]. split; [tauto|].
      split; [|reflexivity].
      intros H. unfold gt in E2. rewrite (lt_nan_r _ _ H) in E2. discriminate.
    + split; [auto|]. split; [split; congruence|]. split; [split; congruence|].
      split; reflexivity.
Qed.

(** ** The diagnostics of the numeric built-ins *)










(** [log] with one argument is the logarithm to the base 10: [log (v)] is
    what [log (10, v)] is, value and message, whatever [v] is. *)
Lemma log_base_defaults_to_ten (v : Value) :
  builtin_log [v] = builtin_log [NUMBER 10%float; v].
Proof. destruct v; reflexivity. Qed.

(** ** [concat], [str], [chr], [len] *)

(** What one argument gives to the result of [concat]. *)
Definition flattened (v : Value) : list Value :=
  match v with
  | VECTOR l => l
  | _ => [v]
  end.

Lemma concat_loop_flat_map args : forall result,
  concat_loop args result = result ++ flat_map flattened args.
Proof.
  induction args as [|v args IH]; intros result.
  - cbn. rewrite app_nil_r. reflexivity.
  - destruct v; cbn [concat_loop flat_map flattened]; rewrite IH, <- app_assoc;
      reflexivity.
Qed.

(** X10.  [concat] takes one level off every argument that is a vector and no
    more: the result holds the elements of the vectors and the other
    arguments, in order, and nothing is written.  So [concat] of one vector
    is that vector, the result has as many elements as the vectors have in
    sum plus one for every other argument, and a call of [concat] as an
    argument of [concat] can be replaced by its arguments. *)
Theorem concat_flattens_one_level (args args1 args2 : list Value) (l : list Value) :
  builtin_concat args = (VECTOR (flat_map flattened args), [])
  /\ builtin_concat [VECTOR l] = (VECTOR l, [])
  /\ List.length (toVectorPtr (fst (builtin_concat args)))
     = list_sum (map (fun v => List.length (flattened v)) args)
  /\ builtin_concat (args1 ++ fst (builtin_concat args) :: args2)
     = builtin_concat (args1 ++ args ++ args2).
Proof.
  assert (E : forall a, builtin_concat a = (VECTOR (flat_map flattened a), [])).
  { intros a. unfold builtin_concat. rewrite concat_loop_flat_map. reflexivity. }
  split; [apply E|]. split; [rewrite E; cbn; rewrite app_nil_r; reflexivity|].
  split.
  - rewrite E. cbn [fst toVectorPtr]. induction args as [|v args IH]; [reflexivity|].
    cbn [flat_map map list_sum]. rewrite length_app, IH. reflexivity.
  - rewrite !E. cbn [fst]. rewrite !flat_map_app. cbn [flat_map flattened].
    reflexivity.
Qed.

Lemma str_stream_app args : forall stream,
  str_stream args stream = (stream ++ str_stream args EmptyString)%string.
Proof.
  induction args as [|v args IH]; intros stream; cbn [str_stream].
  - induction stream as [|c stream IHs]; [reflexivity|].
    cbn. rewrite <- IHs. reflexivity.
  - rewrite IH, (IH (EmptyString ++ toString v)%string). cbn [String.append].
    induction stream as [|c stream IHs]; [reflexivity|].
    cbn [String.append]. rewrite IHs. reflexivity.
Qed.

Lemma chr_stream_app args : forall stream,
  chr_stream args stream = (stream ++ chr_stream args EmptyString)%string.
Proof.
  induction args as [|v args IH]; intros stream; cbn [chr_stream].
  - induction stream as [|c stream IHs]; [reflexivity|].
    cbn. rewrite <- IHs. reflexivity.
  - rewrite IH, (IH (EmptyString ++ chrString v)%string). cbn [String.append].
    induction stream as [|c stream IHs]; [reflexivity|].
    cbn [String.append]. rewrite IHs. reflexivity.
Qed.

Lemma str_stream_concat args1 : forall args2 stream,
  str_stream (args1 ++ args2) stream = str_stream args2 (str_stream args1 stream).
Proof.
  induction args1 as [|v args1 IH]; intros args2 stream; [reflexivity|].
  cbn [app str_stream]. apply IH.
Qed.

Lemma chr_stream_concat args1 : forall args2 stream,
  chr_stream (args1 ++ args2) stream = chr_stream args2 (chr_stream args1 stream).
Proof.
  induction args1 as [|v args1 IH]; intros args2 stream; [reflexivity|].
  cbn [app chr_stream]. apply IH.
Qed.

(** X11.  [str] and [chr] write their arguments one after the other: the result
    for the arguments [args1] followed by [args2] is the result for [args1]
    followed by the result for [args2], and nothing is written to the sink.
    [str] gives a string argument back as it is, so a call of [str] can
    stand for its arguments in a call of [str]. *)
Theorem str_and_chr_concatenate (args1 args2 : list Value) (s : string) :
  builtin_str (args1 ++ args2)
  = (STRING (toString (fst (builtin_str args1)) ++ toString (fst (builtin_str args2))), [])
  /\ builtin_chr (args1 ++ args2)
     = (STRING (toString (fst (builtin_chr args1)) ++ toString (fst (builtin_chr args2))), [])
  /\ builtin_str [STRING s] = (STRING s, [])
  /\ builtin_str [fst (builtin_str args1); fst (builtin_str args2)]
     = builtin_str (args1 ++ args2).
Proof.
  assert (E : builtin_str (args1 ++ args2)
              = (STRING (str_stream args1 EmptyString ++ str_stream args2 EmptyString), [])).
  { unfold builtin_str. rewrite str_stream_concat, str_stream_app. reflexivity. }
  split; [exact E|]. split.
  { unfold builtin_chr. rewrite chr_stream_concat, chr_stream_app. reflexivity. }
  split; [reflexivity|].
  rewrite E. unfold builtin_str. cbn [fst str_stream toString String.append].
  reflexivity.
Qed.

(** ** The type tests *)

Definition count_true (l : list bool) : nat :=
  List.length (filter (fun b => b) l).

(** X12.  [is_list], [is_num], [is_bool] and [is_string] of one argument return a
    Boolean and write nothing; at most one of them returns true; [is_num]
    returns true exactly for a number that is not NaN, and all four return
    false for the undefined value. *)
Theorem type_tests_exclude_each_other (v : Value) :
  exists bl bn bb bs,
    builtin_is_list [v] = (BOOL bl, [])
    /\ builtin_is_num [v] = (BOOL bn, [])
    /\ builtin_is_bool [v] = (BOOL bb, [])
    /\ builtin_is_string [v] = (BOOL bs, [])
    /\ (count_true [bl; bn; bb; bs] <= 1)%nat
    /\ (bn = true <-> exists d, v = NUMBER d /\ isnan d = false)
    /\ (v = UNDEFINED -> count_true [bl; bn; bb; bs] = O).
Proof.
  destruct v as [|b|d|s|l];
    do 4 eexists; (split; [reflexivity|]); (split; [reflexivity|]);
    (split; [reflexivity|]); (split; [reflexivity|]).
  all: try (split; [cbn; lia|]; split;
            [split; [discriminate|intros (d' & H & _); discriminate H]
            |intros H; try discriminate H; reflexivity]).
  split; [unfold count_true; cbn; destruct (negb (isnan d)); cbn; lia|].
  split; [|discriminate].
  split.
  - intros H. exists d. split; [reflexivity|]. apply negb_true_iff, H.
  - intros (d' & H & Hn). inversion H; subst. apply negb_true_iff, Hn.
Qed.

(** ** [norm] *)




(** ** [cross] *)








(** ** [parent_module] *)


(** ** Length *)

(** A text of bytes from 1 to 127: every character is one byte. *)
Fixpoint single_bytes (s : string) : Prop :=
  match s with
  | EmptyString => True
  | String c s' => 0 < byte_of c < 128 /\ single_bytes s'
  end.

Lemma length_drop k : forall p, (k <= String.length p)%nat ->
  String.length (drop k p) = (String.length p - k)%nat.
Proof.
  induction k as [|k IH]; intros p H; cbn [drop]; [lia|].
  destruct p as [|c p]; cbn in H |- *; [lia|]. apply IH. lia.
Qed.

Lemma utf8_skip_positive b : (1 <= utf8_skip b)%nat.
Proof. unfold utf8_skip. repeat (destruct (_ <? _); [lia|]). lia. Qed.

Lemma utf8_strlen_from_le fuel : forall p,
  (utf8_strlen_from fuel p <= String.length p)%nat.
Proof.
  induction fuel as [|fuel IH]; intros p; cbn [utf8_strlen_from]; [lia|].
  destruct (deref p =? 0); [lia|].
  destruct (Nat.leb_spec (utf8_skip (deref p)) (String.length p)) as [H|H]; [|lia].
  specialize (IH (drop (utf8_skip (deref p)) p)).
  rewrite length_drop in IH by exact H.
  pose proof (utf8_skip_positive (deref p)). lia.
Qed.

Lemma utf8_strlen_from_single_bytes p : forall fuel,
  single_bytes p -> (String.length p <= fuel)%nat ->
  utf8_strlen_from fuel p = String.length p.
Proof.
  induction p as [|c p IH]; intros fuel Hs Hf.
  - destruct fuel; reflexivity.
  - destruct fuel as [|fuel]; [cbn in Hf; lia|].
    destruct Hs as [Hc Hs]. cbn [utf8_strlen_from deref].
    replace (byte_of c =? 0) with false by (symmetry; apply Z.eqb_neq; lia).
    unfold utf8_skip. replace (byte_of c <? 192) with true
      by (symmetry; apply Z.ltb_lt; lia).
    cbn [Nat.leb String.length drop advance]. rewrite IH; [reflexivity|exact Hs|].
    cbn in Hf. lia.
Qed.

(** X17.  [len] counts the characters of a string, not its bytes, and the
    elements of a vector.  The length of a string is never more than its
    number of bytes, and is that number when every byte is from 1 to 127;
    the length of a vector of less than 2^31 elements is its number of
    elements, so the length of what [concat] returns is the sum over its
    arguments, a vector counting with its elements and anything else as
    one. *)
Theorem length_counts_characters (s : string) (l args : list Value) :
  (exists n,
     builtin_length [STRING s] = (NUMBER (of_nat n), [])
     /\ (n <= String.length s)%nat
     /\ (single_bytes s -> n = String.length s))
  /\ (Z.of_nat (List.length l) < 2 ^ 31 ->
      builtin_length [VECTOR l] = (NUMBER (of_nat (List.length l)), []))
  /\ (Z.of_nat (list_sum (map (fun v => List.length (flattened v)) args)) < 2 ^ 31 ->
      builtin_length [fst (builtin_concat args)]
      = (NUMBER (of_nat (list_sum (map (fun v => List.length (flattened v)) args))),
         [])).
Proof.
  assert (Hv : forall l', Z.of_nat (List.length l') < 2 ^ 31 ->
                 builtin_length [VECTOR l'] = (NUMBER (of_nat (List.length l')), [])).
  { intros l' H. unfold builtin_length. cbn [numArgs List.length getArgValue].
    cbn -[Z.pow double_of_int int_of_size of_nat].
    unfold int_of_size, double_of_int, of_nat.
    rewrite (Z.mod_small (Z.of_nat (List.length l'))) by lia.
    replace (Z.of_nat (List.length l') <? 2 ^ 31) with true
      by (symmetry; apply Z.ltb_lt; exact H).
    replace (Z.of_nat (List.length l') <? 0) with false
      by (symmetry; apply Z.ltb_ge; lia).
    reflexivity. }
  split.
  - exists (g_utf8_strlen s). split; [reflexivity|]. split.
    + apply utf8_strlen_from_le.
    + intros H. apply utf8_strlen_from_single_bytes; [exact H|lia].
  - split; [apply Hv|].
    intros H.
    assert (E : builtin_concat args = (VECTOR (flat_map flattened args), []))
      by (unfold builtin_concat; rewrite concat_loop_flat_map; reflexivity).
    assert (El : List.length (flat_map flattened args)
                 = list_sum (map (fun v => List.length (flattened v)) args)).
    { clear. induction args as [|v args IH]; [reflexivity|].
      cbn [flat_map map list_sum]. rewrite length_app, IH. reflexivity. }
    rewrite E. cbn [fst]. rewrite <- El in H |- *. apply Hv, H.
Qed.

End Facts.

(** ** Instances of the theorems that carry hypotheses *)



End MoreBuiltinsSpec.

(* ================================================================== *)
(** * Further properties of the compile orchestrator *)
(* ================================================================== *)

Module MainWinProps.

Import Double MainWin MainWinSpec.

Section Facts.

Context {collab : Collaborators}.

(** ** The lock, the timers and the worker over a pass *)

(** What a pass holds while it runs and must hand back: the GUI lock, the
    auto-reload timer it stops, and the two things it can leave pending, the
    wait-after-reload timer and the CGAL worker. *)
Definition pass_state (w : MainWindow) : Z * bool * bool * bool :=
  (gui_locked w, autoReloadTimer w, waitAfterReloadTimer w, cgalworker_started w).

(** The events dispatched during a pass leave these alone, and the switch of
    the hard warnings. *)
Definition events_keep_pass_state (env : Env) : Prop :=
  forall w,
    pass_state (QApplication_processEvents env w) = pass_state w
    /\ hardwarnings (QApplication_processEvents env w) = hardwarnings w.

(** How a pass ends ([compileEnded], [exceptionCleanup]): the lock is
    released and the auto-reload timer started again when auto-reload is
    checked. *)
Definition ended (env : Env) (s : Z * bool * bool * bool) : Z * bool * bool * bool :=
  let '(locked, autoReload, waiting, worker) := s in
  (uint (locked - 1),
   if designActionAutoReload_isChecked env then true else autoReload,
   waiting, worker).

(** How a pass is left pending: with the CGAL worker started, or with the
    wait-after-reload timer armed. *)
Definition rendering (s : Z * bool * bool * bool) : Z * bool * bool * bool :=
  let '(locked, autoReload, waiting, worker) := s in
  (locked, autoReload, waiting, true).

Definition waiting_for_reload (s : Z * bool * bool * bool) : Z * bool * bool * bool :=
  let '(locked, autoReload, waiting, worker) := s in
  (locked, autoReload, true, worker).

(** A field update that does not touch what [view] reads. *)
Ltac frame_setter view :=
  match goal with
  | |- context [view (?s ?v ?w)] =>
      let E := fresh "E" in
      assert (E : forall w0, view (s v w0) = view w0) by (intros []; reflexivity);
      rewrite E; clear E
  end.

Lemma pass_state_processEvents env w :
  events_keep_pass_state env -> pass_state (processEvents env w) = pass_state w.
Proof.
  intros H. unfold processEvents. destruct (procevents w); [apply H|reflexivity].
Qed.

Lemma hardwarnings_processEvents env w :
  events_keep_pass_state env -> hardwarnings (processEvents env w) = hardwarnings w.
Proof.
  intros H. unfold processEvents. destruct (procevents w); [apply H|reflexivity].
Qed.

(** A run through straight-line code: every window bound by a [let] has the
    pass state [S], whatever else it holds. *)
Ltac frame H S :=
  repeat first
    [ match goal with Hw : ?g |- ?g => exact Hw end
    | match goal with |- ?a = ?a => reflexivity end
    | match goal with
      | |- context C [let x := ?A in @?B x] =>
          lazymatch type of A with
          | @MainWindow _ =>
              let w1 := fresh "w" in
              let Hw := fresh "Hw" in
              pose (w1 := A);
              let g := context C [B w1] in
              change g; cbv beta;
              assert (Hw : pass_state w1 = S) by (subst w1; frame H S);
              clearbody w1
          | _ =>
              let g := context C [B A] in
              change g; cbv beta
          end
      end
    | rewrite (pass_state_processEvents _ _ H)
    | frame_setter (@pass_state)
    | match goal with
      | |- context [match ?X with _ => _ end] =>
          lazymatch X with
          | context [match _ with _ => _ end] => fail
          | _ => destruct X
          end
      end ].

(** A statement of [compileCSG] on a window with the pass state [S] and the
    hard warnings [h]: the window it returns, or throws with, has them too,
    and it throws only under hard warnings. *)
Definition keeps (S : Z * bool * bool * bool) (h : bool)
    (r : MainWindow + MainWindow) : Prop :=
  match r with
  | inl w => pass_state w = S /\ hardwarnings w = h
  | inr w => pass_state w = S /\ hardwarnings w = h /\ h = true
  end.

Lemma keeps_PRINT S h msg w :
  pass_state w = S /\ hardwarnings w = h -> keeps S h (PRINT msg w).
Proof.
  intros [H1 H2]. unfold PRINT, keeps.
  assert (E1 : pass_state (write_message msg w) = S) by (destruct w; exact H1).
  assert (E2 : hardwarnings (write_message msg w) = h) by (destruct w; exact H2).
  rewrite E2. destruct (is_warning msg); cbn [andb]; [destruct h|]; auto.
Qed.

Lemma keeps_and_then S h r k :
  keeps S h r ->
  (forall w, pass_state w = S /\ hardwarnings w = h -> keeps S h (k w)) ->
  keeps S h (and_then r k).
Proof.
  intros Hr Hk. destruct r as [w|w]; cbn [and_then]; [apply Hk|]; exact Hr.
Qed.

Lemma keeps_processEvents env S h w :
  events_keep_pass_state env ->
  pass_state w = S /\ hardwarnings w = h ->
  pass_state (processEvents env w) = S /\ hardwarnings (processEvents env w) = h.
Proof.
  intros H [H1 H2].
  rewrite (pass_state_processEvents _ _ H), (hardwarnings_processEvents _ _ H).
  split; assumption.
Qed.

(** The field updates of [compileCSG]. *)
Ltac keeps_setter :=
  match goal with
  | H : pass_state ?w = ?S /\ hardwarnings ?w = ?h
    |- pass_state (?s ?v ?w) = ?S /\ hardwarnings (?s ?v ?w) = ?h =>
      destruct w; exact H
  end.

Lemma keeps_report_func env now count mark S h w :
  events_keep_pass_state env ->
  pass_state w = S /\ hardwarnings w = h ->
  pass_state (fst (report_func env now count mark w)) = S
  /\ hardwarnings (fst (report_func env now count mark w)) = h.
Proof.
  intros H Hw. unfold report_func.
  destruct (hasExpired now w MIN_TIMEOUT); [|exact Hw].
  assert (H1 : pass_state (set_progressThrottle now w) = S
               /\ hardwarnings (set_progressThrottle now w) = h) by keeps_setter.
  destruct (progresswidget (set_progressThrottle now w)) as [pw|]; [|exact H1].
  match goal with
  | |- context [if ?c then ?a else ?b] => set (w2 := if c then a else b)
  end.
  assert (H2 : pass_state w2 = S /\ hardwarnings w2 = h).
  { subst w2. destruct (value pw <? _); [|exact H1].
    destruct (H (set_progresswidget
                   (Some {| value := (let v := int_of_double
                                        (double_of_int mark * 1000
                                         / double_of_int count)%float in
                                      if v <? 1000 then v else 999);
                            wasCanceled := wasCanceled pw |})
                   (set_progressThrottle now w))) as [E1 E2].
    cbv zeta in E1, E2. rewrite E1, E2. destruct w. exact Hw. }
  destruct (progresswidget w2) as [pw'|]; [destruct (wasCanceled pw')|]; exact H2.
Qed.

Lemma keeps_report_run env count calls S h : forall w,
  events_keep_pass_state env ->
  pass_state w = S /\ hardwarnings w = h ->
  pass_state (fst (report_run env count calls w)) = S
  /\ hardwarnings (fst (report_run env count calls w)) = h.
Proof.
  induction calls as [|[now mark] calls IH]; intros w H Hw; [exact Hw|].
  cbn [report_run].
  pose proof (keeps_report_func env now count mark S h w H Hw) as H1.
  destruct (report_func env now count mark w) as [w1 [e|]]; cbn [fst] in *.
  - exact H1.
  - apply IH; assumption.
Qed.

Lemma keeps_compileCSG_evaluate env root S h w :
  events_keep_pass_state env ->
  pass_state w = S /\ hardwarnings w = h ->
  keeps S h (compileCSG_evaluate env root w).
Proof.
  intros H Hw. unfold compileCSG_evaluate.
  pose proof (keeps_report_run env (progress_report_count (buildCSGTree env root))
                (progress_calls (buildCSGTree env root)) S h (processEvents env w) H
                (keeps_processEvents env S h w H Hw)) as H1.
  destruct (report_run _ _ _ _) as [w1 thrown]. cbn [fst] in H1.
  destruct thrown as [[]|];
    [apply keeps_PRINT; exact H1|apply keeps_PRINT; exact H1|].
  destruct (build_root (buildCSGTree env root)) as [term|[]];
    [|apply keeps_PRINT; exact H1|apply keeps_PRINT; exact H1].
  assert (H2 : pass_state (set_csgRoot term w1) = S
               /\ hardwarnings (set_csgRoot term w1) = h) by keeps_setter.
  assert (H3 : keeps S h
            (and_then (PRINT GeometryCache_print (set_csgRoot term w1))
               (fun w0 => and_then (PRINT CGALCache_print w0)
               (fun w2 => inl (processEvents env w2))))).
  { apply keeps_and_then; [apply keeps_PRINT; exact H2|]. intros w2 Hw2.
    apply keeps_and_then; [apply keeps_PRINT; exact Hw2|]. intros w3 Hw3.
    apply (keeps_processEvents env S h w3 H Hw3). }
  destruct (and_then _ _) as [w2|w2]; [exact H3|].
  apply keeps_PRINT. destruct H3 as (E1 & E2 & _). split; assumption.
Qed.

Lemma keeps_compileCSG_products env built S h w :
  events_keep_pass_state env ->
  pass_state w = S /\ hardwarnings w = h ->
  keeps S h (compileCSG_products env built w).
Proof.
  intros H Hw. unfold compileCSG_products.
  apply keeps_and_then.
  { destruct (csgRoot w); [|exact Hw].
    set (w1 := set_normalizedRoot _ w).
    assert (H1 : pass_state w1 = S /\ hardwarnings w1 = h)
      by (subst w1; keeps_setter).
    destruct (normalizedRoot w1).
    - cbn [keeps]. keeps_setter.
    - apply keeps_and_then.
      + apply keeps_PRINT. keeps_setter.
      + intros w2 Hw2. apply (keeps_processEvents env S h w2 H Hw2). }
  intros w1 Hw1. apply keeps_and_then.
  { destruct (0 <? _).
    - apply keeps_and_then; [apply keeps_PRINT; exact Hw1|].
      intros w2 Hw2. cbn [keeps].
      pose proof (keeps_processEvents env S h w2 H Hw2). keeps_setter.
    - cbn [keeps]. keeps_setter. }
  intros w2 Hw2. apply keeps_and_then.
  { destruct (0 <? _).
    - apply keeps_and_then; [apply keeps_PRINT; exact Hw2|].
      intros w3 Hw3. cbn [keeps].
      pose proof (keeps_processEvents env S h w3 H Hw3). keeps_setter.
    - cbn [keeps]. keeps_setter. }
  intros w3 Hw3. cbv zeta. apply keeps_and_then.
  { destruct (root_products w3) as [products|].
    - destruct (openCSGLimit env <? CSGProducts_size products).
      + apply keeps_and_then; [apply keeps_PRINT; exact Hw3|].
        intros w4 Hw4. apply keeps_PRINT. exact Hw4.
      + apply keeps_and_then; [apply keeps_PRINT; exact Hw3|].
        intros w4 Hw4. cbn [keeps]. keeps_setter.
    - apply keeps_and_then; [apply keeps_PRINT; exact Hw3|].
      intros w4 Hw4. cbn [keeps]. keeps_setter. }
  intros w4 Hw4. apply keeps_and_then; [apply keeps_PRINT; keeps_setter|].
  intros w5 Hw5. apply keeps_and_then; [apply keeps_PRINT; exact Hw5|].
  intros w6 Hw6. apply (keeps_processEvents env S h w6 H Hw6).
Qed.

Lemma keeps_compileCSG_try env root S h w :
  events_keep_pass_state env ->
  pass_state w = S /\ hardwarnings w = h ->
  keeps S h (compileCSG_try env root w).
Proof.
  intros H Hw. unfold compileCSG_try.
  apply keeps_and_then; [apply keeps_PRINT; exact Hw|].
  intros w1 Hw1. cbv zeta.
  pose proof (keeps_processEvents env S h w1 H Hw1) as Hw2.
  apply keeps_and_then.
  { apply keeps_compileCSG_evaluate; [exact H|]. keeps_setter. }
  intros w3 Hw3. apply keeps_and_then; [apply keeps_PRINT; keeps_setter|].
  intros w4 Hw4. apply keeps_compileCSG_products; [exact H|].
  apply (keeps_processEvents env S h w4 H Hw4).
Qed.

Lemma pass_state_exceptionCleanup env w :
  pass_state (exceptionCleanup env w) = ended env (pass_state w).
Proof.
  unfold exceptionCleanup, PRINT_returns, GuiLocker_unlock, ended, pass_state.
  destruct w. destruct (designActionAutoReload_isChecked env); reflexivity.
Qed.

(** [compileCSG] leaves the lock, the timers and the worker alone, unless a
    hard warning aborts it, which ends the pass. *)
Lemma pass_state_compileCSG env w :
  events_keep_pass_state env ->
  pass_state (compileCSG env w) = pass_state w
  \/ (enableHardwarnings env = true
      /\ pass_state (compileCSG env w) = ended env (pass_state w)).
Proof.
  intros H. unfold compileCSG.
  set (w0 := set_hardwarnings (enableHardwarnings env) w).
  assert (Hw0 : pass_state w0 = pass_state w
                /\ hardwarnings w0 = enableHardwarnings env)
    by (subst w0; destruct w; split; reflexivity).
  destruct (root_node w0) as [root|]; [|left; apply Hw0].
  pose proof (keeps_compileCSG_try env root _ _ w0 H Hw0) as Hk.
  destruct (compileCSG_try env root w0) as [w1|w1]; cbn [keeps] in Hk.
  - left. apply Hk.
  - right. destruct Hk as (E1 & _ & E2). split; [exact E2|].
    rewrite pass_state_exceptionCleanup, E1. reflexivity.
Qed.

Lemma pass_state_compileEnded env w :
  pass_state (compileEnded env w) = ended env (pass_state w).
Proof.
  unfold compileEnded, clearCurrentOutput, GuiLocker_unlock, ended, pass_state.
  destruct w. destruct (designActionAutoReload_isChecked env); reflexivity.
Qed.

Lemma pass_state_instantiateRoot env w :
  events_keep_pass_state env ->
  match instantiateRoot env w with
  | inl w' | inr w' => pass_state w' = pass_state w
  end.
Proof.
  intros H. cbv beta delta [instantiateRoot]. frame H (pass_state w).
Qed.

(** The ways a pass can leave the window; the last one is the end of a
    preview whose [compileCSG] was aborted by a hard warning, after which
    [csgRender] ends the pass a second time. *)
Definition left_as (env : Env) (s s' : Z * bool * bool * bool) : Prop :=
  s' = ended env s \/ s' = rendering s \/ s' = waiting_for_reload s
  \/ (enableHardwarnings env = true /\ s' = ended env (ended env s)).

Lemma pass_state_invokeMethod env callslot w :
  events_keep_pass_state env ->
  pass_state (invokeMethod env callslot w) = ended env (pass_state w)
  \/ pass_state (invokeMethod env callslot w) = rendering (pass_state w)
  \/ (enableHardwarnings env = true
      /\ pass_state (invokeMethod env callslot w) = ended env (ended env (pass_state w))).
Proof.
  intros H. destruct callslot; cbn [invokeMethod].
  - left. apply pass_state_compileEnded.
  - unfold csgRender. rewrite pass_state_compileEnded.
    destruct (root_node w); [|left; reflexivity].
    destruct (pass_state_compileCSG env w H) as [E|[Hh E]]; rewrite E; auto.
  - unfold csgReloadRender. rewrite pass_state_compileEnded.
    destruct (root_node w); [|left; reflexivity].
    destruct (pass_state_compileCSG env w H) as [E|[Hh E]]; rewrite E; auto.
  - unfold cgalRender. destruct (_ || _).
    + left. apply pass_state_compileEnded.
    + right. left. unfold PRINT_returns, rendering, pass_state. destruct w. reflexivity.
Qed.

Lemma pass_state_compileDone env didchange w :
  events_keep_pass_state env ->
  pass_state (compileDone env didchange w) = ended env (pass_state w)
  \/ pass_state (compileDone env didchange w) = rendering (pass_state w)
  \/ (enableHardwarnings env = true
      /\ pass_state (compileDone env didchange w) = ended env (ended env (pass_state w))).
Proof.
  intros H. unfold compileDone. destruct didchange.
  - pose proof (pass_state_instantiateRoot env (set_hardwarnings (enableHardwarnings env) w) H)
      as Hi.
    assert (E : pass_state (set_hardwarnings (enableHardwarnings env) w) = pass_state w)
      by (destruct w; reflexivity).
    rewrite E in Hi.
    destruct (instantiateRoot env _) as [w'|w'].
    + assert (Ep : pass_state (set_procevents false w') = pass_state w)
        by (rewrite <- Hi; destruct w'; reflexivity).
      destruct (pass_state_invokeMethod env (afterCompileSlot w')
                  (set_procevents false w') H) as [E'|[E'|[Hh E']]];
        rewrite Ep in E'; auto.
    + left. rewrite pass_state_exceptionCleanup, Hi. reflexivity.
  - left. cbn [invokeMethod]. rewrite pass_state_compileEnded.
    destruct w; reflexivity.
Qed.

Lemma pass_state_compile_body env reload forcedone w :
  match compile_body env reload forcedone w with
  | (w', exit_waitAfterReload) => pass_state w' = waiting_for_reload (pass_state w)
  | (w', _) => pass_state w' = pass_state w
  end.
Proof.
  destruct w. unfold pass_state, waiting_for_reload.
  unfold compile_body, parseTopLevelDocument, PRINT_returns. cbn -[Z.ltb Z.eqb].
  repeat match goal with
  | |- context [if ?c then _ else _] =>
      lazymatch c with
      | context [if _ then _ else _] => fail
      | _ => destruct c; cbn -[Z.ltb Z.eqb]
      end
  end; reflexivity.
Qed.

Lemma pass_state_compile env reload forcedone w :
  events_keep_pass_state env ->
  left_as env (pass_state w) (pass_state (compile env reload forcedone w)).
Proof.
  intros H. unfold compile, left_as.
  pose proof (pass_state_compile_body env reload forcedone w) as Hb.
  destruct (compile_body env reload forcedone w) as [w' [didchange| |]].
  - destruct (pass_state_compileDone env didchange w' H) as [E|[E|[Hh E]]];
      rewrite E, Hb; auto.
  - right. right. left. exact Hb.
  - left. rewrite pass_state_exceptionCleanup, Hb. reflexivity.
Qed.

(** The three ways of a pass, on the window. *)
Definition pass_ended (env : Env) (w w' : MainWindow) : Prop :=
  gui_locked w' = 0
  /\ autoReloadTimer w' = designActionAutoReload_isChecked env
  /\ waitAfterReloadTimer w' = waitAfterReloadTimer w
  /\ cgalworker_started w' = cgalworker_started w.

Definition pass_pending (w' : MainWindow) : Prop :=
  gui_locked w' = 1 /\ autoReloadTimer w' = false
  /\ (cgalworker_started w' = true \/ waitAfterReloadTimer w' = true).

Definition lock_released_twice (w' : MainWindow) : Prop :=
  gui_locked w' = 2 ^ 32 - 1 /\ GuiLocker_isLocked w' = true.

(** X18.  A pass and the GUI lock.  Started on a window that is not locked,
    by a preview, a render or a reload request, with events that leave the
    lock, the timers, the worker and the switch of the hard warnings alone,
    a pass returns in one of three ways when hard warnings are off: ended,
    with the lock released and the auto-reload timer running exactly if
    auto-reload is checked; or with the lock held and the CGAL worker
    started; or with the lock held and the wait-after-reload timer armed
    (in the last two the auto-reload timer is stopped).  With hard warnings
    on there is one more way: a warning aborts [compileCSG], the abort
    releases the lock and the end of the preview releases it again, so that
    the counter wraps to 2^32 - 1 and the GUI is left locked. *)
Theorem passes_and_the_lock env w :
  events_keep_pass_state env ->
  gui_locked w = 0 ->
  let entry_points :=
    [actionRenderPreview env w; actionRender env w; actionReloadRenderPreview env w] in
  Forall
    (fun w' =>
       pass_ended env w w' \/ pass_pending w'
       \/ (enableHardwarnings env = true /\ lock_released_twice w'))
    entry_points
  /\ (enableHardwarnings env = false ->
      Forall (fun w' => pass_ended env w w' \/ pass_pending w') entry_points).
Proof.
  intros H Hw entry_points.
  assert (Hs : forall w1 w',
            pass_state w1
            = (1, false, waitAfterReloadTimer w, cgalworker_started w) ->
            left_as env (pass_state w1) (pass_state w') ->
            pass_ended env w w' \/ pass_pending w'
            \/ (enableHardwarnings env = true /\ lock_released_twice w')).
  { intros w1 w' E1 Hl. rewrite E1 in Hl.
    unfold left_as, ended, rendering, waiting_for_reload, pass_state in Hl.
    unfold pass_ended, pass_pending, lock_released_twice, GuiLocker_isLocked.
    destruct Hl as [Hl|[Hl|[Hl|[Hh Hl]]]]; injection Hl as -> -> -> ->.
    - left. split; [reflexivity|]. split; [|split; reflexivity].
      destruct (designActionAutoReload_isChecked env); reflexivity.
    - right. left. auto.
    - right. left. auto.
    - right. right. split; [exact Hh|]. split; reflexivity. }
  assert (Hlocked : GuiLocker_isLocked w = false).
  { unfold GuiLocker_isLocked. rewrite Hw. reflexivity. }
  assert (Hlock : forall w0 : MainWindow,
            pass_state w0 = pass_state w ->
            pass_state (set_autoReloadTimer false (GuiLocker_lock w0))
            = (1, false, waitAfterReloadTimer w, cgalworker_started w)).
  { intros w0 E. unfold pass_state in *. destruct w0, w. cbn in *.
    injection E as -> -> -> ->. subst. reflexivity. }
  assert (Hall : Forall
            (fun w' =>
               pass_ended env w w' \/ pass_pending w'
               \/ (enableHardwarnings env = true /\ lock_released_twice w'))
            entry_points).
  { subst entry_points. constructor; [|constructor; [|constructor; [|constructor]]].
    - unfold actionRenderPreview. rewrite isLocked_set_preview_requested, Hlocked.
      unfold actionRenderPreview_pass.
      match goal with
      | |- context [compile env false false ?x] => set (w1 := x)
      end.
      assert (E1 : pass_state w1
                   = (1, false, waitAfterReloadTimer w, cgalworker_started w)).
      { subst w1. unfold setCurrentOutput.
        frame H (1, false, waitAfterReloadTimer w, cgalworker_started w).
        apply Hlock. destruct w; reflexivity. }
      pose proof (pass_state_compile env false false w1 H) as Hp.
      destruct (preview_requested (compile env false false w1)).
      + apply (Hs w1); [exact E1|].
        replace (pass_state (set_singleShot_actionRenderPreview _ _))
          with (pass_state (compile env false false w1))
          by (destruct (compile env false false w1); reflexivity).
        exact Hp.
      + apply (Hs w1); assumption.
    - unfold actionRender. rewrite Hlocked.
      match goal with
      | |- context [compile env false false ?x] => set (w1 := x)
      end.
      assert (E1 : pass_state w1
                   = (1, false, waitAfterReloadTimer w, cgalworker_started w)).
      { subst w1. unfold setCurrentOutput.
        frame H (1, false, waitAfterReloadTimer w, cgalworker_started w).
        apply Hlock. reflexivity. }
      apply (Hs w1); [exact E1|]. apply pass_state_compile, H.
    - unfold actionReloadRenderPreview. rewrite Hlocked.
      match goal with
      | |- context [compile env true false ?x] => set (w1 := x)
      end.
      assert (E1 : pass_state w1
                   = (1, false, waitAfterReloadTimer w, cgalworker_started w)).
      { subst w1. unfold setCurrentOutput.
        frame H (1, false, waitAfterReloadTimer w, cgalworker_started w).
        apply Hlock. reflexivity. }
      apply (Hs w1); [exact E1|]. apply pass_state_compile, H. }
  split; [exact Hall|].
  intros Hoff. eapply Forall_impl; [|exact Hall].
  intros w' [Ha|[Hb|[Hh _]]]; [left; exact Ha|right; exact Hb|congruence].
Qed.

End Facts.

(** ** Instances of the theorems that carry hypotheses *)

(** The three entry points on the window after start-up: the two previews
    run to their end and give the lock back, the render starts the worker
    and keeps it. *)
Lemma passes_and_the_lock_witness :
  gui_locked (actionRenderPreview quiet_env idle_window) = 0
  /\ gui_locked (actionReloadRenderPreview quiet_env idle_window) = 0
  /\ Forall
       (fun w' => pass_ended quiet_env idle_window w' \/ pass_pending w')
       [actionRenderPreview quiet_env idle_window; actionRender quiet_env idle_window;
        actionReloadRenderPreview quiet_env idle_window].
Proof.
  split; [reflexivity|]. split; [reflexivity|].
  apply (passes_and_the_lock (collab := probe_collaborators) quiet_env idle_window).
  - intros w. split; reflexivity.
  - reflexivity.
  - reflexivity.
Defined.

(** A preview under hard warnings of the design the normalizer answers with
    null. *)
Lemma hard_warning_releases_the_lock_twice :
  gui_locked (actionRenderPreview hard_overflow_env idle_window) = 2 ^ 32 - 1
  /\ actionRender hard_overflow_env (actionRenderPreview hard_overflow_env idle_window)
     = actionRenderPreview hard_overflow_env idle_window.
Proof. split; reflexivity. Qed.

End MainWinProps.

(* ================================================================== *)
(** * Properties of the editor, the animation, the view and the export *)
(* ================================================================== *)

Module MainWinMoreSpec.

Import Double DoubleFacts MainWin MainWinSpec MainWinMore.

(** ** Tabs to spaces *)

Lemma convert_loop_converted text : forall cnt converted,
  convertTabsToSpaces_loop text cnt converted
  = converted ++ convertTabsToSpaces_loop text cnt [].
Proof.
  induction text as [|c text IH]; intros cnt converted.
  - cbn. rewrite app_nil_r. reflexivity.
  - cbn [convertTabsToSpaces_loop]. destruct (c =? tab).
    + rewrite IH. rewrite (IH _ ([] ++ _)). cbn [app]. rewrite <- app_assoc. reflexivity.
    + rewrite IH. rewrite (IH _ ([] ++ _)). cbn [app]. rewrite <- app_assoc. reflexivity.
Qed.

Lemma convert_loop_no_tab text : forall cnt,
  ~ In tab (convertTabsToSpaces_loop text cnt []).
Proof.
  induction text as [|c text IH]; intros cnt; [intros []|].
  cbn [convertTabsToSpaces_loop]. destruct (c =? tab) eqn:E.
  - rewrite convert_loop_converted. intros H. apply in_app_or in H.
    destruct H as [H|H]; [|exact (IH _ H)].
    cbn [app] in H. apply repeat_spec in H. discriminate H.
  - rewrite convert_loop_converted. intros H. apply in_app_or in H.
    destruct H as [H|H]; [|exact (IH _ H)].
    destruct H as [H|[]]. subst c. discriminate E.
Qed.

Lemma convert_loop_tab_free text : forall cnt,
  ~ In tab text -> convertTabsToSpaces_loop text cnt [] = text.
Proof.
  induction text as [|c text IH]; intros cnt H; [reflexivity|].
  cbn [convertTabsToSpaces_loop].
  replace (c =? tab) with false
    by (symmetry; apply Z.eqb_neq; intros ->; apply H; left; reflexivity).
  rewrite convert_loop_converted, IH by (intros H'; apply H; right; exact H').
  reflexivity.
Qed.

(** X19.  [convertTabsToSpaces] leaves no tab in the text and leaves a text
    without tabs as it is; so converting a second time changes nothing. *)
Theorem convertTabsToSpaces_leaves_no_tab (text : QString) :
  ~ In tab (convertTabsToSpaces text)
  /\ (~ In tab text -> convertTabsToSpaces text = text)
  /\ convertTabsToSpaces (convertTabsToSpaces text) = convertTabsToSpaces text.
Proof.
  split; [apply convert_loop_no_tab|]. split; [apply convert_loop_tab_free|].
  apply convert_loop_tab_free, convert_loop_no_tab.
Qed.

(** A run of characters that are neither tabs nor newlines. *)
Definition plain (p : QString) : Prop :=
  Forall (fun c => c <> tab /\ c <> newline) p.

Lemma convert_loop_plain p : forall cnt rest,
  plain p -> 0 <= cnt <= 4 ->
  convertTabsToSpaces_loop (p ++ rest) cnt []
  = p ++ convertTabsToSpaces_loop rest ((cnt - Z.of_nat (List.length p)) mod 5) [].
Proof.
  induction p as [|c p IH]; intros cnt rest Hp Hc.
  - cbn [app List.length Z.of_nat]. rewrite Z.sub_0_r, Z.mod_small by lia. reflexivity.
  - inversion Hp as [|? ? [Ht Hn] Hp']; subst.
    cbn [app convertTabsToSpaces_loop].
    replace (c =? tab) with false by (symmetry; apply Z.eqb_neq; exact Ht).
    replace (c =? newline) with false by (symmetry; apply Z.eqb_neq; exact Hn).
    rewrite orb_false_r, convert_loop_converted. cbn [app]. f_equal.
    destruct (Z.leb_spec cnt 0).
    + assert (cnt = 0) by lia. subst cnt. rewrite IH by (try assumption; lia).
      do 2 f_equal. cbn [List.length]. rewrite Nat2Z.inj_succ.
      replace (0 - Z.succ (Z.of_nat (List.length p)))
        with (5 - 1 - Z.of_nat (List.length p) + (-1) * 5) by lia.
      rewrite Z.mod_add by lia. reflexivity.
    + rewrite IH by (try assumption; lia).
      do 2 f_equal. cbn [List.length]. rewrite Nat2Z.inj_succ. f_equal. lia.
Qed.

(** X20.  [convertTabsToSpaces] works cell by cell.  After a run [p] of [k]
    characters that are neither tabs nor newlines, standing at the beginning
    of the text, a tab is replaced by [(4 - k) mod 5] spaces (by none when
    [k mod 5] is 4) and a newline is kept, and the rest of the text is
    converted as a text of its own. *)
Theorem convertTabsToSpaces_by_cells (p rest : QString) :
  plain p ->
  convertTabsToSpaces (p ++ tab :: rest)
  = p ++ repeat space (Z.to_nat ((4 - Z.of_nat (List.length p)) mod 5))
      ++ convertTabsToSpaces rest
  /\ convertTabsToSpaces (p ++ newline :: rest)
     = p ++ newline :: convertTabsToSpaces rest.
Proof.
  intros Hp. unfold convertTabsToSpaces.
  rewrite !(convert_loop_plain p 4) by (try assumption; lia).
  set (cnt := (4 - Z.of_nat (List.length p)) mod 5).
  assert (Hc : 0 <= cnt < 5) by (apply Z.mod_pos_bound; lia).
  split; f_equal; cbn [convertTabsToSpaces_loop].
  - change (tab =? tab) with true. cbv iota.
    rewrite convert_loop_converted. cbn [app]. f_equal.
    replace (Z.min cnt 0) with 0 by lia. reflexivity.
  - change (newline =? tab) with false. change (newline =? newline) with true.
    cbv iota. rewrite orb_true_r, convert_loop_converted. reflexivity.
Qed.

(** ** The recent files *)

Lemma removeLast_while_firstn (maxRecentFiles : Z) : forall rounds files,
  0 <= maxRecentFiles -> (List.length files <= rounds)%nat ->
  removeLast_while rounds maxRecentFiles files
  = firstn (Z.to_nat maxRecentFiles) files.
Proof.
  induction rounds as [|k IH]; intros files Hm Hl.
  - destruct files; [|cbn in Hl; lia]. rewrite firstn_nil. reflexivity.
  - cbn [removeLast_while]. destruct (Z.ltb_spec maxRecentFiles (Z.of_nat (List.length files))).
    + rewrite IH.
      * rewrite removelast_firstn_len, firstn_firstn. f_equal. lia.
      * exact Hm.
      * rewrite removelast_firstn_len, length_firstn. lia.
    + rewrite firstn_all2 by lia. reflexivity.
Qed.

Lemma In_firstn {A} (x : A) n l : In x (firstn n l) -> In x l.
Proof.
  intros H. rewrite <- (firstn_skipn n l). apply in_or_app. left. exact H.
Qed.

Lemma removeAll_not_In x files : ~ In x (removeAll x files).
Proof.
  unfold removeAll. intros H. apply filter_In in H. destruct H as [_ H].
  rewrite String.eqb_refl in H. discriminate H.
Qed.

Lemma removeAll_absent x files : ~ In x files -> removeAll x files = files.
Proof.
  intros H. unfold removeAll. induction files as [|f files IH]; [reflexivity|].
  cbn [filter]. destruct (String.eqb_spec f x) as [->|Hne].
  - exfalso. apply H. left. reflexivity.
  - cbn [negb]. rewrite IH by (intros H'; apply H; right; exact H'). reflexivity.
Qed.

(** X21.  [updateRecentFiles] keeps a list of the most recently used files.  With
    room for at least one file, the new list is the file, followed by the
    old list without that file, cut to [maxRecentFiles] entries: the file is
    first and occurs once, the other entries are entries of the old list in
    their old order, a list without repetitions stays so, and opening the
    same file again changes nothing. *)
Theorem updateRecentFiles_most_recent_first (maxRecentFiles : Z)
    (infoFileName : string) (files : list string) :
  1 <= maxRecentFiles ->
  let files' := updateRecentFiles maxRecentFiles infoFileName files in
  files' = firstn (Z.to_nat maxRecentFiles) (infoFileName :: removeAll infoFileName files)
  /\ hd_error files' = Some infoFileName
  /\ count_occ string_dec files' infoFileName = 1%nat
  /\ Z.of_nat (List.length files') <= maxRecentFiles
  /\ (NoDup files -> NoDup files')
  /\ updateRecentFiles maxRecentFiles infoFileName files' = files'.
Proof.
  intros Hm files'.
  assert (E : forall l, updateRecentFiles maxRecentFiles infoFileName l
              = firstn (Z.to_nat maxRecentFiles) (infoFileName :: removeAll infoFileName l)).
  { intros l. unfold updateRecentFiles. apply removeLast_while_firstn; [lia|lia]. }
  assert (Ef : files' = infoFileName
                 :: firstn (Z.to_nat (maxRecentFiles - 1)) (removeAll infoFileName files)).
  { subst files'. rewrite E.
    replace (Z.to_nat maxRecentFiles) with (S (Z.to_nat (maxRecentFiles - 1))) by lia.
    reflexivity. }
  assert (Hnot : ~ In infoFileName
                   (firstn (Z.to_nat (maxRecentFiles - 1)) (removeAll infoFileName files))).
  { intros H. apply In_firstn in H. exact (removeAll_not_In _ _ H). }
  split; [apply E|]. split; [rewrite Ef; reflexivity|].
  split.
  { rewrite Ef. cbn [count_occ]. destruct (string_dec infoFileName infoFileName); [|congruence].
    f_equal. apply count_occ_not_In, Hnot. }
  split.
  { rewrite Ef. cbn [List.length]. rewrite length_firstn. lia. }
  split.
  { intros Hnd. rewrite Ef. constructor; [exact Hnot|].
    assert (Hr : NoDup (removeAll infoFileName files)) by (apply NoDup_filter, Hnd).
    rewrite <- (firstn_skipn (Z.to_nat (maxRecentFiles - 1))) in Hr.
    exact (NoDup_app_remove_r _ _ Hr). }
  rewrite E, Ef. unfold removeAll at 1. cbn [filter].
  rewrite String.eqb_refl. cbn [negb]. fold (removeAll infoFileName
    (firstn (Z.to_nat (maxRecentFiles - 1)) (removeAll infoFileName files))).
  rewrite (removeAll_absent _ _ Hnot).
  replace (Z.to_nat maxRecentFiles) with (S (Z.to_nat (maxRecentFiles - 1))) by lia.
  cbn [firstn]. rewrite firstn_firstn, Nat.min_id. reflexivity.
Qed.

(** ** The rendering time *)

(** X22.  The hours, minutes and seconds printed give back the seconds elapsed:
    minutes and seconds are below 60, and the seconds elapsed are
    [3600 * hours + 60 * minutes + seconds]. *)
Theorem rendering_time_adds_up (s : Z) :
  0 <= s ->
  let '(hours, minutes, seconds) := rendering_time s in
  s = 3600 * hours + 60 * minutes + seconds
  /\ 0 <= hours /\ 0 <= minutes < 60 /\ 0 <= seconds < 60.
Proof.
  intros Hs. unfold rendering_time.
  rewrite !Z.quot_div_nonneg, !Z.rem_mod_nonneg by (try lia; apply Z.div_pos; lia).
  change (60 * 60) with 3600.
  pose proof (Z.div_mod s 60 ltac:(lia)) as H1.
  pose proof (Z.div_mod (s / 60) 60 ltac:(lia)) as H2.
  rewrite Z.div_div in H2 by lia. change (60 * 60) with 3600 in H2.
  pose proof (Z.mod_pos_bound s 60 ltac:(lia)).
  pose proof (Z.mod_pos_bound (s / 60) 60 ltac:(lia)).
  pose proof (Z.div_pos s 3600 Hs ltac:(lia)).
  lia.
Qed.

(** ** The animation *)

Section AnimationFacts.

Context {qstrings : QStrings}.

(** Writing the text of [e_tval] changes the value of [$t], the text and
    the previews emitted only. *)
Lemma e_tval_setText_frame txt a :
  anim_step (e_tval_setText txt a) = anim_step a
  /\ anim_numsteps (e_tval_setText txt a) = anim_numsteps a
  /\ anim_dumping (e_tval_setText txt a) = anim_dumping a
  /\ anim_dump_start_step (e_tval_setText txt a) = anim_dump_start_step a
  /\ e_dump_isChecked (e_tval_setText txt a) = e_dump_isChecked a
  /\ animate_timer_isActive (e_tval_setText txt a) = animate_timer_isActive a
  /\ frames (e_tval_setText txt a) = frames a.
Proof.
  unfold e_tval_setText. destruct (String.eqb txt (e_tval_text a));
    repeat split; reflexivity.
Qed.

(** A tick that acts writes the value with five digits to [e_tval]; when
    this changes the text, the value of [$t] is the one read back from the
    text and a preview is emitted, and otherwise neither happens. *)
Lemma updateTVal_writes_the_text a :
  anim_numsteps a <> 0 ->
  let next := updateTVal_next a in
  let txt := QString_number_f5 (anim_tval next) in
  let a' := updateTVal false a in
  e_tval_text a' = txt
  /\ (txt <> e_tval_text a ->
      anim_tval a' = updatedAnimTval (QString_toDouble txt)
      /\ previews_emitted a' = previews_emitted a + 1)
  /\ (txt = e_tval_text a ->
      anim_tval a' = anim_tval next /\ previews_emitted a' = previews_emitted a).
Proof.
  intros Hn next txt a'. subst a'. unfold updateTVal.
  replace (anim_numsteps a =? 0) with false by (symmetry; apply Z.eqb_neq; exact Hn).
  cbv zeta. fold next. fold txt. unfold e_tval_setText.
  assert (Et : e_tval_text next = e_tval_text a
               /\ previews_emitted next = previews_emitted a).
  { subst next. unfold updateTVal_next.
    destruct (1 <? anim_numsteps a); [split; reflexivity|].
    destruct (0 <? anim_numsteps a); split; reflexivity. }
  destruct Et as [Et Ep]. rewrite Et.
  destruct (String.eqb_spec txt (e_tval_text a)) as [E|E].
  - split; [rewrite Et; symmetry; exact E|].
    split; [intros H; contradiction|]. intros _. split; [reflexivity|exact Ep].
  - cbn. split; [reflexivity|]. split; [|intros H; contradiction].
    intros _. rewrite Ep. split; reflexivity.
Qed.

(** One tick of the timer with the animation running: more than one step,
    and the focus not in the parameter widget. *)
Lemma updateTVal_step a :
  1 < anim_numsteps a -> 0 <= anim_step a ->
  anim_step (updateTVal false a) = (anim_step a + 1) mod anim_numsteps a
  /\ anim_numsteps (updateTVal false a) = anim_numsteps a
  /\ anim_dumping (updateTVal false a) = anim_dumping a
  /\ anim_dump_start_step (updateTVal false a) = anim_dump_start_step a
  /\ e_dump_isChecked (updateTVal false a) = e_dump_isChecked a
  /\ animate_timer_isActive (updateTVal false a) = animate_timer_isActive a
  /\ frames (updateTVal false a) = frames a.
Proof.
  intros Hn Hs. unfold updateTVal.
  replace (anim_numsteps a =? 0) with false by (symmetry; apply Z.eqb_neq; lia).
  cbv zeta.
  destruct (e_tval_setText_frame
              (QString_number_f5 (anim_tval (updateTVal_next a))) (updateTVal_next a))
    as (E1 & E2 & E3 & E4 & E5 & E6 & E7).
  rewrite E1, E2, E3, E4, E5, E6, E7. unfold updateTVal_next.
  replace (1 <? anim_numsteps a) with true by (symmetry; apply Z.ltb_lt; lia).
  cbn. unfold int_rem. rewrite Z.rem_mod_nonneg by lia. repeat split; reflexivity.
Qed.

Lemma iter_updateTVal a k :
  1 < anim_numsteps a -> 0 <= anim_step a < anim_numsteps a ->
  anim_step (Nat.iter k (updateTVal false) a)
  = (anim_step a + Z.of_nat k) mod anim_numsteps a
  /\ anim_numsteps (Nat.iter k (updateTVal false) a) = anim_numsteps a.
Proof.
  intros Hn Hs. induction k as [|k [IH1 IH2]].
  - cbn. rewrite Z.add_0_r, Z.mod_small by lia. split; reflexivity.
  - rewrite Nat.iter_succ.
    destruct (updateTVal_step (Nat.iter k (updateTVal false) a)) as (E1 & E2 & _).
    + rewrite IH2. exact Hn.
    + rewrite IH1. apply Z.mod_pos_bound. lia.
    + rewrite E1, E2, IH1, IH2. split; [|reflexivity].
      rewrite Nat2Z.inj_succ, Zplus_mod_idemp_l. f_equal. lia.
Qed.

(** X23.  The animation runs through its steps in a cycle.  With [n > 1] steps
    and the step within [0, n), the [k]-th tick of the timer leaves the step
    at [(step + k) mod n]: it stays within [0, n) and is back where it was
    after [n] ticks.  A tick does nothing when there are no steps or the
    focus is in the parameter widget. *)
Theorem animation_steps_cycle (a : Animation) (k : nat) :
  1 < anim_numsteps a -> 0 <= anim_step a < anim_numsteps a ->
  anim_step (Nat.iter k (updateTVal false) a)
  = (anim_step a + Z.of_nat k) mod anim_numsteps a
  /\ 0 <= anim_step (Nat.iter k (updateTVal false) a) < anim_numsteps a
  /\ anim_step (Nat.iter (Z.to_nat (anim_numsteps a)) (updateTVal false) a)
     = anim_step a
  /\ updateTVal true a = a
  /\ (forall focus b, anim_numsteps b = 0 -> updateTVal focus b = b).
Proof.
  intros Hn Hs.
  destruct (iter_updateTVal a k Hn Hs) as [E _].
  split; [exact E|]. split; [rewrite E; apply Z.mod_pos_bound; lia|].
  split.
  { destruct (iter_updateTVal a (Z.to_nat (anim_numsteps a)) Hn Hs) as [E' _].
    rewrite E', Z2Nat.id by lia.
    rewrite <- (Z.mul_1_l (anim_numsteps a)) at 1.
    rewrite Z.mod_add by lia. apply Z.mod_small, Hs. }
  split.
  { unfold updateTVal. destruct (anim_numsteps a =? 0); reflexivity. }
  intros focus b Hb. unfold updateTVal. rewrite Hb. reflexivity.
Qed.

(** One frame of a running animation: the preview is rendered and the frame
    dumped, then the timer ticks. *)
Definition render_and_tick (a : Animation) : Animation :=
  updateTVal false (csgRender_dump a).

(** The steps from [s] on, [k] of them, in a cycle of [n]. *)
Definition steps_from (s n : Z) (k : nat) : list Z :=
  map (fun i => (s + Z.of_nat i) mod n) (seq 0 k).

Lemma steps_from_succ s n k :
  steps_from s n (S k) = steps_from s n k ++ [(s + Z.of_nat k) mod n].
Proof. unfold steps_from. rewrite seq_S, map_app. reflexivity. Qed.

(** While the dump goes on: [k] frames are saved, and the animation stands
    at the step after them. *)
Definition dumping_at (a0 : Animation) (k : nat) (a : Animation) : Prop :=
  anim_numsteps a = anim_numsteps a0
  /\ anim_step a = (anim_step a0 + Z.of_nat k) mod anim_numsteps a0
  /\ anim_dumping a = true
  /\ anim_dump_start_step a = anim_step a0
  /\ e_dump_isChecked a = true
  /\ animate_timer_isActive a = true
  /\ frames a = frames a0 ++ steps_from (anim_step a0) (anim_numsteps a0) k.

Lemma mod_shift_neq s n k :
  0 <= s < n -> 0 < k < n -> (s + k) mod n <> s.
Proof.
  intros Hs Hk E.
  destruct (Z.ltb_spec (s + k) n).
  - rewrite Z.mod_small in E by lia. lia.
  - replace (s + k) with (s + k - n + 1 * n) in E by lia.
    rewrite Z.mod_add, Z.mod_small in E by lia. lia.
Qed.

Lemma dump_goes_on a0 :
  1 < anim_numsteps a0 -> 0 <= anim_step a0 < anim_numsteps a0 ->
  anim_dumping a0 = false -> e_dump_isChecked a0 = true ->
  animate_timer_isActive a0 = true ->
  forall k, (0 < k)%nat -> Z.of_nat k <= anim_numsteps a0 ->
  dumping_at a0 k (Nat.iter k render_and_tick a0).
Proof.
  intros Hn Hs Hd He Ht. induction k as [|k IH]; intros Hk Hkn; [lia|].
  rewrite Nat.iter_succ. unfold render_and_tick at 1.
  destruct k as [|k].
  - (* the first frame *)
    change (Nat.iter 0 render_and_tick a0) with a0.
    assert (E : csgRender_dump a0
                = {| anim_step := anim_step a0; anim_numsteps := anim_numsteps a0;
                     anim_tval := anim_tval a0; anim_dumping := true;
                     anim_dump_start_step := anim_step a0;
                     e_dump_isChecked := true; animate_timer_isActive := true;
                     frames := frames a0 ++ [anim_step a0];
                     e_tval_text := e_tval_text a0;
                     previews_emitted := previews_emitted a0 |}).
    { unfold csgRender_dump. rewrite He, Ht, Hd. reflexivity. }
    destruct (updateTVal_step (csgRender_dump a0)) as (E1 & E2 & E3 & E4 & E5 & E6 & E7);
      [rewrite E; cbn; lia|rewrite E; cbn; lia|].
    unfold dumping_at. rewrite E1, E2, E3, E4, E5, E6, E7, E. cbn.
    rewrite Z.add_0_r, (Z.mod_small (anim_step a0)) by lia.
    repeat split; reflexivity.
  - destruct (IH ltac:(lia) ltac:(lia)) as (I1 & I2 & I3 & I4 & I5 & I6 & I7).
    set (a := Nat.iter (S k) render_and_tick a0) in *. clearbody a.
    assert (Hneq : (anim_dump_start_step a =? anim_step a) = false).
    { apply Z.eqb_neq. rewrite I4, I2. intros E. symmetry in E.
      apply (mod_shift_neq (anim_step a0) (anim_numsteps a0) (Z.of_nat (S k)));
        [lia|lia|exact E]. }
    assert (E : csgRender_dump a
                = {| anim_step := anim_step a; anim_numsteps := anim_numsteps a;
                     anim_tval := anim_tval a; anim_dumping := true;
                     anim_dump_start_step := anim_dump_start_step a;
                     e_dump_isChecked := true; animate_timer_isActive := true;
                     frames := frames a ++ [anim_step a];
                     e_tval_text := e_tval_text a;
                     previews_emitted := previews_emitted a |}).
    { unfold csgRender_dump. rewrite I5, I6, I3, Hneq. reflexivity. }
    destruct (updateTVal_step (csgRender_dump a)) as (E1 & E2 & E3 & E4 & E5 & E6 & E7);
      [rewrite E; cbn; rewrite I1; lia
      |rewrite E; cbn; rewrite I2; apply Z.mod_pos_bound; lia|].
    unfold dumping_at. rewrite E1, E2, E3, E4, E5, E6, E7, E.
    cbn [anim_step anim_numsteps anim_dumping anim_dump_start_step
         e_dump_isChecked animate_timer_isActive frames].
    rewrite I1, I2, I4, I7, (steps_from_succ _ _ (S k)), <- app_assoc.
    repeat split; try reflexivity.
    rewrite Zplus_mod_idemp_l. f_equal. lia.
Qed.

Lemma NoDup_map_of_nat (l : list nat) : NoDup l -> NoDup (map Z.of_nat l).
Proof.
  induction 1 as [|x l Hx Hl IH]; cbn; constructor; [|exact IH].
  intros Hin. apply in_map_iff in Hin. destruct Hin as (y & Hy & Hin).
  apply Nat2Z.inj in Hy. subst y. exact (Hx Hin).
Qed.

Lemma steps_from_NoDup s n :
  0 <= s < n -> NoDup (steps_from s n (Z.to_nat n)).
Proof.
  intros Hs. unfold steps_from.
  apply (NoDup_map_inv (fun r => (r - s) mod n)).
  rewrite map_map.
  rewrite (map_ext_in _ Z.of_nat).
  - apply NoDup_map_of_nat, seq_NoDup.
  - intros i Hi. apply in_seq in Hi.
    rewrite Zminus_mod_idemp_l. replace (s + Z.of_nat i - s) with (Z.of_nat i) by lia.
    apply Z.mod_small. lia.
Qed.

(** X24.  A dump of the animation saves every frame of the cycle once and then
    turns itself off.  With [n > 1] steps, the step at [s] within [0, n),
    the timer running, the dump checked but not begun and a preview
    following every tick, the first [n] previews save the frames of the steps [s], [s + 1], ... in a cycle, [n]
    frames of [n] different steps; the next preview, which is at step [s]
    again, saves nothing, ends the dump and unchecks it, and from then on a
    preview saves nothing. *)
Theorem animation_dump_saves_one_cycle (a0 : Animation) :
  1 < anim_numsteps a0 -> 0 <= anim_step a0 < anim_numsteps a0 ->
  anim_dumping a0 = false -> e_dump_isChecked a0 = true ->
  animate_timer_isActive a0 = true ->
  let n := Z.to_nat (anim_numsteps a0) in
  let cycle := steps_from (anim_step a0) (anim_numsteps a0) n in
  let a := csgRender_dump (Nat.iter n render_and_tick a0) in
  frames a = frames a0 ++ cycle
  /\ List.length cycle = n /\ NoDup cycle
  /\ e_dump_isChecked a = false /\ anim_dumping a = false
  /\ csgRender_dump a = a.
Proof.
  intros Hn Hs Hd He Ht n cycle a.
  destruct (dump_goes_on a0 Hn Hs Hd He Ht n ltac:(lia) ltac:(lia))
    as (I1 & I2 & I3 & I4 & I5 & I6 & I7).
  assert (Hback : anim_step (Nat.iter n render_and_tick a0) = anim_step a0).
  { rewrite I2. subst n. rewrite Z2Nat.id by lia.
    rewrite <- (Z.mul_1_l (anim_numsteps a0)) at 1.
    rewrite Z.mod_add by lia. apply Z.mod_small, Hs. }
  assert (E : a = {| anim_step := anim_step (Nat.iter n render_and_tick a0);
                     anim_numsteps := anim_numsteps (Nat.iter n render_and_tick a0);
                     anim_tval := anim_tval (Nat.iter n render_and_tick a0);
                     anim_dumping := false;
                     anim_dump_start_step :=
                       anim_dump_start_step (Nat.iter n render_and_tick a0);
                     e_dump_isChecked := false;
                     animate_timer_isActive := true;
                     frames := frames (Nat.iter n render_and_tick a0);
                     e_tval_text := e_tval_text (Nat.iter n render_and_tick a0);
                     previews_emitted :=
                       previews_emitted (Nat.iter n render_and_tick a0) |}).
  { subst a. unfold csgRender_dump. rewrite I5, I6, I3, I4, Hback, Z.eqb_refl.
    reflexivity. }
  split; [rewrite E; cbn; exact I7|].
  split; [subst cycle; unfold steps_from; rewrite length_map, length_seq; reflexivity|].
  split; [apply steps_from_NoDup, Hs|].
  rewrite E. cbn. repeat split; reflexivity.
Qed.

End AnimationFacts.

(** X25.  The value of [$t] taken from the text field lies between 0 and 1: a
    text that is no number gives 0, a number below 0 gives 0, a number
    above 1 gives 1, a number from 0 to 1 is taken as it is; NaN alone
    passes as it is. *)
Theorem updatedAnimTval_clamps (t : double) :
  updatedAnimTval None = 0%float
  /\ (isnan t = false ->
      le 0%float (updatedAnimTval (Some t)) = true
      /\ le (updatedAnimTval (Some t)) 1%float = true)
  /\ (le 0%float t = true -> le t 1%float = true -> updatedAnimTval (Some t) = t)
  /\ (isnan t = true -> updatedAnimTval (Some t) = t).
Proof.
  split; [reflexivity|]. unfold updatedAnimTval, gt.
  split; [|split].
  - intros Hn. destruct (lt t 0%float) eqn:E0; [split; reflexivity|].
    destruct (lt 1%float t) eqn:E1; [split; reflexivity|].
    split; apply not_lt_le; try assumption; reflexivity.
  - intros H0 H1. rewrite (le_not_lt _ _ H0), (le_not_lt _ _ H1). reflexivity.
  - intros Hn. destruct (lt t 0%float) eqn:E0.
    { rewrite (lt_not_nan_l _ _ E0) in Hn. discriminate. }
    destruct (lt 1%float t) eqn:E1; [|reflexivity].
    rewrite (lt_not_nan_r _ _ E1) in Hn. discriminate.
Qed.

(** ** The view after a preview *)

Section ViewFacts.

Context {collab : Collaborators}.

(** Whether the products of the design are within the limit of OpenCSG. *)
Definition within_limit (env : Env) (w : MainWindow) : bool :=
  match root_products w with
  | Some products => CSGProducts_size products <=? openCSGLimit env
  | None => true
  end.

(** The renderer built from the products of the window. *)
Definition renderer_of (w : MainWindow) : Renderer :=
  {| renderer_root_products := root_products w;
     renderer_highlights_products := highlights_products w;
     renderer_background_products := background_products w |}.

(** X26.  A preview whose design is over the limit of OpenCSG is shown thrown
    together.  [compileCSG] runs with hard warnings off, with the events
    held back, the events dispatched inside the progress callback
    concerning the progress widget only, and the OpenCSG renderer reset, as
    [compileDone] and [instantiateRoot] leave them.  It then builds the
    thrown-together renderer, whatever the evaluation ends in, and builds
    the OpenCSG renderer only if the products are within the limit.  The
    view then shows the OpenCSG renderer if OpenCSG is supported, the
    thrown-together action was not checked and the products are within the
    limit, and the thrown-together renderer otherwise, never the CGAL
    renderer and never none; the preview action is checked whenever OpenCSG
    is supported and the thrown-together action was not checked, also over
    the limit, and exactly one of the preview and the thrown-together
    actions is checked. *)
Theorem preview_over_the_limit_is_thrown_together
    (env : Env) (hasOpenCSGSupport : bool) (w : MainWindow) (v : View)
    (root : AbstractNode) :
  procevents w = false -> root_node w = Some root -> opencsgRenderer w = None ->
  enableHardwarnings env = false -> events_on_progress_widget env ->
  let w' := compileCSG env w in
  let v' := csgRender_view hasOpenCSGSupport w' v in
  thrownTogetherRenderer w' = Some (renderer_of w')
  /\ opencsgRenderer w'
     = (if within_limit env w' then Some (renderer_of w') else None)
  /\ renderer v'
     = Some (if hasOpenCSGSupport && negb (viewActionThrownTogether v)
                && within_limit env w'
             then shown_opencsg (renderer_of w')
             else shown_thrown_together (renderer_of w'))
  /\ viewActionPreview v' = hasOpenCSGSupport && negb (viewActionThrownTogether v)
  /\ viewActionThrownTogether v' = negb (viewActionPreview v')
  /\ viewActionSurfaces v' = false /\ viewActionWireframe v' = false.
Proof.
  intros Hp Hr Ho Hhw He w' v'.
  assert (H : thrownTogetherRenderer w' = Some (renderer_of w')
              /\ opencsgRenderer w'
                 = (if within_limit env w' then Some (renderer_of w') else None)).
  { subst w'. unfold within_limit, renderer_of.
    destruct (compileCSG_evaluated env w root Hp Hr He) as [t E]. cbv zeta in E.
    remember (compileCSG env w) as w' eqn:Ew. clear Ew.
    destruct w. cbn in Hp, Hr, Ho. subst procevents0 root_node0 opencsgRenderer0.
    unfold compileCSG_products, PRINT in E.
    cbn -[normalizelimit Z.div Z.ltb Z.leb Z.of_nat import_terms callbacks] in E.
    rewrite Hhw in E.
    destruct (snd (callbacks env root _)) as [[]|];
      [| |destruct (build_root (buildCSGTree env root)) as [[term|]|[]]];
      cbn -[normalizelimit Z.div Z.ltb Z.leb Z.of_nat import_terms] in E;
      try destruct (CSGTreeNormalizer_normalize (normalizelimit env) term);
      try destruct csgRoot0 as [term0|];
      cbn -[normalizelimit Z.div Z.ltb Z.leb Z.of_nat import_terms] in E;
      try destruct (CSGTreeNormalizer_normalize (normalizelimit env) term0);
      cbn -[normalizelimit Z.div Z.ltb Z.leb Z.of_nat import_terms] in E;
      destruct (0 <? Z.of_nat (List.length (highlight_terms (buildCSGTree env root))));
      destruct (0 <? Z.of_nat (List.length (background_terms (buildCSGTree env root))));
      cbn -[normalizelimit Z.div Z.ltb Z.leb Z.of_nat import_terms] in E;
      repeat first
        [ progress cbn -[normalizelimit Z.div Z.ltb Z.leb Z.of_nat import_terms] in E
        | match type of E with
          | context [match root_products0 with Some _ => _ | None => _ end] =>
              destruct root_products0
          | context [if ?c then _ else _] => destruct c eqn:?
          end ];
      subst w';
      cbn [root_products highlights_products background_products opencsgRenderer
           thrownTogetherRenderer];
      repeat match goal with
             | |- context [?a <=? ?b] => destruct (Z.leb_spec a b)
             | H : (_ <? _) = true |- _ => apply Z.ltb_lt in H
             | H : (_ <? _) = false |- _ => apply Z.ltb_ge in H
             end;
      try (split; reflexivity); lia. }
  destruct H as [Ht Hc]. split; [exact Ht|]. split; [exact Hc|].
  subst v'. unfold csgRender_view, viewModePreview, viewModeThrownTogether.
  rewrite Ht, Hc.
  destruct (viewActionThrownTogether v), hasOpenCSGSupport, (within_limit env w');
    cbn; repeat split; reflexivity.
Qed.

(** The number of view actions that are checked. *)
Definition checked_actions (v : View) : nat :=
  List.length
    (filter (fun b : bool => b)
       [viewActionPreview v; viewActionSurfaces v; viewActionWireframe v;
        viewActionThrownTogether v]).

(** X27.  The view actions behave as one choice.  Whatever was checked before,
    and whether or not there is a renderer to show, each of the view modes
    leaves exactly one of the four actions checked, its own; the preview
    mode without OpenCSG support checks the thrown-together action
    instead.  Faces are shown in the surface mode and not in the wireframe
    mode, and the other modes leave that as it was. *)
Theorem view_modes_check_one_action
    (hasOpenCSGSupport cgalRenderer : bool) (w : MainWindow) (v : View) :
  Forall (fun v' => checked_actions v' = 1%nat)
    [viewModePreview hasOpenCSGSupport w v; viewModeSurface cgalRenderer v;
     viewModeWireframe cgalRenderer v; viewModeThrownTogether w v;
     csgRender_view hasOpenCSGSupport w v]
  /\ viewActionPreview (viewModePreview hasOpenCSGSupport w v) = hasOpenCSGSupport
  /\ viewActionThrownTogether (viewModePreview hasOpenCSGSupport w v)
     = negb hasOpenCSGSupport
  /\ viewActionSurfaces (viewModeSurface cgalRenderer v) = true
  /\ viewActionWireframe (viewModeWireframe cgalRenderer v) = true
  /\ viewActionThrownTogether (viewModeThrownTogether w v) = true
  /\ showFaces (viewModeSurface cgalRenderer v) = true
  /\ showFaces (viewModeWireframe cgalRenderer v) = false
  /\ showFaces (viewModePreview hasOpenCSGSupport w v) = showFaces v
  /\ showFaces (viewModeThrownTogether w v) = showFaces v.
Proof.
  split.
  - unfold csgRender_view, viewModePreview.
    repeat constructor; destruct hasOpenCSGSupport;
      try destruct (viewActionThrownTogether v); reflexivity.
  - unfold viewModePreview. destruct hasOpenCSGSupport; repeat split; reflexivity.
Qed.

End ViewFacts.

(** ** Export *)

(** X28.  An export writes only what [canExport] lets through, and gives the lock
    back.  With the GUI locked [actionExport] does nothing.  With the GUI
    free it ends with the GUI free, and either writes no file and
    remembers no path, or writes one file: the geometry of the window,
    which is of the dimension asked for and not empty, under the name the
    file dialog gave, which is not empty; the user agreed to export a
    content that is no longer the rendered one or is of another tab; and
    the name is remembered for the suffix, so that the dialog of the next
    export of this suffix starts from it. *)
Theorem export_writes_checked_geometry_once
    (dialogs : ExportDialogs) (userDocumentsPath : string) (editor : EditorFile)
    (type_name suffix : string) (dim : Z) (x : Exporter) :
  let x' := actionExport dialogs userDocumentsPath editor type_name suffix dim x in
  (0 < export_gui_locked x -> x' = x)
  /\ (export_gui_locked x = 0 ->
      export_gui_locked x' = 0
      /\ root_geom x' = root_geom x
      /\ ((exported x' = exported x /\ export_paths x' = export_paths x)
          \/ exists geom filename,
               root_geom x = Some geom
               /\ getDimension geom = dim /\ isEmpty geom = false
               /\ (contentsRendered x = true \/ export_previous_content dialogs = true)
               /\ (renderedEditor_is_active x = true \/ export_other_tab dialogs = true)
               /\ filename
                  = getSaveFileName dialogs (exportPath userDocumentsPath editor suffix x)
               /\ filename <> EmptyString
               /\ exported x' = exported x ++ [(geom, filename)]
               /\ exportPath userDocumentsPath editor suffix x' = filename
               /\ export_output_handler x' = false)).
Proof.
  intros x'. split.
  - intros H. subst x'. unfold actionExport.
    replace (0 <? export_gui_locked x) with true by (symmetry; apply Z.ltb_lt; exact H).
    reflexivity.
  - intros H. subst x'. destruct x as [l o g c a paths con ex]. cbn in H. subst l.
    unfold actionExport, canExport, exportPath. cbn -[MainWin.uint String.eqb].
    destruct g as [geom|]; cbn -[MainWin.uint String.eqb].
    2:{ split; [reflexivity|]. split; [reflexivity|].
        left. split; reflexivity. }
    destruct c, (export_previous_content dialogs); cbn -[MainWin.uint String.eqb];
      try (split; [reflexivity|]; split; [reflexivity|];
           left; split; reflexivity);
      (destruct a, (export_other_tab dialogs); cbn -[MainWin.uint String.eqb];
       try (split; [reflexivity|]; split; [reflexivity|];
            left; split; reflexivity);
       (destruct (getDimension geom =? dim) eqn:Ed; cbn -[MainWin.uint String.eqb];
        [|split; [reflexivity|]; split; [reflexivity|];
          left; split; reflexivity];
        apply Z.eqb_eq in Ed;
        destruct (isEmpty geom) eqn:Ee; cbn -[MainWin.uint String.eqb];
        [split; [reflexivity|]; split; [reflexivity|];
         left; split; reflexivity|];
        destruct (nef_not_simple geom); cbn -[MainWin.uint String.eqb];
        (match goal with
         | |- context [String.eqb ?f EmptyString] =>
             destruct (String.eqb_spec f EmptyString) as [En|En]
         end;
         cbn -[MainWin.uint String.eqb];
         (split; [reflexivity|]; split; [reflexivity|]);
         [left; split; reflexivity|];
         right; eexists; eexists;
         (split; [reflexivity|]); (split; [exact Ed|]); (split; [exact Ee|]);
         (split; [first [left; reflexivity | right; reflexivity]|]);
         (split; [first [left; reflexivity | right; reflexivity]|]);
         (split; [reflexivity|]); (split; [exact En|]); (split; [reflexivity|]);
         (split; [rewrite String.eqb_refl; reflexivity|reflexivity])))).
Qed.

(** ** The auto-reload timer *)

Section ReloadFacts.

Context {collab : Collaborators}.

(** Nothing has changed since the last pass: the file is as the editor
    has it, the document was compiled (or is empty), and neither the
    included files nor the used libraries are newer than the window has
    seen them. *)
Definition nothing_changed (env : Env) (w : MainWindow) : Prop :=
  fileChangedOnDisk env && checkEditorModified env = false
  /\ (current_doc_size env = 0 \/ last_compiled_doc_size w <> 0)
  /\ (parsed_module w = true -> includesChanged env <= includes_mtime w)
  /\ (root_module w = true -> handleDependencies env <= deps_mtime w)
  /\ would_have_thrown env = false.

Lemma compile_body_idle env w :
  nothing_changed env w ->
  compile_body env true false w
  = (set_hardwarnings (enableHardwarnings env) w, exit_compileDone false).
Proof.
  intros (Hf & Hd & Hi & Hm & Ht). destruct w. cbn in Hd, Hi, Hm.
  unfold compile_body. cbn -[Z.ltb Z.eqb]. rewrite Hf, Ht.
  assert (Hs : negb (current_doc_size env =? 0) && (last_compiled_doc_size0 =? 0) = false).
  { destruct Hd as [Hd|Hd].
    - rewrite Hd. reflexivity.
    - apply Z.eqb_neq in Hd. rewrite Hd. apply andb_false_r. }
  rewrite Hs.
  destruct parsed_module0.
  - replace (includes_mtime0 <? includesChanged env) with false
      by (symmetry; apply Z.ltb_ge, Hi; reflexivity).
    cbn -[Z.ltb Z.eqb]. destruct root_module0; [|reflexivity].
    replace (deps_mtime0 <? handleDependencies env) with false
      by (symmetry; apply Z.ltb_ge, Hm; reflexivity).
    reflexivity.
  - cbn -[Z.ltb Z.eqb]. destruct root_module0; [|reflexivity].
    replace (deps_mtime0 <? handleDependencies env) with false
      by (symmetry; apply Z.ltb_ge, Hm; reflexivity).
    reflexivity.
Qed.

(** X29.  A tick of the auto-reload timer that finds nothing changed leaves the
    design alone.  With the GUI free, [checkAutoReload] takes the lock and
    gives it back, parses nothing, instantiates nothing, builds no
    products and no renderer, writes nothing to the console and dispatches
    no event: the window is as it was but for the settings of a pass (the
    slot, [$preview], the hard warnings, event processing off, the output
    handler cleared), and the timer runs again if auto-reload is still
    checked.  For a document without a file the tick does nothing at
    all. *)
Theorem idle_reload_tick_keeps_the_design (env : Env) (w : MainWindow) :
  gui_locked w = 0 -> nothing_changed env w ->
  checkAutoReload env true w = w
  /\ checkAutoReload env false w
     = set_autoReloadTimer (designActionAutoReload_isChecked env)
         (set_gui_locked 0
           (set_output_handler false
             (set_procevents false
               (set_hardwarnings (enableHardwarnings env)
                 (set_preview (Some true)
                   (set_afterCompileSlot slot_csgReloadRender w)))))).
Proof.
  intros Hl Hn. split; [reflexivity|].
  unfold checkAutoReload, actionReloadRenderPreview, GuiLocker_isLocked.
  rewrite Hl. cbn [negb Z.ltb Z.compare].
  unfold compile. rewrite compile_body_idle.
  - destruct w. cbn in Hl. subst.
    unfold compileDone, invokeMethod, compileEnded. cbn.
    destruct (designActionAutoReload_isChecked env); reflexivity.
  - destruct w. exact Hn.
Qed.

End ReloadFacts.

(** ** Instances of the theorems that carry hypotheses *)

(** "ab", a tab, "c": the tab after two characters becomes two spaces. *)
Lemma convertTabsToSpaces_by_cells_witness :
  convertTabsToSpaces ([97; 98] ++ tab :: [99]) = [97; 98; space; space; 99].
Proof.
  destruct (convertTabsToSpaces_by_cells [97; 98] [99]) as [H _].
  - repeat constructor; discriminate.
  - exact H.
Defined.

(** Three recent files, and room for two. *)
Definition three_files : list string := ["a.scad"; "b.scad"; "c.scad"]%string.

Lemma updateRecentFiles_most_recent_first_witness :
  updateRecentFiles 2 "b.scad" three_files = ["b.scad"; "a.scad"]%string.
Proof.
  destruct (updateRecentFiles_most_recent_first 2 "b.scad" three_files ltac:(lia))
    as (H & _).
  exact H.
Defined.

(** An hour, a minute and a second. *)
Lemma rendering_time_adds_up_witness :
  3661 = 3600 * 1 + 60 * 1 + 1 /\ 0 <= 1 /\ 0 <= 1 < 60 /\ 0 <= 1 < 60.
Proof. exact (rendering_time_adds_up 3661 ltac:(lia)). Defined.

(** An animation of four steps at its step 3, with the dump checked. *)
Definition four_steps : Animation := {|
  anim_step := 3;
  anim_numsteps := 4;
  anim_tval := 0.75%float;
  anim_dumping := false;
  anim_dump_start_step := 0;
  e_dump_isChecked := true;
  animate_timer_isActive := true;
  frames := [];
  e_tval_text := "0.75000";
  previews_emitted := 0
|}.

(** The texts of the quarters. *)
#[local] Instance quarters : QStrings := {|
  QString_number_f5 := fun d =>
    if eqb d 0.25 then "0.25000"%string
    else if eqb d 0.5 then "0.50000"%string
    else if eqb d 0.75 then "0.75000"%string
    else "0.00000"%string;
  QString_toDouble := fun s =>
    if String.eqb s "0.25000" then Some 0.25%float
    else if String.eqb s "0.50000" then Some 0.5%float
    else if String.eqb s "0.75000" then Some 0.75%float
    else if String.eqb s "0.00000" then Some 0%float
    else None
|}.

(** A tick of the four steps at step 3: the text becomes that of 0, the
    value is read back from it and one preview is emitted. *)
Lemma four_steps_tick :
  e_tval_text (updateTVal false four_steps) = "0.00000"%string
  /\ anim_tval (updateTVal false four_steps) = 0%float
  /\ previews_emitted (updateTVal false four_steps) = 1.
Proof. repeat split; reflexivity. Qed.

Lemma animation_steps_cycle_witness :
  anim_step (Nat.iter 6 (updateTVal false) four_steps) = 1.
Proof.
  destruct (animation_steps_cycle four_steps 6) as [H _].
  - reflexivity.
  - split; [discriminate|reflexivity].
  - exact H.
Defined.

Lemma animation_dump_saves_one_cycle_witness :
  frames (csgRender_dump (Nat.iter 4 render_and_tick four_steps)) = [3; 0; 1; 2]
  /\ e_dump_isChecked (csgRender_dump (Nat.iter 4 render_and_tick four_steps)) = false.
Proof.
  destruct (animation_dump_saves_one_cycle four_steps) as (H1 & _ & _ & H2 & _).
  - reflexivity.
  - split; [discriminate|reflexivity].
  - reflexivity.
  - reflexivity.
  - reflexivity.
  - split; [exact H1|exact H2].
Defined.

(** A design of a thousand leaves under the ceiling 100, which the
    normalizer gives back with two products more than the ceiling allows. *)
#[local] Instance wide_collaborators : Collaborators := {|
  AbstractNode := unit;
  CSGNode := Z;
  CSGProducts := list Z;
  new_CSGProducts := [];
  CSGProducts_import := fun products term =>
    match term with Some t => products ++ [t] | None => products end;
  CSGProducts_size := fun products => Z.of_nat (List.length products) + 101;
  CSGTreeNormalizer_normalize := fun limit term => Some term
|}.

Definition unchecked_view : View (collab := wide_collaborators) := {|
  viewActionPreview := false;
  viewActionSurfaces := true;
  viewActionWireframe := false;
  viewActionThrownTogether := false;
  showFaces := true;
  renderer := Some shown_cgal
|}.

Definition wide_env : Env (collab := wide_collaborators) := {|
  enableHardwarnings := false;
  openCSGLimit := 100;
  designActionAutoReload_isChecked := false;
  viewActionAnimate_isChecked := false;
  fileChangedOnDisk := false;
  checkEditorModified := false;
  current_doc_size := 10;
  includesChanged := 0;
  parse_ok := true;
  parse_module := true;
  parse_error_pos := -1;
  handleDependencies := 0;
  would_have_thrown := false;
  hasIncludes := false;
  usesLibraries := false;
  ModuleCache_size := 1;
  instantiateWithFileContext := instantiated (Some tt);
  find_root_tag := fun _ => None;
  buildCSGTree := fun _ =>
    {| progress_report_count := 1; progress_calls := [];
       build_root := inl (Some 1000); highlight_terms := []; background_terms := [] |};
  renderingTime_elapsed := 0;
  QApplication_processEvents := fun w => w
|}.

Definition wide_window : MainWindow (collab := wide_collaborators) := {|
  gui_locked := 1;
  preview_requested := false;
  autoReloadTimer := false;
  waitAfterReloadTimer := false;
  singleShot_actionRenderPreview := 0;
  afterCompileSlot := slot_csgRender;
  procevents := false;
  preview := Some true;
  output_handler := true;
  console := [];
  hardwarnings := false;
  parsed_module := true;
  root_module := true;
  includes_mtime := 0;
  deps_mtime := 0;
  parser_error_pos := -1;
  last_parser_error_pos := -1;
  last_compiled_doc_size := 10;
  absolute_root_node := Some tt;
  root_node := Some tt;
  csgRoot := None;
  normalizedRoot := None;
  root_products := None;
  highlights_products := None;
  background_products := None;
  opencsgRenderer := None;
  thrownTogetherRenderer := None;
  progresswidget := None;
  progressThrottle := 0;
  cgalworker_started := false
|}.

Lemma preview_over_the_limit_witness :
  opencsgRenderer (compileCSG wide_env wide_window) = None
  /\ renderer (csgRender_view true (compileCSG wide_env wide_window) unchecked_view)
     = Some (shown_thrown_together (renderer_of (compileCSG wide_env wide_window)))
  /\ viewActionPreview
       (csgRender_view true (compileCSG wide_env wide_window) unchecked_view) = true.
Proof.
  destruct (preview_over_the_limit_is_thrown_together (collab := wide_collaborators)
              wide_env true wide_window unchecked_view tt
              Logic.eq_refl Logic.eq_refl Logic.eq_refl Logic.eq_refl
              (identity_on_progress_widget wide_env Logic.eq_refl))
    as (_ & H1 & H2 & H3 & _).
  split; [exact H1|]. split; [exact H2|exact H3].
Defined.

(** The window after a pass over the design of [wide_env], with the GUI
    free: the timer finds nothing changed. *)
Definition compiled_window : MainWindow (collab := wide_collaborators) :=
  set_gui_locked 0 wide_window.

Lemma idle_reload_tick_witness :
  console (checkAutoReload wide_env false compiled_window) = []
  /\ gui_locked (checkAutoReload wide_env false compiled_window) = 0
  /\ root_node (checkAutoReload wide_env false compiled_window) = Some tt.
Proof.
  destruct (idle_reload_tick_keeps_the_design (collab := wide_collaborators)
              wide_env compiled_window) as [_ H].
  - reflexivity.
  - unfold nothing_changed. cbn.
    split; [reflexivity|]. split; [right; discriminate|].
    split; [intros _; discriminate|]. split; [intros _; discriminate|reflexivity].
  - rewrite H. split; [reflexivity|]. split; reflexivity.
Defined.

End MainWinMoreSpec.
